(** * A shallow embedding of [music-player-tui/music_player.py]

    The terminal music player drives an external [mpv] process, talks to it
    over a Unix socket, and maps single keystrokes to playback actions.  This
    development embeds the program function by function, keeping the names of
    the source, and proves the properties of its specification.

    Layout:
    - [Py]: the fragment of the Python runtime the program relies on
      (exceptions and their class hierarchy, JSON values, truthiness,
      [float()], [int()], [divmod], format specs, list indexing);
    - [Render]: the pure part of the status line
      ([format_time_str], [draw_progress_bar], the line built by
      [update_progress_display]);
    - [Player]: the world (process table, socket file, logs, terminal
      trace), the globals of the module and every stateful function;
    - [Spec], [Examples], [Logic]: the vocabulary of the specification,
      concrete worlds, and the predicates used to reason about stateful
      computations;
    - [Behaviour]: further vocabulary (what a computation writes and what
      it leaves alone, order, the rows of the screen) and the block that
      runs [main];
    - [RenderFacts], [PlayerFacts]: the theorems. *)

From Stdlib Require Import ZArith QArith List String Ascii Bool Lia DecimalString.
Import ListNotations.

Set Warnings "-register-all".

Open Scope string_scope.
Open Scope Z_scope.

(* ===================================================================== *)
(** * Python runtime fragment                                              *)
(* ===================================================================== *)

Module Py.

(** Exception classes that can occur in the modelled code. *)
Inductive exc_class : Type :=
| BaseException_ | Exception_
| ArithmeticError_ | OverflowError_ | ZeroDivisionError_
| LookupError_ | IndexError_
| ValueError_ | JSONDecodeError_
| TypeError_ | AttributeError_
| OSError_ | ConnectionError_
| ConnectionRefusedError_ | ConnectionResetError_ | ConnectionAbortedError_
| BrokenPipeError_
| FileNotFoundError_ | PermissionError_ | TimeoutError_
| SubprocessError_ | TimeoutExpired_.

(** The direct base class, as in the interpreter's hierarchy;
    [socket.timeout] is [TimeoutError];
    [TimeoutExpired] is [subprocess.TimeoutExpired]. *)
Definition base (c : exc_class) : option exc_class :=
  match c with
  | BaseException_ => None
  | Exception_ => Some BaseException_
  | ArithmeticError_ | LookupError_ | ValueError_ | TypeError_
  | AttributeError_ | OSError_ | SubprocessError_ => Some Exception_
  | TimeoutExpired_ => Some SubprocessError_
  | OverflowError_ | ZeroDivisionError_ => Some ArithmeticError_
  | IndexError_ => Some LookupError_
  | JSONDecodeError_ => Some ValueError_
  | ConnectionError_ | FileNotFoundError_ | PermissionError_
  | TimeoutError_ => Some OSError_
  | ConnectionRefusedError_ | ConnectionResetError_
  | ConnectionAbortedError_ | BrokenPipeError_ => Some ConnectionError_
  end.

Definition exc_class_eqb (a b : exc_class) : bool :=
  match a, b with
  | BaseException_, BaseException_ | Exception_, Exception_
  | ArithmeticError_, ArithmeticError_ | OverflowError_, OverflowError_
  | ZeroDivisionError_, ZeroDivisionError_ | LookupError_, LookupError_
  | IndexError_, IndexError_ | ValueError_, ValueError_
  | JSONDecodeError_, JSONDecodeError_ | TypeError_, TypeError_
  | AttributeError_, AttributeError_ | OSError_, OSError_
  | ConnectionError_, ConnectionError_
  | ConnectionRefusedError_, ConnectionRefusedError_
  | ConnectionResetError_, ConnectionResetError_
  | ConnectionAbortedError_, ConnectionAbortedError_
  | BrokenPipeError_, BrokenPipeError_
  | FileNotFoundError_, FileNotFoundError_
  | PermissionError_, PermissionError_
  | TimeoutError_, TimeoutError_
  | SubprocessError_, SubprocessError_
  | TimeoutExpired_, TimeoutExpired_ => true
  | _, _ => false
  end.

(** [issubclass c d]; the hierarchy has depth at most four. *)
Fixpoint issubclass_fuel (fuel : nat) (c d : exc_class) : bool :=
  exc_class_eqb c d ||
  match fuel with
  | O => false
  | S k => match base c with
           | Some b => issubclass_fuel k b d
           | None => false
           end
  end.

Definition issubclass := issubclass_fuel 4.

(** A raised exception: [sys.exit(code)] raises [SystemExit], which is not an
    [Exception]; everything else is an instance of one of the classes. *)
Inductive exn : Type :=
| SystemExit (code : Z)
| Exc (c : exc_class).

(** [except (c1, c2, ...)]: does the clause catch [e]? *)
Definition caught_by (handlers : list exc_class) (e : exn) : bool :=
  match e with
  | SystemExit _ => false
  | Exc c => existsb (issubclass c) handlers
  end.

(** Pure computations that may raise. *)
Inductive res (A : Type) : Type :=
| Val (a : A)
| Err (e : exn).
Arguments Val {A} a.
Arguments Err {A} e.

Definition rbind {A B} (r : res A) (k : A -> res B) : res B :=
  match r with
  | Val a => k a
  | Err e => Err e
  end.

(** Python floats: the finite ones are the rationals they denote. *)
Inductive pyfloat : Type :=
| Fin (q : Q)
| PInf | NInf | NaN.

(** What [json.loads] can produce. *)
Inductive pyval : Type :=
| VNone
| VBool (b : bool)
| VInt (n : Z)
| VFloat (f : pyfloat)
| VStr (s : string)
| VList (l : list pyval)
| VDict (d : list (string * pyval)).

(** Truth value testing. *)
Definition truthy (v : pyval) : bool :=
  match v with
  | VNone => false
  | VBool b => b
  | VInt n => negb (n =? 0)
  | VFloat (Fin q) => negb (Qnum q =? 0)
  | VFloat _ => true
  | VStr s => negb (String.eqb s EmptyString)
  | VList l => match l with [] => false | _ => true end
  | VDict d => match d with [] => false | _ => true end
  end.

(** [a or b] *)
Definition py_or (a b : pyval) : pyval := if truthy a then a else b.

(** ** Rounding to binary64

    [float(n)] on an int and [a / b] on ints give the nearest double, ties
    to even, and raise [OverflowError] beyond the largest double. *)

Definition round_half_even (n d : Z) : Z :=
  let q := n / d in
  let r := n mod d in
  match 2 * r ?= d with
  | Lt => q
  | Gt => q + 1
  | Eq => if Z.even q then q else q + 1
  end.

(** [floor (log2 (a / d))] for positive [a] and [d]. *)
Definition floor_log2_quot (a d : Z) : Z :=
  let l := Z.log2 a - Z.log2 d in
  if a * 2 ^ Z.max (- l) 0 <? d * 2 ^ Z.max l 0 then l - 1 else l.

Definition scale2 (m e : Z) : Q :=
  if 0 <=? e then Qmake (m * 2 ^ e) 1 else Qmake m (Z.to_pos (2 ^ (- e))).

(** The double nearest to [n / d] ([d > 0]), in lowest terms; [None] on
    overflow. *)
Definition round_double (n d : Z) : option Q :=
  if n =? 0 then Some (Qmake 0 1) else
  let a := Z.abs n in
  let e := Z.max (floor_log2_quot a d - 52) (-1074) in
  let m := if 0 <=? e then round_half_even a (d * 2 ^ e)
           else round_half_even (a * 2 ^ (- e)) d in
  if 1024 <=? Z.log2 m + e then None
  else Some (Qred (scale2 (Z.sgn n * m) e)).

Definition float_of_int (n : Z) : res pyfloat :=
  match round_double n 1 with
  | Some q => Val (Fin q)
  | None => Err (Exc OverflowError_)
  end.

(** [a / b] on ints. *)
Definition int_truediv (a b : Z) : res pyfloat :=
  if b =? 0 then Err (Exc ZeroDivisionError_) else
  match round_double (Z.sgn b * a) (Z.abs b) with
  | Some q => Val (Fin q)
  | None => Err (Exc OverflowError_)
  end.

(** [int(f)] on a float truncates toward zero. *)
Definition int_of_float (f : pyfloat) : res Z :=
  match f with
  | Fin q => Val (Z.quot (Qnum q) (Zpos (Qden q)))
  | PInf | NInf => Err (Exc OverflowError_)
  | NaN => Err (Exc ValueError_)
  end.

(** [f > 0] *)
Definition float_gt0 (f : pyfloat) : bool :=
  match f with
  | Fin q => 0 <? Qnum q
  | PInf => true
  | NInf | NaN => false
  end.

(** ** Strings *)

Definition str_int (n : Z) : string := NilZero.string_of_int (Z.to_int n).

(** [s * n]: the empty string when [n <= 0]. *)
Fixpoint str_repeat (s : string) (n : nat) : string :=
  match n with
  | O => EmptyString
  | S k => s ++ str_repeat s k
  end.

Definition str_mul (s : string) (n : Z) : string := str_repeat s (Z.to_nat n).

(** The format spec [02d]: sign-aware zero padding to width two. *)
Definition format_02d (n : Z) : string :=
  let digits := str_int (Z.abs n) in
  if n <? 0 then "-" ++ digits
  else if (Z.of_nat (String.length digits) <? 2) then "0" ++ digits
  else digits.

Definition is_space (c : ascii) : bool :=
  let n := Z.of_nat (nat_of_ascii c) in
  ((9 <=? n) && (n <=? 13)) || ((28 <=? n) && (n <=? 32)).

Fixpoint lstrip (l : list ascii) : list ascii :=
  match l with
  | c :: l' => if is_space c then lstrip l' else l
  | [] => []
  end.

(** [s.strip()] on the characters, for ASCII white space. *)
Definition strip_chars (l : list ascii) : list ascii :=
  rev (lstrip (rev (lstrip l))).

Definition strip (s : string) : string :=
  string_of_list_ascii (strip_chars (list_ascii_of_string s)).

Definition lower (c : ascii) : ascii :=
  let n := nat_of_ascii c in
  if ((65 <=? n) && (n <=? 90))%nat then ascii_of_nat (n + 32) else c.

(** ** [float(s)] on a string

    The grammar of the language reference, on ASCII input: optional sign,
    then [inf], [infinity] or [nan] in any case, or a decimal number with
    an optional exponent, underscores allowed between digits only.
    Surrounding white space is dropped first; for [float()] that is tab
    to carriage return and the blank, not the separators 28 to 31 that
    [str.strip] removes as well. *)

Definition is_float_space (c : ascii) : bool :=
  let n := Z.of_nat (nat_of_ascii c) in
  ((9 <=? n) && (n <=? 13)) || (n =? 32).

Fixpoint lstrip_float (l : list ascii) : list ascii :=
  match l with
  | c :: l' => if is_float_space c then lstrip_float l' else l
  | [] => []
  end.

Definition strip_float (l : list ascii) : list ascii :=
  rev (lstrip_float (rev (lstrip_float l))).

Definition digit_val (c : ascii) : option Z :=
  let n := Z.of_nat (nat_of_ascii c) in
  if (48 <=? n) && (n <=? 57) then Some (n - 48) else None.

(** [(["_"] digit)*] after a first digit: value, number of digits, rest. *)
Fixpoint digit_run (acc cnt : Z) (l : list ascii) : Z * Z * list ascii :=
  match l with
  | c :: l' =>
      match digit_val c with
      | Some d => digit_run (10 * acc + d) (cnt + 1) l'
      | None =>
          if Ascii.eqb c "_"
          then match l' with
               | c2 :: l'' =>
                   match digit_val c2 with
                   | Some d => digit_run (10 * acc + d) (cnt + 1) l''
                   | None => (acc, cnt, l)
                   end
               | [] => (acc, cnt, l)
               end
          else (acc, cnt, l)
      end
  | [] => (acc, cnt, l)
  end.

Definition digitpart (l : list ascii) : option (Z * Z * list ascii) :=
  match l with
  | c :: l' =>
      match digit_val c with
      | Some d => Some (digit_run d 1 l')
      | None => None
      end
  | [] => None
  end.

Definition read_sign (l : list ascii) : bool * list ascii :=
  match l with
  | c :: l' =>
      if Ascii.eqb c "-" then (true, l')
      else if Ascii.eqb c "+" then (false, l')
      else (false, l)
  | [] => (false, l)
  end.

(** [number]: mantissa digits as an integer, count of fraction digits. *)
Definition read_number (l : list ascii) : option (Z * Z * list ascii) :=
  match digitpart l with
  | Some (ip, _, rest) =>
      match rest with
      | c :: rest' =>
          if Ascii.eqb c "."
          then match digitpart rest' with
               | Some (fp, fcnt, rest'') =>
                   Some (ip * 10 ^ fcnt + fp, fcnt, rest'')
               | None => Some (ip, 0, rest')
               end
          else Some (ip, 0, rest)
      | [] => Some (ip, 0, rest)
      end
  | None =>
      match l with
      | c :: rest' =>
          if Ascii.eqb c "."
          then match digitpart rest' with
               | Some (fp, fcnt, rest'') => Some (fp, fcnt, rest'')
               | None => None
               end
          else None
      | [] => None
      end
  end.

(** [exponent]; absent means zero; [None] when an [e] is not followed by
    a well-formed exponent. *)
Definition read_exponent (l : list ascii) : option (Z * list ascii) :=
  match l with
  | c :: l' =>
      if Ascii.eqb (lower c) "e"
      then let '(neg, l'') := read_sign l' in
           match digitpart l'' with
           | Some (ev, _, rest) => Some (if neg then - ev else ev, rest)
           | None => None
           end
      else Some (0, l)
  | [] => Some (0, l)
  end.

Definition float_of_decimal (neg : bool) (m e10 : Z) : pyfloat :=
  let n := if 0 <=? e10 then m * 10 ^ e10 else m in
  let d := if 0 <=? e10 then 1 else 10 ^ (- e10) in
  match round_double (if neg then - n else n) d with
  | Some q => Fin q
  | None => if neg then NInf else PInf
  end.

Definition float_of_string (s : string) : option pyfloat :=
  let l := strip_float (list_ascii_of_string s) in
  let '(neg, body) := read_sign l in
  let word := string_of_list_ascii (map lower body) in
  if String.eqb word "inf" || String.eqb word "infinity"
  then Some (if neg then NInf else PInf)
  else if String.eqb word "nan" then Some NaN
  else match read_number body with
       | Some (m, fcnt, rest) =>
           match read_exponent rest with
           | Some (ev, []) => Some (float_of_decimal neg m (ev - fcnt))
           | _ => None
           end
       | None => None
       end.

(** [float(v)] *)
Definition py_float (v : pyval) : res pyfloat :=
  match v with
  | VNone => Err (Exc TypeError_)
  | VBool b => Val (Fin (if b then 1%Q else 0%Q))
  | VInt n => float_of_int n
  | VFloat f => Val f
  | VStr s => match float_of_string s with
              | Some f => Val f
              | None => Err (Exc ValueError_)
              end
  | VList _ | VDict _ => Err (Exc TypeError_)
  end.

(** [try: body  except handlers: handler] on pure computations. *)
Definition try_except {A} (body : res A) (handlers : list exc_class)
    (handler : res A) : res A :=
  match body with
  | Val a => Val a
  | Err e => if caught_by handlers e then handler else Err e
  end.

End Py.

Notation "x <- e ;; k" := (Py.rbind e (fun x => k))
  (at level 100, e at next level, right associativity).

(* ===================================================================== *)
(** * UI drawing: the pure part of the status line                         *)
(* ===================================================================== *)

Module Render.
Import Py.

(** The escape character [\033]. *)
Definition ESC : string := String "027"%char EmptyString.

(** [format_time_str(seconds)] *)
Definition format_time_str (seconds : pyval) : res string :=
  let seconds := match seconds with VNone => VInt 0 | _ => seconds end in
  try_except
    (f <- py_float seconds ;;
     n <- int_of_float f ;;
     let mins := n / 60 in
     let secs := n mod 60 in
     Val (format_02d mins ++ ":" ++ format_02d secs))
    [ValueError_; TypeError_]
    (Val "00:00").

(** [draw_progress_bar(percent)] *)
Definition draw_progress_bar (percent : pyval) : res string :=
  f <- py_float (py_or percent (VInt 0)) ;;
  percent <- int_of_float f ;;
  let width := 50 in
  q <- int_truediv (width * percent) 100 ;;
  filled_len <- int_of_float q ;;
  let bar := str_mul "█" filled_len in
  let empty_len := width - filled_len in
  let bar := bar ++ str_mul "░" empty_len in
  Val ("[" ++ ESC ++ "[1;36m" ++ bar ++ ESC ++ "[0m] " ++ str_int percent ++ "%").

Definition loading_line : string := ESC ++ "[1;33mLoading..." ++ ESC ++ "[0m".

(** The [line] computed by [update_progress_display]:
    [percent is not None and float(percent or 0) > 0] selects the bar. *)
Definition status_line (percent current_pos total_duration : pyval)
  : res string :=
  shown <- match percent with
           | VNone => Val false
           | _ => f <- py_float (py_or percent (VInt 0)) ;; Val (float_gt0 f)
           end ;;
  if shown : bool then
    progress_bar <- draw_progress_bar percent ;;
    current_formatted <- format_time_str current_pos ;;
    total_formatted <- format_time_str total_duration ;;
    Val (progress_bar ++ " " ++ ESC ++ "[1;37m" ++ current_formatted ++ " / "
           ++ total_formatted ++ ESC ++ "[0m")
  else Val loading_line.

End Render.

(* ===================================================================== *)
(** * The player: world, globals and the stateful functions                *)
(* ===================================================================== *)

Module Player.
Import Py Render.

(** ** Paths *)

(** A [Path] below [MUSIC_ROOT = Path(".")]: folder and file name. *)
Record path : Type := mkpath { path_parent : string; path_name : string }.

Definition path_str (p : path) : string := path_parent p ++ "/" ++ path_name p.

Definition path_eqb (a b : path) : bool :=
  String.eqb (path_parent a) (path_parent b)
  && String.eqb (path_name a) (path_name b).

(** Paths compare by their parts. *)
Definition path_ltb (a b : path) : bool :=
  match String.compare (path_parent a) (path_parent b) with
  | Lt => true
  | Gt => false
  | Eq => match String.compare (path_name a) (path_name b) with
          | Lt => true
          | _ => false
          end
  end.

(** ** The world outside the program *)

(** How a spawned player behaves; chosen by the environment. *)
Record spawn_behaviour : Type := mkbehaviour {
  sb_fails : option exc_class;   (* [Popen] raises this *)
  sb_binds : bool;               (* creates the socket while we sleep *)
  sb_exits_early : bool;         (* is gone when the sleep is over *)
  sb_honors_term : bool;         (* exits within the grace period on SIGTERM *)
  sb_unlinks_on_exit : bool      (* removes its socket when it exits *)
}.

Record proc : Type := mkproc {
  p_alive : bool;
  p_sigterm : bool;              (* SIGTERM was sent *)
  p_fresh : bool;                (* spawned, has not had time to start *)
  p_plan : spawn_behaviour
}.

(** Who created the socket file [/tmp/mpv-musicplayer]. *)
Inductive owner : Type :=
| Stale                          (* left over from an earlier run *)
| BoundBy (pid : nat).

(** One use of the socket: what each call of the exchange does. *)
Record chan_script : Type := mkscript {
  cs_socket : option exc_class;
  cs_connect : option exc_class;
  cs_sendall : option exc_class;
  cs_recv : exc_class + string
}.

Inductive fzf_outcome : Type :=
| FzfAbsent                                  (* no [fzf] executable *)
| FzfDone (returncode : Z) (stdout : string).

(** Everything the program does to the outside, in order. *)
Inductive action : Type :=
| Terminate (pid : nat)
| Wait (pid : nat) (timeout : Q)
| Kill (pid : nat)
| Unlink
| Popen (command : list string)
| Sleep (seconds : Q)
| SockSend (command : pyval)
| Append (file : string) (text : string)
| StdoutWrite (text : string)
| PrintLine (text : string)
| ClearScreen
| RunFzf (input_list : list string) (prompt : string)
| Input (prompt : string)
| Tcsetattr (settings : nat).

(** Library and operating-system behaviour that the repository does not
    define; never modified by the program. *)
Record environment : Type := mkenv {
  json_loads : string -> option pyval;       (* [None]: JSONDecodeError *)
  spawn_plan : nat -> spawn_behaviour;       (* by pid of the new process *)
  chan_plan : nat -> chan_script;            (* by number of the exchange *)
  dir_entries : list (string * bool);        (* name, [is_dir()] *)
  glob : string -> string -> list string;    (* folder, pattern *)
  is_file : string -> bool;
  home : string;
  get_song_info : path -> res (string * string * string * string);
  rng : Z;                                   (* the random source *)
  stdin_isatty : bool;
  tty_settings : nat                         (* [termios.tcgetattr] *)
}.

(** The module globals together with the mutable part of the world. *)
Record state : Type := mkstate {
  mpv_process : option nat;
  current_folder : string;
  songs : list path;
  current_song_index : Z;
  needs_full_redraw : bool;
  old_termios_settings : option nat;
  procs : list proc;
  endpoint : option owner;
  likes_file : string;
  dislikes_file : string;
  trace : list action;
  fzf_queue : list fzf_outcome;
  input_queue : list string;
  chan_count : nat;
  env : environment
}.

Definition set_mpv_process (v : option nat) (s : state) : state :=
  mkstate v (current_folder s) (songs s) (current_song_index s)
    (needs_full_redraw s) (old_termios_settings s) (procs s) (endpoint s)
    (likes_file s) (dislikes_file s) (trace s) (fzf_queue s) (input_queue s)
    (chan_count s) (env s).

Definition set_current_folder (v : string) (s : state) : state :=
  mkstate (mpv_process s) v (songs s) (current_song_index s)
    (needs_full_redraw s) (old_termios_settings s) (procs s) (endpoint s)
    (likes_file s) (dislikes_file s) (trace s) (fzf_queue s) (input_queue s)
    (chan_count s) (env s).

Definition set_songs (v : list path) (s : state) : state :=
  mkstate (mpv_process s) (current_folder s) v (current_song_index s)
    (needs_full_redraw s) (old_termios_settings s) (procs s) (endpoint s)
    (likes_file s) (dislikes_file s) (trace s) (fzf_queue s) (input_queue s)
    (chan_count s) (env s).

Definition set_current_song_index (v : Z) (s : state) : state :=
  mkstate (mpv_process s) (current_folder s) (songs s) v
    (needs_full_redraw s) (old_termios_settings s) (procs s) (endpoint s)
    (likes_file s) (dislikes_file s) (trace s) (fzf_queue s) (input_queue s)
    (chan_count s) (env s).

Definition set_needs_full_redraw (v : bool) (s : state) : state :=
  mkstate (mpv_process s) (current_folder s) (songs s)
    (current_song_index s) v (old_termios_settings s) (procs s) (endpoint s)
    (likes_file s) (dislikes_file s) (trace s) (fzf_queue s) (input_queue s)
    (chan_count s) (env s).

Definition set_old_termios_settings (v : option nat) (s : state) : state :=
  mkstate (mpv_process s) (current_folder s) (songs s)
    (current_song_index s) (needs_full_redraw s) v (procs s) (endpoint s)
    (likes_file s) (dislikes_file s) (trace s) (fzf_queue s) (input_queue s)
    (chan_count s) (env s).

Definition set_procs (v : list proc) (s : state) : state :=
  mkstate (mpv_process s) (current_folder s) (songs s)
    (current_song_index s) (needs_full_redraw s) (old_termios_settings s) v
    (endpoint s) (likes_file s) (dislikes_file s) (trace s) (fzf_queue s)
    (input_queue s) (chan_count s) (env s).

Definition set_endpoint (v : option owner) (s : state) : state :=
  mkstate (mpv_process s) (current_folder s) (songs s)
    (current_song_index s) (needs_full_redraw s) (old_termios_settings s)
    (procs s) v (likes_file s) (dislikes_file s) (trace s) (fzf_queue s)
    (input_queue s) (chan_count s) (env s).

Definition set_likes_file (v : string) (s : state) : state :=
  mkstate (mpv_process s) (current_folder s) (songs s)
    (current_song_index s) (needs_full_redraw s) (old_termios_settings s)
    (procs s) (endpoint s) v (dislikes_file s) (trace s) (fzf_queue s)
    (input_queue s) (chan_count s) (env s).

Definition set_dislikes_file (v : string) (s : state) : state :=
  mkstate (mpv_process s) (current_folder s) (songs s)
    (current_song_index s) (needs_full_redraw s) (old_termios_settings s)
    (procs s) (endpoint s) (likes_file s) v (trace s) (fzf_queue s)
    (input_queue s) (chan_count s) (env s).

Definition set_trace (v : list action) (s : state) : state :=
  mkstate (mpv_process s) (current_folder s) (songs s)
    (current_song_index s) (needs_full_redraw s) (old_termios_settings s)
    (procs s) (endpoint s) (likes_file s) (dislikes_file s) v (fzf_queue s)
    (input_queue s) (chan_count s) (env s).

Definition set_fzf_queue (v : list fzf_outcome) (s : state) : state :=
  mkstate (mpv_process s) (current_folder s) (songs s)
    (current_song_index s) (needs_full_redraw s) (old_termios_settings s)
    (procs s) (endpoint s) (likes_file s) (dislikes_file s) (trace s) v
    (input_queue s) (chan_count s) (env s).

Definition set_input_queue (v : list string) (s : state) : state :=
  mkstate (mpv_process s) (current_folder s) (songs s)
    (current_song_index s) (needs_full_redraw s) (old_termios_settings s)
    (procs s) (endpoint s) (likes_file s) (dislikes_file s) (trace s)
    (fzf_queue s) v (chan_count s) (env s).

Definition set_chan_count (v : nat) (s : state) : state :=
  mkstate (mpv_process s) (current_folder s) (songs s)
    (current_song_index s) (needs_full_redraw s) (old_termios_settings s)
    (procs s) (endpoint s) (likes_file s) (dislikes_file s) (trace s)
    (fzf_queue s) (input_queue s) v (env s).

(** ** Stateful computations

    A computation returns, raises, or waits for ever on input that never
    comes ([Pending]). *)
Inductive outcome (A : Type) : Type :=
| Ok (a : A) (s : state)
| Raise (e : exn) (s : state)
| Pending (s : state).
Arguments Ok {A} a s.
Arguments Raise {A} e s.
Arguments Pending {A} s.

Definition M (A : Type) : Type := state -> outcome A.

Definition ret {A} (a : A) : M A := fun s => Ok a s.
Definition raise {A} (e : exn) : M A := fun s => Raise e s.
Definition bind {A B} (m : M A) (k : A -> M B) : M B :=
  fun s => match m s with
           | Ok a s' => k a s'
           | Raise e s' => Raise e s'
           | Pending s' => Pending s'
           end.
Definition get {A} (f : state -> A) : M A := fun s => Ok (f s) s.
Definition modify (f : state -> state) : M unit := fun s => Ok tt (f s).
Definition lift {A} (r : res A) : M A :=
  match r with
  | Val a => ret a
  | Err e => raise e
  end.

(** [try: body  except handlers: handler] *)
Definition try_catch {A} (body : M A) (handlers : list exc_class)
    (handler : M A) : M A :=
  fun s => match body s with
           | Raise e s' => if caught_by handlers e then handler s'
                           else Raise e s'
           | r => r
           end.

(** [try: body  finally: final]; an exception raised by [final] replaces
    the one in flight. *)
Definition try_finally {A} (body : M A) (final : M unit) : M A :=
  fun s => match body s with
           | Ok a s' => bind final (fun _ => ret a) s'
           | Raise e s' => bind final (fun _ => raise e) s'
           | Pending s' => Pending s'
           end.

Definition final_state {A} (o : outcome A) : state :=
  match o with
  | Ok _ s | Raise _ s | Pending s => s
  end.

Notation "x <~ e ;; k" := (bind e (fun x => k))
  (at level 100, e at next level, right associativity).
Notation "e ;;; k" := (bind e (fun _ => k))
  (at level 100, right associativity).

(** ** Configuration *)

Definition LIKES_FILE : string := "likes.txt".
Definition DISLIKES_FILE : string := "dislikes.txt".
Definition MPV_SOCKET : string := "/tmp/mpv-musicplayer".
Definition SUPPORTED_EXTENSIONS : list string :=
  [".mp3"; ".wav"; ".flac"; ".aac"; ".ogg"; ".m4a"].

(** ** Primitives: processes, the socket file, the terminal *)

Definition emit (a : action) : M unit :=
  modify (fun s => set_trace (trace s ++ [a])%list s).

Fixpoint list_update {A} (l : list A) (i : nat) (f : A -> A) : list A :=
  match l, i with
  | [], _ => []
  | x :: l', O => f x :: l'
  | x :: l', S j => x :: list_update l' j f
  end.

Definition proc_at (s : state) (pid : nat) : option proc :=
  nth_error (procs s) pid.

Definition update_proc (pid : nat) (f : proc -> proc) (s : state) : state :=
  set_procs (list_update (procs s) pid f) s.

Definition alive (s : state) (pid : nat) : bool :=
  match proc_at s pid with
  | Some p => p_alive p
  | None => false
  end.

Definition owner_is (pid : nat) (o : option owner) : bool :=
  match o with
  | Some (BoundBy q) => Nat.eqb q pid
  | _ => false
  end.

(** The process [pid] exits on its own (end of track, or SIGTERM obeyed). *)
Definition exit_proc (pid : nat) (s : state) : state :=
  let unlinks := match proc_at s pid with
                 | Some p => sb_unlinks_on_exit (p_plan p)
                 | None => false
                 end in
  let s1 := update_proc pid
              (fun p => mkproc false (p_sigterm p) (p_fresh p) (p_plan p)) s in
  if unlinks && owner_is pid (endpoint s1) then set_endpoint None s1 else s1.

(** [p.poll() is None] *)
Definition poll_is_None (pid : nat) : M bool := get (fun s => alive s pid).

(** [p.terminate()] *)
Definition terminate (pid : nat) : M unit :=
  emit (Terminate pid) ;;;
  modify (update_proc pid
            (fun p => mkproc (p_alive p) true (p_fresh p) (p_plan p))).

(** [p.wait(timeout=t)] *)
Definition wait (pid : nat) (t : Q) : M unit :=
  emit (Wait pid t) ;;;
  p <~ get (fun s => proc_at s pid) ;;
  match p with
  | Some p =>
      if p_alive p
      then if p_sigterm p && sb_honors_term (p_plan p)
           then modify (exit_proc pid)
           else raise (Exc TimeoutExpired_)
      else ret tt
  | None => ret tt
  end.

(** [p.kill()] *)
Definition kill (pid : nat) : M unit :=
  emit (Kill pid) ;;;
  modify (update_proc pid
            (fun p => mkproc false (p_sigterm p) (p_fresh p) (p_plan p))).

(** [MPV_SOCKET.exists()] *)
Definition socket_exists : M bool :=
  get (fun s => match endpoint s with Some _ => true | None => false end).

(** [MPV_SOCKET.unlink()] *)
Definition unlink : M unit :=
  ex <~ socket_exists ;;
  if ex then emit Unlink ;;; modify (set_endpoint None)
  else raise (Exc FileNotFoundError_).

(** [subprocess.Popen(command, ...)]: the handle of the new process. *)
Definition popen (command : list string) : M nat :=
  emit (Popen command) ;;;
  pid <~ get (fun s => List.length (procs s)) ;;
  plan <~ get (fun s => spawn_plan (env s) pid) ;;
  match sb_fails plan with
  | Some c => raise (Exc c)
  | None =>
      modify (fun s => set_procs (procs s ++ [mkproc true false true plan])%list s) ;;;
      ret pid
  end.

(** While the program sleeps, a process that was just spawned starts up:
    it may create the socket, and it may already be gone again. *)
Definition settle (s : state) : state :=
  let pid := pred (List.length (procs s)) in
  match proc_at s pid with
  | Some p =>
      if p_fresh p then
        let s1 := update_proc pid
                    (fun p => mkproc (p_alive p) (p_sigterm p) false (p_plan p)) s in
        if p_alive p then
          let s2 := if sb_binds (p_plan p)
                    then set_endpoint (Some (BoundBy pid)) s1 else s1 in
          if sb_exits_early (p_plan p) then exit_proc pid s2 else s2
        else s1
      else s
  | None => s
  end.

(** [time.sleep(seconds)] *)
Definition sleep (seconds : Q) : M unit :=
  emit (Sleep seconds) ;;; modify settle.

Definition hide_cursor : M unit := emit (StdoutWrite (ESC ++ "[?25l")).
Definition show_cursor : M unit := emit (StdoutWrite (ESC ++ "[?25h")).

(** [l[i]] *)
Definition py_index {A} (l : list A) (i : Z) : res A :=
  let n := Z.of_nat (List.length l) in
  let j := if i <? 0 then i + n else i in
  if (0 <=? j) && (j <? n)
  then match nth_error l (Z.to_nat j) with
       | Some x => Val x
       | None => Err (Exc IndexError_)
       end
  else Err (Exc IndexError_).

(** ** Cleanup *)

(** [cleanup()] *)
Definition cleanup : M unit :=
  h <~ get mpv_process ;;
  match h with
  | Some pid =>
      running <~ poll_is_None pid ;;
      if running : bool then
        terminate pid ;;;
        try_catch (wait pid 2) [TimeoutExpired_] (kill pid)
      else ret tt
  | None => ret tt
  end ;;;
  ex <~ socket_exists ;;
  (if ex : bool then unlink else ret tt) ;;;
  show_cursor ;;;
  emit ClearScreen ;;;
  emit (PrintLine "Goodbye!") ;;;
  old <~ get old_termios_settings ;;
  isatty <~ get (fun s => stdin_isatty (env s)) ;;
  match old with
  | Some settings => if isatty : bool then emit (Tcsetattr settings) else ret tt
  | None => ret tt
  end ;;;
  raise (SystemExit 0).

(** [signal_handler(sig, frame)] *)
Definition signal_handler : M unit := cleanup.

(** ** MPV player control *)

(** [play_song()] *)
Definition play_song : M unit :=
  h <~ get mpv_process ;;
  match h with
  | Some pid =>
      running <~ poll_is_None pid ;;
      if running : bool then
        terminate pid ;;;
        try_catch (wait pid 2) [TimeoutExpired_] (kill pid)
      else ret tt
  | None => ret tt
  end ;;;
  ex <~ socket_exists ;;
  (if ex : bool then unlink else ret tt) ;;;
  sgs <~ get songs ;;
  idx <~ get current_song_index ;;
  song_path <~ lift (py_index sgs idx) ;;
  hm <~ get (fun s => home (env s)) ;;
  isf <~ get (fun s => is_file (env s)) ;;
  let mpris_candidates :=
    [hm ++ "/.config/mpv/scripts/mpris.so";
     "/usr/share/mpv/scripts/mpris.so";
     "/usr/local/share/mpv/scripts/mpris.so"] in
  let mpris_arg := match find isf mpris_candidates with
                   | Some p => ["--script"; p]
                   | None => []
                   end in
  let ipc_server := "--input-ipc-server=" ++ MPV_SOCKET in
  let command :=
    (["mpv"; "--no-video"; "--quiet"; "--input-terminal=no"; ipc_server]
       ++ mpris_arg ++ [path_str song_path])%list in
  pid <~ popen command ;;
  modify (set_mpv_process (Some pid)) ;;;
  sleep 1 ;;;
  modify (set_needs_full_redraw true).

Definition raise_if (c : option exc_class) : M unit :=
  match c with
  | Some c => raise (Exc c)
  | None => ret tt
  end.

(** [send_mpv_command(command)]; Python's [None] is [VNone]. *)
Definition send_mpv_command (command : pyval) : M pyval :=
  ex <~ socket_exists ;;
  if negb ex then ret VNone else
  try_catch
    (n <~ get chan_count ;;
     modify (set_chan_count (S n)) ;;;
     script <~ get (fun s => chan_plan (env s) n) ;;
     raise_if (cs_socket script) ;;;
     raise_if (cs_connect script) ;;;
     raise_if (cs_sendall script) ;;;
     emit (SockSend command) ;;;
     match cs_recv script with
     | inl c => raise (Exc c)
     | inr response_data =>
         if negb (String.eqb response_data EmptyString)
         then loads <~ get (fun s => json_loads (env s)) ;;
              match loads response_data with
              | Some v => ret v
              | None => raise (Exc JSONDecodeError_)
              end
         else ret VNone
     end)
    [ConnectionRefusedError_; FileNotFoundError_; BrokenPipeError_;
     TimeoutError_]
    (ret VNone).

Fixpoint assoc (k : string) (d : list (string * pyval)) : option pyval :=
  match d with
  | [] => None
  | (k', v) :: d' => if String.eqb k k' then Some v else assoc k d'
  end.

(** [v.get(key)] *)
Definition py_get (v : pyval) (key : string) : res pyval :=
  match v with
  | VDict d => Val (match assoc key d with Some x => x | None => VNone end)
  | _ => Err (Exc AttributeError_)
  end.

Definition is_str (v : pyval) (s : string) : bool :=
  match v with
  | VStr s' => String.eqb s' s
  | _ => false
  end.

(** [get_mpv_property(prop)] *)
Definition get_mpv_property (prop : string) : M pyval :=
  response <~ send_mpv_command
    (VDict [("command", VList [VStr "get_property"; VStr prop])]) ;;
  if truthy response then
    err <~ lift (py_get response "error") ;;
    if is_str err "success" then lift (py_get response "data")
    else ret VNone
  else ret VNone.

(** ** External tools *)

(** [run_fzf(input_list, prompt)]: the selected line, or [None]. *)
Definition run_fzf (input_list : list string) (prompt : string)
  : M (option string) :=
  emit (RunFzf input_list prompt) ;;;
  q <~ get fzf_queue ;;
  match q with
  | [] => fun s => Pending s
  | o :: q' =>
      modify (set_fzf_queue q') ;;;
      match o with
      | FzfAbsent =>
          emit (PrintLine "Error: 'fzf' command not found. Please install fzf.") ;;;
          cleanup ;;;
          raise (SystemExit 1)
      | FzfDone returncode stdout =>
          ret (if returncode =? 0 then Some (strip stdout) else None)
      end
  end.

(** [input(prompt)] *)
Definition input (prompt : string) : M string :=
  emit (Input prompt) ;;;
  q <~ get input_queue ;;
  match q with
  | [] => fun s => Pending s
  | line :: q' => modify (set_input_queue q') ;;; ret line
  end.

(** ** Folder and song management *)

Definition str_lower (s : string) : string :=
  string_of_list_ascii (map lower (list_ascii_of_string s)).

Definition upper (c : ascii) : ascii :=
  let n := nat_of_ascii c in
  if ((97 <=? n) && (n <=? 122))%nat then ascii_of_nat (n - 32) else c.

Definition str_upper (s : string) : string :=
  string_of_list_ascii (map upper (list_ascii_of_string s)).

Definition startswith (s pre : string) : bool := String.prefix pre s.

Fixpoint insert_str (x : string) (l : list string) : list string :=
  match l with
  | [] => [x]
  | y :: l' => if String.leb x y then x :: l else y :: insert_str x l'
  end.

(** [sorted(l)] on strings *)
Definition sorted_str (l : list string) : list string :=
  fold_right insert_str [] l.

Fixpoint insert_path (x : path) (l : list path) : list path :=
  match l with
  | [] => [x]
  | y :: l' =>
      if path_eqb x y then l
      else if path_ltb x y then x :: l
      else y :: insert_path x l'
  end.

(** [sorted(list(set(l)))] on paths *)
Definition sorted_set (l : list path) : list path :=
  fold_right insert_path [] l.

(** [not selected], for a string or [None] *)
Definition none_or_empty (o : option string) : bool :=
  match o with
  | Some s => String.eqb s EmptyString
  | None => true
  end.

Definition folder_prompt : string := "🎵 Select Folder: ".

(** The [while not selected] loop of [select_folder]; every round consumes
    one answer of the picker, so the length of the answer queue bounds it. *)
Fixpoint select_folder_loop (rounds : nat) (folders : list string)
    (selected : option string) : M string :=
  match selected with
  | Some (String c r) => ret (String c r)
  | _ =>
      match rounds with
      | O => fun s => Pending s
      | S k =>
          emit (PrintLine "No folder selected.") ;;;
          selected <~ run_fzf folders folder_prompt ;;
          (if none_or_empty selected then
             answer <~ input "No folder selected. Quit? (y/n) " ;;
             if String.eqb (str_lower answer) "y" then cleanup else ret tt
           else ret tt) ;;;
          select_folder_loop k folders selected
      end
  end.

(** [select_folder()] *)
Definition select_folder : M unit :=
  entries <~ get (fun s => dir_entries (env s)) ;;
  let folders :=
    sorted_str
      (map fst
         (filter (fun d => snd d && negb (startswith (fst d) ".")) entries)) in
  match folders with
  | [] =>
      emit (PrintLine "No music folders found in the current directory.") ;;;
      raise (SystemExit 1)
  | _ =>
      selected <~
        (if existsb (String.eqb "Unni_Menon") folders
         then ret (Some "Unni_Menon")
         else
           emit (PrintLine
                   "Default folder 'Unni_Menon' not found. Please select a folder:") ;;;
           run_fzf folders folder_prompt) ;;
      rounds <~ get (fun s => S (List.length (fzf_queue s))) ;;
      selected <~ select_folder_loop rounds folders selected ;;
      modify (set_current_folder selected)
  end.

(** [get_songs()] *)
Definition get_songs : M unit :=
  folder <~ get current_folder ;;
  g <~ get (fun s => glob (env s)) ;;
  let found_songs :=
    flat_map
      (fun ext =>
         List.app (g folder ("*" ++ ext)) (g folder ("*" ++ str_upper ext)))
      SUPPORTED_EXTENSIONS in
  let sgs := sorted_set (map (mkpath folder) found_songs) in
  modify (set_songs sgs) ;;;
  match sgs with
  | [] =>
      emit (PrintLine ("No songs found in folder '" ++ folder ++ "'")) ;;;
      raise (SystemExit 1)
  | _ => ret tt
  end.

(** [l.index(x)] on strings *)
Fixpoint list_index (x : string) (l : list string) : res Z :=
  match l with
  | [] => Err (Exc ValueError_)
  | y :: l' => if String.eqb y x then Val 0
               else i <- list_index x l' ;; Val (i + 1)
  end.

(** [choose_song()] *)
Definition choose_song : M bool :=
  sgs <~ get songs ;;
  let song_names := map path_name sgs in
  selected_song_name <~ run_fzf song_names "🎵 Select Song: " ;;
  if negb (none_or_empty selected_song_name) then
    try_catch
      (i <~ lift (list_index
                    (match selected_song_name with
                     | Some n => n
                     | None => EmptyString
                     end) song_names) ;;
       modify (set_current_song_index i) ;;;
       ret true)
      [ValueError_]
      (ret false)
  else ret false.

(** ** UI drawing *)

Definition len_songs (s : state) : Z := Z.of_nat (List.length (songs s)).

(** [update_progress_display(percent, current_pos, total_duration)] *)
Definition update_progress_display (percent current_pos total_duration : pyval)
  : M unit :=
  n <~ get len_songs ;;
  let total_lines := 5 + n + 5 in
  emit (StdoutWrite (ESC ++ "[s" ++ ESC ++ "[" ++ str_int total_lines ++ ";1H")) ;;;
  line <~ lift (status_line percent current_pos total_duration) ;;
  emit (StdoutWrite (ESC ++ "[K" ++ line)) ;;;
  emit (StdoutWrite (ESC ++ "[u")).

(** The format spec [<10]. *)
Definition ljust10 (s : string) : string :=
  s ++ str_repeat " " (10 - String.length s).

Fixpoint emit_all (l : list action) : M unit :=
  match l with
  | [] => ret tt
  | a :: l' => emit a ;;; emit_all l'
  end.

(** The rows of the track list, [enumerate(songs)] from [i]. *)
Fixpoint song_rows (i : Z) (current : Z) (l : list path) : list action :=
  match l with
  | [] => []
  | song :: l' =>
      PrintLine (if i =? current
                 then " " ++ ESC ++ "[1;32m▶ " ++ path_name song ++ ESC ++ "[0m"
                 else "  " ++ path_name song)
        :: song_rows (i + 1) current l'
  end.

(** [draw_full_interface()]; the probe of the file is the environment's
    [get_song_info]. *)
Definition draw_full_interface : M unit :=
  sgs <~ get songs ;;
  idx <~ get current_song_index ;;
  song_path <~ lift (py_index sgs idx) ;;
  probe <~ get (fun s => get_song_info (env s)) ;;
  info <~ lift (probe song_path) ;;
  let '(size, sample_rate, bit_rate, bit_depth) := info in
  emit ClearScreen ;;;
  emit (PrintLine (ESC ++ "[1;35m╔═══════════════════ NOW PLAYING ═══════════════════╗" ++ ESC ++ "[0m")) ;;;
  folder <~ get current_folder ;;
  emit (PrintLine (ESC ++ "[1;36m  " ++ folder ++ "/" ++ ESC ++ "[1;33m"
                     ++ path_name song_path ++ ESC ++ "[0m")) ;;;
  emit (PrintLine (ESC ++ "[1;35m╠═══════════════════════════════════════════════════╣" ++ ESC ++ "[0m")) ;;;
  emit (PrintLine ("  " ++ ESC ++ "[1;34mSize:" ++ ESC ++ "[0m " ++ ljust10 size
                     ++ " " ++ ESC ++ "[1;34mSample Rate:" ++ ESC ++ "[0m "
                     ++ ljust10 sample_rate
                     ++ " " ++ ESC ++ "[1;34mBitrate:" ++ ESC ++ "[0m "
                     ++ ljust10 bit_rate
                     ++ " " ++ ESC ++ "[1;34mBit Depth:" ++ ESC ++ "[0m "
                     ++ bit_depth)) ;;;
  emit (PrintLine (ESC ++ "[1;35m╠═══════════════════════════════════════════════════╣" ++ ESC ++ "[0m")) ;;;
  emit_all (song_rows 0 idx sgs) ;;;
  emit (PrintLine (ESC ++ "[1;35m╠═══════════════════════ CONTROLS ══════════════════════╣" ++ ESC ++ "[0m")) ;;;
  emit (PrintLine ("  [" ++ ESC ++ "[1;33ml" ++ ESC ++ "[0m] like    [" ++ ESC ++ "[1;31md" ++ ESC ++ "[0m] dislike    [" ++ ESC ++ "[1mn" ++ ESC ++ "[0m] next")) ;;;
  emit (PrintLine ("  [" ++ ESC ++ "[1mb" ++ ESC ++ "[0m] skip −5s    [" ++ ESC ++ "[1mf" ++ ESC ++ "[0m] skip +5s    [" ++ ESC ++ "[1mp/SPACE" ++ ESC ++ "[0m] play/pause")) ;;;
  emit (PrintLine ("  [" ++ ESC ++ "[1ms" ++ ESC ++ "[0m] choose song    [" ++ ESC ++ "[1mc" ++ ESC ++ "[0m] change folder    [" ++ ESC ++ "[1mq" ++ ESC ++ "[0m] quit")) ;;;
  emit (PrintLine (ESC ++ "[1;35m╚═══════════════════════════════════════════════════╝" ++ ESC ++ "[0m")) ;;;
  emit (PrintLine EmptyString).

(** [show_feedback(message, color_code, duration=1)] *)
Definition show_feedback (message color_code : string) : M unit :=
  let duration := 1%Q in
  n <~ get len_songs ;;
  let total_lines := 5 + n + 4 in
  emit (StdoutWrite (ESC ++ "[s" ++ ESC ++ "[" ++ str_int total_lines ++ ";1H"
                       ++ ESC ++ "[K" ++ ESC ++ "[" ++ color_code ++ "m"
                       ++ message ++ ESC ++ "[0m" ++ ESC ++ "[u")) ;;;
  sleep duration ;;;
  emit (StdoutWrite (ESC ++ "[s" ++ ESC ++ "[" ++ str_int total_lines ++ ";1H"
                       ++ ESC ++ "[K" ++ ESC ++ "[u")).

(** ** Main application logic *)

(** What the outside does during one round of the main loop. *)
Record tick_input : Type := mktick {
  ti_now : Q;                    (* [time.time()] *)
  ti_signal : bool;              (* SIGINT or SIGTERM is delivered *)
  ti_player_exits : bool;        (* the player process ends on its own *)
  ti_key : option string         (* [get_key()] *)
}.

(** [key in (k1, k2, ...)] *)
Definition key_in (key : string) (keys : list string) : bool :=
  existsb (String.eqb key) keys.

(** [current_song_index = (current_song_index + 1) % len(songs)] *)
Definition advance : M unit :=
  idx <~ get current_song_index ;;
  n <~ get len_songs ;;
  if n =? 0 then raise (Exc ZeroDivisionError_)
  else modify (set_current_song_index ((idx + 1) mod n)).

(** [f.write(f"{current_folder}/{songs[current_song_index].name}\n")] on a
    file opened for appending. *)
Definition log_current (file : string) : M unit :=
  folder <~ get current_folder ;;
  sgs <~ get songs ;;
  idx <~ get current_song_index ;;
  song <~ lift (py_index sgs idx) ;;
  let text := folder ++ "/" ++ path_name song ++ String "010"%char EmptyString in
  emit (Append file text) ;;;
  if String.eqb file LIKES_FILE
  then modify (fun s => set_likes_file (likes_file s ++ text) s)
  else modify (fun s => set_dislikes_file (dislikes_file s ++ text) s).

(** The body of [if key:] in the main loop. *)
Definition on_key (key : string) : M unit :=
  (if key_in key ["l"; "L"] then
     log_current LIKES_FILE ;;;
     show_feedback "Liked!" "1;32"
   else if key_in key ["d"; "D"] then
     log_current DISLIKES_FILE ;;;
     show_feedback "Disliked!" "1;31"
   else if key_in key ["n"; "N"] then
     advance ;;;
     play_song
   else if key_in key ["s"; "S"] then
     chosen <~ choose_song ;;
     if chosen : bool then play_song
     else modify (set_needs_full_redraw true)
   else if key_in key ["c"; "C"] then
     select_folder ;;;
     get_songs ;;;
     modify (set_current_song_index 0) ;;;
     play_song
   else if key_in key ["q"; "Q"] then
     cleanup
   else if key_in key ["p"; "P"; " "] then
     send_mpv_command (VDict [("command", VList [VStr "cycle"; VStr "pause"])]) ;;;
     ret tt
   else if key_in key ["b"; "B"] then
     send_mpv_command
       (VDict [("command", VList [VStr "seek"; VInt (-5); VStr "relative"])]) ;;;
     ret tt
   else if key_in key ["f"; "F"] then
     send_mpv_command
       (VDict [("command", VList [VStr "seek"; VInt 5; VStr "relative"])]) ;;;
     ret tt
   else ret tt) ;;;
  if negb (key_in key ["p"; "P"; " "; "b"; "B"; "f"; "F"; "l"; "L"; "d"; "D"])
  then modify (set_needs_full_redraw true)
  else ret tt.

(** The player process may end by itself between two rounds. *)
Definition player_exits (s : state) : state :=
  match mpv_process s with
  | Some pid => if alive s pid then exit_proc pid s else s
  | None => s
  end.

(** One round of [while True]; the result is [last_progress_update]. *)
Definition iteration (inp : tick_input) (last_progress_update : Q) : M Q :=
  (if ti_signal inp then signal_handler else ret tt) ;;;
  (if ti_player_exits inp then modify player_exits else ret tt) ;;;
  let current_time := ti_now inp in
  redraw <~ get needs_full_redraw ;;
  last_progress_update <~
    (if redraw : bool then
       draw_full_interface ;;;
       modify (set_needs_full_redraw false) ;;;
       ret 0%Q
     else ret last_progress_update) ;;
  last_progress_update <~
    (if Qle_bool 1 (current_time - last_progress_update) then
       percent <~ get_mpv_property "percent-pos" ;;
       pos <~ get_mpv_property "time-pos" ;;
       dur <~ get_mpv_property "duration" ;;
       update_progress_display percent pos dur ;;;
       ret current_time
     else ret last_progress_update) ;;
  h <~ get mpv_process ;;
  exited <~ match h with
            | Some pid => running <~ poll_is_None pid ;; ret (negb running)
            | None => ret false
            end ;;
  if exited : bool then
    advance ;;;
    play_song ;;;
    ret last_progress_update
  else
    match ti_key inp with
    | Some (String c r) => on_key (String c r)
    | _ => ret tt
    end ;;;
    sleep (1 # 10) ;;;
    ret last_progress_update.

(** The rounds of the loop for which the outside is described; the loop
    itself never ends, so running out of rounds leaves it [Pending]. *)
Fixpoint loop (ticks : list tick_input) (last_progress_update : Q) : M unit :=
  match ticks with
  | [] => fun s => Pending s
  | inp :: ticks' =>
      last_progress_update <~ iteration inp last_progress_update ;;
      loop ticks' last_progress_update
  end.

(** [random.randint(a, b)] *)
Definition randint (a b : Z) : M Z :=
  if b <? a then raise (Exc ValueError_)
  else r <~ get (fun s => rng (env s)) ;; ret (a + r mod (b - a + 1)).

(** [main()] up to the [try]. *)
Definition startup : M unit :=
  isatty <~ get (fun s => stdin_isatty (env s)) ;;
  if negb isatty then
    emit (PrintLine "This script requires an interactive terminal.") ;;;
    raise (SystemExit 1)
  else
    settings <~ get (fun s => tty_settings (env s)) ;;
    modify (set_old_termios_settings (Some settings)) ;;;
    select_folder ;;;
    get_songs ;;;
    n <~ get len_songs ;;
    r <~ randint 0 (n - 1) ;;
    modify (set_current_song_index r) ;;;
    play_song ;;;
    hide_cursor.

(** [try: while True: ...  finally: cleanup()] *)
Definition main_loop (ticks : list tick_input) : M unit :=
  try_finally (loop ticks 0%Q) cleanup.

(** [main()] *)
Definition main (ticks : list tick_input) : M unit :=
  startup ;;; main_loop ticks.

(** The state when the module has been loaded. *)
Definition initial (e : environment) (fzf : list fzf_outcome)
    (answers : list string) (socket : option owner) (likes dislikes : string)
  : state :=
  mkstate None EmptyString [] 0 true None [] socket likes dislikes [] fzf
    answers 0%nat e.

End Player.

(* ===================================================================== *)
(** * Vocabulary of the specification                                      *)
(* ===================================================================== *)

Module Spec.
Import Py Render Player.

(** ** Status line *)

(** Minutes and seconds of a whole number of seconds. *)
Definition mmss (n : Z) : string :=
  format_02d (n / 60) ++ ":" ++ format_02d (n mod 60).

(** The integer part of a rational, toward zero. *)
Definition trunc (q : Q) : Z := Z.quot (Qnum q) (Zpos (Qden q)).

(** The bar for a whole percentage: fifty cells, one per two percent. *)
Definition bar_string (p : Z) : string :=
  "[" ++ ESC ++ "[1;36m"
      ++ (str_mul "█" (p / 2) ++ str_mul "░" (50 - p / 2))
      ++ ESC ++ "[0m] " ++ str_int p ++ "%".

(** Number of filled cells as the code computes it. *)
Definition cells (p : Z) : res Z :=
  q <- int_truediv (50 * p) 100 ;; int_of_float q.

(** [float()] rejects the value. *)
Definition unparseable (v : pyval) : Prop :=
  py_float v = Err (Exc ValueError_) \/ py_float v = Err (Exc TypeError_).


(** The value is a time the formatter accepts without an error. *)
Definition time_value (v : pyval) : Prop :=
  v = VNone \/ (exists q, py_float v = Val (Fin q)) \/ unparseable v.

(** ** Session *)

(** The bound on the current track index. *)
Definition index_in_range (s : state) : Prop :=
  0 <= current_song_index s < len_songs s.

(** Folder, track list and index. *)
Definition session (s : state) : string * list path * Z :=
  (current_folder s, songs s, current_song_index s).

(** The line that a like or a dislike appends for a track. *)
Definition log_line (s : state) (song : path) : string :=
  current_folder s ++ "/" ++ path_name song ++ String "010"%char EmptyString.

(** What [show_feedback] writes before and after its pause. *)
Definition flash_on (s : state) (message color_code : string) : string :=
  ESC ++ "[s" ++ ESC ++ "[" ++ str_int (5 + len_songs s + 4) ++ ";1H"
      ++ ESC ++ "[K" ++ ESC ++ "[" ++ color_code ++ "m" ++ message
      ++ ESC ++ "[0m" ++ ESC ++ "[u".

Definition flash_off (s : state) : string :=
  ESC ++ "[s" ++ ESC ++ "[" ++ str_int (5 + len_songs s + 4) ++ ";1H"
      ++ ESC ++ "[K" ++ ESC ++ "[u".

(** The keys the main loop reacts to. *)
Definition command_keys : list string :=
  ["l"; "L"; "d"; "D"; "n"; "N"; "s"; "S"; "c"; "C"; "q"; "Q";
   "p"; "P"; " "; "b"; "B"; "f"; "F"].

(** ** Processes and the socket *)

(** Every live managed process is the one the handle names. *)
Definition at_most_one_live (s : state) : Prop :=
  forall pid, alive s pid = true -> mpv_process s = Some pid.

(** The handle reports not-alive. *)
Definition handle_dead (s : state) : Prop :=
  forall pid, mpv_process s = Some pid -> alive s pid = false.

(** The spawned player starts, stays up during the settle interval and
    opens its socket in that time. *)
Definition comes_up (b : spawn_behaviour) : Prop :=
  sb_fails b = None /\ sb_exits_early b = false /\ sb_binds b = true.

(** The classes [send_mpv_command] turns into [None]. *)
Definition soft_errors : list exc_class :=
  [ConnectionRefusedError_; FileNotFoundError_; BrokenPipeError_;
   TimeoutError_].

(** The first step of an exchange that fails, if any; the reply has to
    decode when it is not empty. *)
Definition exchange_error (loads : string -> option pyval) (c : chan_script)
  : option exc_class :=
  match cs_socket c, cs_connect c, cs_sendall c, cs_recv c with
  | Some e, _, _, _ => Some e
  | None, Some e, _, _ => Some e
  | None, None, Some e, _ => Some e
  | None, None, None, inl e => Some e
  | None, None, None, inr data =>
      if String.eqb data EmptyString then None
      else match loads data with
           | Some _ => None
           | None => Some JSONDecodeError_
           end
  end.

(** What a completed exchange returns. *)
Definition exchange_reply (loads : string -> option pyval) (c : chan_script)
  : pyval :=
  match cs_recv c with
  | inr data =>
      if String.eqb data EmptyString then VNone
      else match loads data with
           | Some v => v
           | None => VNone
           end
  | inl _ => VNone
  end.

(** The script of the next exchange. *)
Definition next_script (s : state) : chan_script :=
  chan_plan (env s) (chan_count s).

(** What [play_song] does to stop the current player, as a trace. *)
Definition stop_trace (s : state) : list action :=
  match mpv_process s with
  | Some pid =>
      match proc_at s pid with
      | Some p =>
          if p_alive p then
            [Terminate pid; Wait pid 2]
              ++ (if sb_honors_term (p_plan p) then [] else [Kill pid])
          else []
      | None => []
      end
  | None => []
  end%list.

(** Whether the socket file is there once the old player is stopped. *)
Definition socket_after_stop (s : state) : bool :=
  match endpoint s with
  | None => false
  | Some o =>
      match mpv_process s with
      | Some pid =>
          match proc_at s pid with
          | Some p =>
              negb (p_alive p && sb_honors_term (p_plan p)
                    && sb_unlinks_on_exit (p_plan p) && owner_is pid (Some o))
          | None => true
          end
      | None => true
      end
  end.

(** The command line for a track. *)
Definition mpv_command (s : state) (song : path) : list string :=
  (["mpv"; "--no-video"; "--quiet"; "--input-terminal=no";
    "--input-ipc-server=/tmp/mpv-musicplayer"]
     ++ match find (is_file (env s))
                [home (env s) ++ "/.config/mpv/scripts/mpris.so";
                 "/usr/share/mpv/scripts/mpris.so";
                 "/usr/local/share/mpv/scripts/mpris.so"]%string with
        | Some p => ["--script"; p]
        | None => []
        end
     ++ [path_str song])%list.

End Spec.

(* ===================================================================== *)
(** * Concrete worlds used in examples                                     *)
(* ===================================================================== *)

Module Examples.
Import Py Render Player.

Definition dq : string := String "034"%char EmptyString.

(** A reply of the player to [get_property percent-pos]. *)
Definition reply_text : string :=
  "{" ++ dq ++ "data" ++ dq ++ ":45.0," ++ dq ++ "error" ++ dq ++ ":"
      ++ dq ++ "success" ++ dq ++ "}".

Definition reply_value : pyval :=
  VDict [("data", VFloat (Fin 45)); ("error", VStr "success")].

(** A decoder that knows this one reply. *)
Definition example_loads (data : string) : option pyval :=
  if String.eqb data reply_text then Some reply_value else None.

(** The status line for 45 percent, 90 of 200 seconds. *)
Definition scenario_line : string :=
  "[" ++ ESC ++ "[1;36m"
      ++ "██████████████████████░░░░░░░░░░░░░░░░░░░░░░░░░░░░"
      ++ ESC ++ "[0m] 45% " ++ ESC ++ "[1;37m01:30 / 03:20" ++ ESC ++ "[0m".

(** A player that starts, opens its socket and obeys SIGTERM. *)
Definition good_player : spawn_behaviour :=
  mkbehaviour None true false true true.

(** A player that is gone again before the settle interval is over. *)
Definition short_lived_player : spawn_behaviour :=
  mkbehaviour None false true true true.

Definition answering : chan_script :=
  mkscript None None None (inr reply_text).

(** The player closes the connection while the reply is awaited. *)
Definition reset_by_peer : chan_script :=
  mkscript None None None (inl ConnectionResetError_).

Definition refusing : chan_script :=
  mkscript None (Some ConnectionRefusedError_) None (inr EmptyString).

Definition example_env (chan : chan_script) : environment :=
  mkenv example_loads (fun _ => good_player) (fun _ => chan)
        [("X", true)]
        (fun folder pattern =>
           if String.eqb pattern "*.mp3" then ["a.mp3"; "b.mp3"; "c.mp3"]
           else [])
        (fun _ => false) "/home/user"
        (fun _ => Val ("3.00 MB", "44 kHz", "320 kbps", "-"))
        7 true 0%nat.

Definition tracks_abc : list path :=
  [mkpath "X" "a.mp3"; mkpath "X" "b.mp3"; mkpath "X" "c.mp3"].

(** Folder [X], three tracks, the player of track [index] running and
    bound to the socket, nothing to redraw. *)
Definition playing (chan : chan_script) (index : Z) : state :=
  mkstate (Some 0%nat) "X" tracks_abc index false (Some 0%nat)
          [mkproc true false false good_player] (Some (BoundBy 0%nat))
          EmptyString EmptyString [] [] [] 0%nat (example_env chan).

(** A player that ignores SIGTERM and leaves its socket file behind. *)
Definition stubborn_player : spawn_behaviour :=
  mkbehaviour None true false false false.

(** The same with track [b.mp3] and a stubborn player. *)
Definition playing_stubborn : state :=
  mkstate (Some 0%nat) "X" tracks_abc 1 false (Some 0%nat)
          [mkproc true false false stubborn_player] (Some (BoundBy 0%nat))
          EmptyString EmptyString [] [] [] 0%nat (example_env answering).

(** Folder [X] with the single track [y.mp3], playing. *)
Definition playing_y : state :=
  mkstate (Some 0%nat) "X" [mkpath "X" "y.mp3"] 0 false (Some 0%nat)
          [mkproc true false false good_player] (Some (BoundBy 0%nat))
          EmptyString EmptyString [] [] [] 0%nat (example_env answering).

(** The state when the module has just been loaded and no socket file is
    left over. *)
Definition fresh_start : state :=
  initial (example_env answering) [] [] None EmptyString EmptyString.

(** The same world, except that every spawned player exits at once. *)
Definition short_lived_env : environment :=
  mkenv example_loads (fun _ => short_lived_player) (fun _ => answering)
        [("X", true)] (fun _ _ => []) (fun _ => false) "/home/user"
        (fun _ => Val ("3.00 MB", "44 kHz", "320 kbps", "-"))
        7 true 0%nat.

(** Three tracks are loaded, nothing plays yet, and every player that is
    spawned is gone again before the settle interval is over. *)
Definition short_lived_start : state :=
  set_songs tracks_abc
    (initial short_lived_env [] [] None EmptyString EmptyString).




End Examples.

(* ===================================================================== *)
(** * Reasoning about stateful computations                                *)
(* ===================================================================== *)

Module Logic.
Import Py Render Player Spec.

(** A process record after the process has died. *)
Definition dies (p : proc) : proc :=
  mkproc false (p_sigterm p) (p_fresh p) (p_plan p).

(** The elementary changes of state.  [spawn_ok] admits the two steps that
    only [play_song] takes, a new process and a new handle; [session_ok]
    admits a new track list and a new index. *)
Inductive prim (spawn_ok session_ok : bool) : state -> state -> Prop :=
| prim_trace v s : prim spawn_ok session_ok s (set_trace v s)
| prim_chan_count v s : prim spawn_ok session_ok s (set_chan_count v s)
| prim_fzf_queue v s : prim spawn_ok session_ok s (set_fzf_queue v s)
| prim_input_queue v s : prim spawn_ok session_ok s (set_input_queue v s)
| prim_redraw v s : prim spawn_ok session_ok s (set_needs_full_redraw v s)
| prim_termios v s : prim spawn_ok session_ok s (set_old_termios_settings v s)
| prim_likes v s : prim spawn_ok session_ok s (set_likes_file v s)
| prim_dislikes v s : prim spawn_ok session_ok s (set_dislikes_file v s)
| prim_folder v s : prim spawn_ok session_ok s (set_current_folder v s)
| prim_endpoint v s : prim spawn_ok session_ok s (set_endpoint v s)
| prim_proc pid f s :
    (forall p, p_alive (f p) = true -> p_alive p = true) ->
    prim spawn_ok session_ok s (update_proc pid f s)
| prim_spawn p s :
    spawn_ok = true ->
    prim spawn_ok session_ok s (set_procs (procs s ++ [p])%list s)
| prim_handle v s :
    spawn_ok = true -> prim spawn_ok session_ok s (set_mpv_process v s)
| prim_songs v s :
    session_ok = true -> prim spawn_ok session_ok s (set_songs v s)
| prim_index v s :
    session_ok = true ->
    prim spawn_ok session_ok s (set_current_song_index v s).

(** Zero or more steps. *)
Inductive reach (step : state -> state -> Prop) : state -> state -> Prop :=
| reach_refl s : reach step s s
| reach_next s1 s2 s3 : reach step s1 s2 -> step s2 s3 -> reach step s1 s3.

(** What a computation may change: its final state, however it ends, is
    reached by elementary changes. *)
Definition footprint (spawn_ok session_ok : bool) {A} (m : M A) : Prop :=
  forall s, reach (prim spawn_ok session_ok) s (final_state (m s)).

(** Pre- and postconditions: [Q] on return, [E] on an exception, [I] when
    the computation is left waiting. *)
Definition sat {A} (P : state -> Prop) (m : M A) (Q : A -> state -> Prop)
    (E : exn -> state -> Prop) (I : state -> Prop) : Prop :=
  forall s, P s ->
            match m s with
            | Ok a s' => Q a s'
            | Raise e s' => E e s'
            | Pending s' => I s'
            end.

(** [J] is an invariant of the computation: from a state with [J] it
    returns, or is left waiting, in a state with [J]; [X] is what is known
    when it raises. *)
Definition holds {A} (J : state -> Prop) (X : exn -> state -> Prop)
    (m : M A) : Prop :=
  sat J m (fun _ => J) X J.

(** The opening of [play_song] and of [cleanup]: stop the player that the
    handle names, if it is still running. *)
Definition stop_player : M unit :=
  h <~ get mpv_process ;;
  match h with
  | Some pid =>
      running <~ poll_is_None pid ;;
      if running : bool then
        terminate pid ;;;
        try_catch (wait pid 2) [TimeoutExpired_] (kill pid)
      else ret tt
  | None => ret tt
  end.

(** Then remove the socket file if it is there. *)
Definition remove_socket : M unit :=
  ex <~ socket_exists ;;
  if ex : bool then unlink else ret tt.

(** The rest of [play_song]: spawn the player for the current track and
    let it settle. *)
Definition spawn_player : M unit :=
  sgs <~ get songs ;;
  idx <~ get current_song_index ;;
  song_path <~ lift (py_index sgs idx) ;;
  hm <~ get (fun s => home (env s)) ;;
  isf <~ get (fun s => is_file (env s)) ;;
  let mpris_candidates :=
    [hm ++ "/.config/mpv/scripts/mpris.so";
     "/usr/share/mpv/scripts/mpris.so";
     "/usr/local/share/mpv/scripts/mpris.so"] in
  let mpris_arg := match find isf mpris_candidates with
                   | Some p => ["--script"; p]
                   | None => []
                   end in
  let ipc_server := "--input-ipc-server=" ++ MPV_SOCKET in
  let command :=
    (["mpv"; "--no-video"; "--quiet"; "--input-terminal=no"; ipc_server]
       ++ mpris_arg ++ [path_str song_path])%list in
  pid <~ popen command ;;
  modify (set_mpv_process (Some pid)) ;;;
  sleep 1 ;;;
  modify (set_needs_full_redraw true).

(** The rest of [cleanup]: restore the terminal and exit with status 0. *)
Definition restore_and_exit : M unit :=
  show_cursor ;;;
  emit ClearScreen ;;;
  emit (PrintLine "Goodbye!") ;;;
  old <~ get old_termios_settings ;;
  isatty <~ get (fun s => stdin_isatty (env s)) ;;
  match old with
  | Some settings => if isatty : bool then emit (Tcsetattr settings) else ret tt
  | None => ret tt
  end ;;;
  raise (SystemExit 0).

(** [MPV_SOCKET.exists()] as a function of the state. *)
Definition has_socket (s : state) : bool :=
  match endpoint s with
  | Some _ => true
  | None => false
  end.

(** No managed process is alive. *)
Definition all_dead (s : state) : Prop := forall q, alive s q = false.

(** What stays as it is under the elementary changes other than a spawn:
    the handle, the environment, the size of the process table and the
    plan of every process; and no process comes to life. *)
Definition quiet (s s' : state) : Prop :=
  mpv_process s' = mpv_process s /\
  env s' = env s /\
  List.length (procs s') = List.length (procs s) /\
  (forall q, alive s' q = true -> alive s q = true).

(** Track list and index are the same. *)
Definition same_tracks (s s' : state) : Prop :=
  songs s' = songs s /\ current_song_index s' = current_song_index s.

(** The process that [play_song] adds to the table. *)
Definition new_proc (s : state) : proc :=
  mkproc true false true (spawn_plan (env s) (List.length (procs s))).

(** The first half of a round of the main loop: the full redraw if one is
    pending, and the status update if it is due; the result is
    [last_progress_update]. *)
Definition refresh (inp : tick_input) (last_progress_update : Q) : M Q :=
  let current_time := ti_now inp in
  redraw <~ get needs_full_redraw ;;
  last_progress_update <~
    (if redraw : bool then
       draw_full_interface ;;;
       modify (set_needs_full_redraw false) ;;;
       ret 0%Q
     else ret last_progress_update) ;;
  (if Qle_bool 1 (current_time - last_progress_update) then
     percent <~ get_mpv_property "percent-pos" ;;
     pos <~ get_mpv_property "time-pos" ;;
     dur <~ get_mpv_property "duration" ;;
     update_progress_display percent pos dur ;;;
     ret current_time
   else ret last_progress_update).

(** The second half: the test of the player process, and either the
    advance with a restart or the key and the pause. *)
Definition poll_and_act (inp : tick_input) (last_progress_update : Q) : M Q :=
  h <~ get mpv_process ;;
  exited <~ match h with
            | Some pid => running <~ poll_is_None pid ;; ret (negb running)
            | None => ret false
            end ;;
  if exited : bool then
    advance ;;;
    play_song ;;;
    ret last_progress_update
  else
    match ti_key inp with
    | Some (String c r) => on_key (String c r)
    | _ => ret tt
    end ;;;
    sleep (1 # 10) ;;;
    ret last_progress_update.

(** The state in which [play_song] returns when it started from a state
    with the old player stopped and the socket file removed. *)
Definition spawned (s : state) (song : path) : state :=
  set_needs_full_redraw true
    (settle
       (set_trace ((trace s ++ [Popen (mpv_command s song)]) ++ [Sleep 1])%list
          (set_mpv_process (Some (List.length (procs s)))
             (set_procs (procs s ++ [new_proc s])%list s)))).

End Logic.

(* ===================================================================== *)
(** * Further vocabulary: what a computation writes, order, trimming       *)
(* ===================================================================== *)

Module Behaviour.
Import Py Render Player Spec Logic.

(** ** What a computation adds to the trace *)

(** However the computation ends, every action it has added satisfies
    [P]. *)
Definition emits {A} (P : action -> Prop) (m : M A) : Prop :=
  forall s, exists t,
      trace (final_state (m s)) = (trace s ++ t)%list /\ Forall P t.

(** However the computation ends, the observation [f] of the state is as
    before. *)
Definition keeps {A B} (f : state -> B) (m : M A) : Prop :=
  forall s, f (final_state (m s)) = f s.

(** However the computation ends, it has changed nothing but the trace,
    and every action it has added satisfies [P]. *)
Definition only_writes {A} (P : action -> Prop) (m : M A) : Prop :=
  forall s, exists t,
      final_state (m s) = set_trace (trace s ++ t) s /\ Forall P t.

(** No condition: the trace only grows. *)
Definition anything (a : action) : Prop := True.

(** Output to the terminal, and pauses. *)
Definition on_screen (a : action) : Prop :=
  match a with
  | StdoutWrite _ | PrintLine _ | ClearScreen | Sleep _ => True
  | _ => False
  end.

(** Nothing but the given command on the channel. *)
Definition only_sends (command : pyval) (a : action) : Prop :=
  match a with
  | SockSend c => c = command
  | _ => False
  end.

(** The picker is only ever offered this list. *)
Definition offers (folders : list string) (a : action) : Prop :=
  match a with
  | RunFzf input_list _ => input_list = folders
  | _ => True
  end.

(** The lines printed, in order. *)
Fixpoint printed (t : list action) : list string :=
  match t with
  | [] => []
  | PrintLine text :: t' => text :: printed t'
  | _ :: t' => printed t'
  end.

(** The command that a pause or seek key forwards. *)
Definition key_command (key : string) : pyval :=
  if key_in key ["p"; "P"; " "] then
    VDict [("command", VList [VStr "cycle"; VStr "pause"])]
  else if key_in key ["b"; "B"] then
    VDict [("command", VList [VStr "seek"; VInt (-5); VStr "relative"])]
  else
    VDict [("command", VList [VStr "seek"; VInt 5; VStr "relative"])].

(** The request [get_mpv_property] sends for a property. *)
Definition property_query (prop : string) : pyval :=
  VDict [("command", VList [VStr "get_property"; VStr prop])].

(** The value of a field of a response object, none when it is absent. *)
Definition field (d : list (string * pyval)) (key : string) : pyval :=
  match assoc key d with
  | Some x => x
  | None => VNone
  end.

(** What the end of [cleanup] does to the terminal. *)
Definition restore_trace (s : state) : list action :=
  [StdoutWrite (ESC ++ "[?25h"); ClearScreen; PrintLine "Goodbye!"]
    ++ match old_termios_settings s with
       | Some settings =>
           if stdin_isatty (env s) then [Tcsetattr settings] else []
       | None => []
       end.

(** The player that the handle names, if any, is running. *)
Definition player_running (s : state) : Prop :=
  match mpv_process s with
  | Some pid => alive s pid = true
  | None => True
  end.

(** A round of the main loop that gets as far as reading the key without
    doing anything: no signal, the player does not end, no redraw is
    pending, the last status update is less than a second ago and the
    player is running. *)
Definition calm (inp : tick_input) (last_progress_update : Q) (s : state)
  : Prop :=
  ti_signal inp = false /\
  ti_player_exits inp = false /\
  needs_full_redraw s = false /\
  Qle_bool 1 (ti_now inp - last_progress_update) = false /\
  player_running s.

(** ** The screen *)

(** Save the cursor and move it to the first column of a row; rows count
    from 1 at the top of the screen. *)
Definition cursor_to (row : Z) : string :=
  ESC ++ "[s" ++ ESC ++ "[" ++ str_int row ++ ";1H".

(** The row [update_progress_display] writes to, and the row
    [show_feedback] writes to. *)
Definition status_row (s : state) : Z := 5 + len_songs s + 5.
Definition flash_row (s : state) : Z := 5 + len_songs s + 4.

(** The line of the interface on a row, when the lines printed after the
    screen was cleared are [lines]. *)
Definition on_row (lines : list string) (row : Z) : option string :=
  if row <=? 0 then None else nth_error lines (Z.to_nat (row - 1)).

(** The row of a track in the list. *)
Definition track_line (current i : Z) (song : path) : string :=
  if i =? current
  then " " ++ ESC ++ "[1;32m▶ " ++ path_name song ++ ESC ++ "[0m"
  else "  " ++ path_name song.

Definition bottom_border : string :=
  ESC ++ "[1;35m╚═══════════════════════════════════════════════════╝" ++ ESC ++ "[0m".

Definition last_legend_line : string :=
  "  [" ++ ESC ++ "[1ms" ++ ESC ++ "[0m] choose song    [" ++ ESC ++ "[1mc" ++ ESC ++ "[0m] change folder    [" ++ ESC ++ "[1mq" ++ ESC ++ "[0m] quit".

(** ** Order *)

(** Strictly ascending in the order of paths. *)
Fixpoint ascending (l : list path) : Prop :=
  match l with
  | [] => True
  | a :: r => (forall b, In b r -> path_ltb a b = true) /\ ascending r
  end.

(** Ascending in the order of strings, equal neighbours allowed. *)
Fixpoint str_ascending (l : list string) : Prop :=
  match l with
  | [] => True
  | a :: r => (forall b, In b r -> String.leb a b = true) /\ str_ascending r
  end.

(** The folders [select_folder] works with. *)
Definition visible_folders (e : environment) : list string :=
  sorted_str
    (map fst
       (filter (fun d => snd d && negb (startswith (fst d) "."))
               (dir_entries e))).

(** The file names that [get_songs] collects in a folder. *)
Definition found_in (e : environment) (folder : string) : list string :=
  flat_map
    (fun ext =>
       List.app (glob e folder ("*" ++ ext))
                (glob e folder ("*" ++ str_upper ext)))
    SUPPORTED_EXTENSIONS.

(** ** White space *)

(** Neither the first nor the last character is white space. *)
Definition trimmed (s : string) : Prop :=
  match list_ascii_of_string s with
  | [] => True
  | c :: r => is_space c = false /\ is_space (last r c) = false
  end.

(** ** Repetition *)

(** [k] times in a row. *)
Fixpoint times (k : nat) (m : M unit) : M unit :=
  match k with
  | O => ret tt
  | S j => m ;;; times j m
  end.

(** ** The script as a whole *)

(** The block under [if __name__ == "__main__"]: the three tools are
    looked up with [which], in this order, before [main] is called;
    [which cmd] tells whether the lookup of [cmd] returned 0. *)
Fixpoint check_tools (which : string -> bool) (cmds : list string) : M unit :=
  match cmds with
  | [] => ret tt
  | cmd :: cmds' =>
      if negb (which cmd) then
        emit (PrintLine ("Error: Required command '" ++ cmd
                           ++ "' not found in PATH.")) ;;;
        raise (SystemExit 1)
      else check_tools which cmds'
  end.

Definition script (which : string -> bool) (ticks : list tick_input)
  : M unit :=
  check_tools which ["mpv"; "fzf"; "ffprobe"] ;;;
  main ticks.

(** ** Example states *)

(** Track [a.mp3] is playing and the picker is about to answer
    [stdout] with return code [returncode]. *)
Definition picking (returncode : Z) (stdout : string) : state :=
  set_fzf_queue [FzfDone returncode stdout] (Examples.playing Examples.answering 0).

(** The environment of the examples with other directory entries. *)
Definition env_with_entries (entries : list (string * bool)) : environment :=
  let e := Examples.example_env Examples.answering in
  mkenv (json_loads e) (spawn_plan e) (chan_plan e) entries (glob e)
        (is_file e) (home e) (get_song_info e) (rng e) (stdin_isatty e)
        (tty_settings e).

(** The module has just been loaded in a directory with these entries;
    the picker and the prompt will answer as given. *)
Definition started_in (entries : list (string * bool))
    (fzf : list fzf_outcome) (answers : list string) : state :=
  initial (env_with_entries entries) fzf answers None EmptyString EmptyString.

(** The module has just been loaded and standard input is not a
    terminal. *)
Definition piped_start : state :=
  let e := Examples.example_env Examples.answering in
  initial
    (mkenv (json_loads e) (spawn_plan e) (chan_plan e) (dir_entries e)
           (glob e) (is_file e) (home e) (get_song_info e) (rng e) false
           (tty_settings e))
    [] [] None EmptyString EmptyString.

(** A directory with the one folder [Abba], which the picker returns. *)
Definition abba_start : state :=
  started_in [("Abba", true)]
             [FzfDone 0 ("Abba" ++ String "010"%char EmptyString)] [].

(** Track [a.mp3] is playing and [fzf] is not installed. *)
Definition picker_missing : state :=
  set_fzf_queue [FzfAbsent] (Examples.playing Examples.answering 0).

(** Track [a.mp3] is playing and the picker is about to return the
    folder [X]. *)
Definition picked_folder : state :=
  picking 0 ("X" ++ String "010"%char EmptyString).

(** The picker answers with the second track, a blank before the name
    and a line feed after it. *)
Definition picked_b : state :=
  picking 0 (" b.mp3" ++ String "010"%char EmptyString).

End Behaviour.

(* ===================================================================== *)
(** * Properties of the status line                                        *)
(* ===================================================================== *)

Module RenderFacts.
Import Py Render Player Spec Examples.

(** ** The bar *)

Lemma cells_table :
  forallb (fun n => match cells (Z.of_nat n) with
                    | Val c => c =? Z.of_nat n / 2
                    | Err _ => false
                    end) (seq 0 101) = true.
Proof. vm_compute. reflexivity. Qed.

Lemma cells_percent (p : Z) : 0 <= p <= 100 -> cells p = Val (p / 2).
Proof.
  intros Hp.
  pose proof cells_table as T.
  rewrite forallb_forall in T.
  specialize (T (Z.to_nat p)).
  rewrite Z2Nat.id in T by lia.
  assert (In (Z.to_nat p) (seq 0 101)) as Hin by (apply in_seq; lia).
  specialize (T Hin).
  destruct (cells p) as [c|e]; [|discriminate].
  apply Z.eqb_eq in T. now subst.
Qed.

Lemma py_or_float (q : Q) :
  py_float (py_or (VFloat (Fin q)) (VInt 0)) =
  Val (Fin (if Qnum q =? 0 then Qmake 0 1 else q)).
Proof.
  unfold py_or; simpl.
  destruct (Qnum q =? 0); reflexivity.
Qed.

Lemma shown_float (q : Q) :
  (f <- py_float (py_or (VFloat (Fin q)) (VInt 0)) ;; Val (float_gt0 f))
  = Val (0 <? Qnum q).
Proof.
  rewrite py_or_float; simpl.
  destruct (Qnum q =? 0) eqn:E; simpl; [|reflexivity].
  apply Z.eqb_eq in E. rewrite E. reflexivity.
Qed.

Lemma trunc_range (q : Q) : (0 < q)%Q -> (q <= 100)%Q -> 0 <= trunc q <= 100.
Proof.
  unfold Qlt, Qle, trunc; simpl. intros H0 H1.
  rewrite Z.mul_1_r in H0.
  split.
  - apply Z.quot_pos; lia.
  - apply Z.quot_le_upper_bound; lia.
Qed.

Lemma draw_progress_bar_percent (q : Q) :
  (0 < q)%Q -> (q <= 100)%Q ->
  draw_progress_bar (VFloat (Fin q)) = Val (bar_string (trunc q)).
Proof.
  intros H0 H1.
  pose proof (trunc_range q H0 H1) as Hr.
  unfold draw_progress_bar.
  rewrite py_or_float.
  assert ((Qnum q =? 0) = false) as ->.
  { apply Z.eqb_neq. unfold Qlt in H0; simpl in H0. lia. }
  cbn [rbind int_of_float]. fold (trunc q).
  pose proof (cells_percent (trunc q) Hr) as Hc. unfold cells in Hc.
  destruct (int_truediv (50 * trunc q) 100) as [f|e];
    cbn [rbind] in *; [|discriminate].
  rewrite Hc. reflexivity.
Qed.



(** A bar never looks like the loading text: it opens with a bracket. *)
Lemma draw_progress_bar_bracket (v : pyval) (s : string) :
  draw_progress_bar v = Val s -> exists r, s = String "["%char r.
Proof.
  unfold draw_progress_bar.
  destruct (py_float _) as [f|]; cbn [rbind]; [|discriminate].
  destruct (int_of_float f) as [p|]; cbn [rbind]; [|discriminate].
  destruct (int_truediv _ _) as [g|]; cbn [rbind]; [|discriminate].
  destruct (int_of_float g) as [c|]; cbn [rbind]; [|discriminate].
  intros [= <-]. eexists. reflexivity.
Qed.

Lemma bar_line_not_loading (v pos dur : pyval) :
  (progress_bar <- draw_progress_bar v ;;
   current_formatted <- format_time_str pos ;;
   total_formatted <- format_time_str dur ;;
   Val (progress_bar ++ " " ++ ESC ++ "[1;37m" ++ current_formatted ++ " / "
          ++ total_formatted ++ ESC ++ "[0m"))
  <> Val loading_line.
Proof.
  destruct (draw_progress_bar v) as [s|] eqn:E; cbn [rbind]; [|discriminate].
  destruct (draw_progress_bar_bracket _ _ E) as [r ->].
  destruct (format_time_str pos); cbn [rbind]; [|discriminate].
  destruct (format_time_str dur); cbn [rbind]; [|discriminate].
  discriminate.
Qed.

(** ** The time formatter *)

Lemma format_time_none : format_time_str VNone = Val "00:00".
Proof. reflexivity. Qed.

Lemma format_time_unparseable (v : pyval) :
  unparseable v -> format_time_str v = Val "00:00".
Proof.
  intros [H|H]; destruct v; try reflexivity;
    unfold format_time_str; rewrite H; reflexivity.
Qed.

Lemma format_time_finite (v : pyval) (q : Q) :
  py_float v = Val (Fin q) -> format_time_str v = Val (mmss (trunc q)).
Proof.
  intros H. destruct v; try discriminate;
    unfold format_time_str; rewrite H; reflexivity.
Qed.

Lemma format_time_total (v : pyval) :
  time_value v -> exists t, format_time_str v = Val t.
Proof.
  intros [->|[[q H]|H]].
  - eexists; apply format_time_none.
  - eexists; apply (format_time_finite _ _ H).
  - eexists; apply (format_time_unparseable _ H).
Qed.

(** ** The line *)

Lemma status_line_none (pos dur : pyval) :
  status_line VNone pos dur = Val loading_line.
Proof. reflexivity. Qed.

Lemma status_line_float (q : Q) (pos dur : pyval) :
  status_line (VFloat (Fin q)) pos dur =
  if 0 <? Qnum q then
    progress_bar <- draw_progress_bar (VFloat (Fin q)) ;;
    current_formatted <- format_time_str pos ;;
    total_formatted <- format_time_str dur ;;
    Val (progress_bar ++ " " ++ ESC ++ "[1;37m" ++ current_formatted ++ " / "
           ++ total_formatted ++ ESC ++ "[0m")
  else Val loading_line.
Proof.
  unfold status_line. rewrite shown_float. reflexivity.
Qed.

Lemma status_line_loading_iff (q : Q) (pos dur : pyval) :
  status_line (VFloat (Fin q)) pos dur = Val loading_line <-> (q <= 0)%Q.
Proof.
  rewrite status_line_float.
  unfold Qle; simpl. rewrite Z.mul_1_r.
  destruct (0 <? Qnum q) eqn:E.
  - apply Z.ltb_lt in E. split.
    + intros H. exfalso. exact (bar_line_not_loading _ _ _ H).
    + lia.
  - apply Z.ltb_ge in E. split; auto.
Qed.


(** ** Every value [float()] accepts *)

Lemma float_of_string_empty : float_of_string EmptyString = None.
Proof. vm_compute. reflexivity. Qed.

(** [float()] drops blanks and line ends around a number, but not the
    separator characters that [str.strip] drops. *)
Lemma float_white_space :
  py_float (VStr (" 7" ++ String "010"%char EmptyString)) = Val (Fin 7) /\
  py_float (VStr (String "028"%char "7")) = Err (Exc ValueError_) /\
  strip (String "028"%char "7") = "7".
Proof. repeat split; vm_compute; reflexivity. Qed.

(** A value that [float()] maps to a positive number is true. *)
Lemma finite_positive_truthy (v : pyval) (q : Q) :
  py_float v = Val (Fin q) -> (0 < q)%Q -> py_or v (VInt 0) = v.
Proof.
  intros H H0. unfold py_or.
  assert (Hq : 0 < Qnum q) by (unfold Qlt in H0; simpl in H0; lia).
  destruct v as [|b|n|f|t|l|d]; try discriminate H.
  - destruct b; [reflexivity|]. injection H as <-. simpl in Hq. lia.
  - cbn [truthy]. destruct (n =? 0) eqn:E; [|reflexivity].
    apply Z.eqb_eq in E. subst n. vm_compute in H. injection H as <-.
    simpl in Hq. lia.
  - injection H as ->. cbn [truthy].
    destruct (Qnum q =? 0) eqn:E; [|reflexivity].
    apply Z.eqb_eq in E. lia.
  - cbn [truthy]. destruct (String.eqb t EmptyString) eqn:E; [|reflexivity].
    apply String.eqb_eq in E. subst t. cbn [py_float] in H.
    rewrite float_of_string_empty in H. discriminate.
Qed.

(** A false value that [float()] accepts is zero. *)
Lemma finite_falsy (v : pyval) (q : Q) :
  py_float v = Val (Fin q) -> truthy v = false -> Qnum q = 0.
Proof.
  intros H Ht.
  destruct v as [|b|n|f|t|l|d]; try discriminate H.
  - destruct b; [discriminate Ht|]. injection H as <-. reflexivity.
  - cbn [truthy] in Ht. destruct (n =? 0) eqn:E; [|discriminate].
    apply Z.eqb_eq in E. subst n. vm_compute in H. injection H as <-.
    reflexivity.
  - injection H as ->. cbn [truthy] in Ht.
    destruct (Qnum q =? 0) eqn:E; [|discriminate].
    apply Z.eqb_eq in E. exact E.
  - cbn [truthy] in Ht.
    destruct (String.eqb t EmptyString) eqn:E; [|discriminate].
    apply String.eqb_eq in E. subst t. cbn [py_float] in H.
    rewrite float_of_string_empty in H. discriminate.
Qed.

Lemma shown_finite (v : pyval) (q : Q) :
  py_float v = Val (Fin q) ->
  (f <- py_float (py_or v (VInt 0)) ;; Val (float_gt0 f))
  = Val (0 <? Qnum q).
Proof.
  intros H. unfold py_or. destruct (truthy v) eqn:Ht.
  - rewrite H. reflexivity.
  - rewrite (finite_falsy v q H Ht). reflexivity.
Qed.

Lemma status_line_finite (v : pyval) (q : Q) (pos dur : pyval) :
  py_float v = Val (Fin q) ->
  status_line v pos dur =
  if 0 <? Qnum q then
    progress_bar <- draw_progress_bar v ;;
    current_formatted <- format_time_str pos ;;
    total_formatted <- format_time_str dur ;;
    Val (progress_bar ++ " " ++ ESC ++ "[1;37m" ++ current_formatted ++ " / "
           ++ total_formatted ++ ESC ++ "[0m")
  else Val loading_line.
Proof.
  intros H. unfold status_line.
  destruct v; try discriminate H; rewrite (shown_finite _ q H); reflexivity.
Qed.

Lemma status_line_loading_iff_finite (v : pyval) (q : Q) (pos dur : pyval) :
  py_float v = Val (Fin q) ->
  (status_line v pos dur = Val loading_line <-> (q <= 0)%Q).
Proof.
  intros H. rewrite (status_line_finite v q pos dur H).
  unfold Qle; simpl. rewrite Z.mul_1_r.
  destruct (0 <? Qnum q) eqn:E.
  - apply Z.ltb_lt in E. split.
    + intros F. exfalso. exact (bar_line_not_loading _ _ _ F).
    + lia.
  - apply Z.ltb_ge in E. split; auto.
Qed.

Lemma draw_progress_bar_finite (v : pyval) (q : Q) :
  py_float v = Val (Fin q) -> (0 < q)%Q -> (q <= 100)%Q ->
  draw_progress_bar v = Val (bar_string (trunc q)).
Proof.
  intros H H0 H1.
  pose proof (trunc_range q H0 H1) as Hr.
  unfold draw_progress_bar.
  rewrite (finite_positive_truthy v q H H0), H.
  cbn [rbind int_of_float]. fold (trunc q).
  pose proof (cells_percent (trunc q) Hr) as Hc. unfold cells in Hc.
  destruct (int_truediv (50 * trunc q) 100) as [f|e];
    cbn [rbind] in *; [|discriminate].
  rewrite Hc. reflexivity.
Qed.

Lemma status_line_bar (percent : pyval) (q : Q) (pos dur : pyval)
    (t1 t2 : string) :
  py_float percent = Val (Fin q) -> (0 < q)%Q -> (q <= 100)%Q ->
  format_time_str pos = Val t1 -> format_time_str dur = Val t2 ->
  status_line percent pos dur
  = Val (bar_string (trunc q) ++ " " ++ ESC ++ "[1;37m" ++ t1 ++ " / " ++ t2
           ++ ESC ++ "[0m").
Proof.
  intros H H0 H1 E1 E2.
  rewrite (status_line_finite percent q pos dur H).
  assert ((0 <? Qnum q) = true) as ->.
  { apply Z.ltb_lt. unfold Qlt in H0; simpl in H0. lia. }
  rewrite (draw_progress_bar_finite percent q H H0 H1), E1, E2.
  reflexivity.
Qed.

(** ** The claims about the status line *)

(** C7, as amended.  The status line is the loading text when the percent
    position is none; for every percent that [float()] maps to a finite
    number (a float, an int, a bool, a numeric string) it is the loading
    text exactly when that number is not greater than zero, so also at 0.0
    with the status available; not-a-number and minus infinity give the
    loading text too, and plus infinity raises [OverflowError].  For a
    percent above zero and up to a hundred the line is the fifty-cell bar,
    one filled cell per two whole percent, followed by elapsed and total
    time, each as minutes:seconds when it is a finite number and as
    [00:00] when it is none or rejected by [float()].  Beyond a hundred
    the bar is no longer fifty cells wide: 150 percent gives 75 filled
    cells and no empty one.  Percent 45.0, position 90 and duration 200
    give 22 filled cells, [45%] and [01:30 / 03:20]. *)
Theorem status_line_rule :
  (forall pos dur, status_line VNone pos dur = Val loading_line) /\
  (forall q pos dur,
      status_line (VFloat (Fin q)) pos dur = Val loading_line <-> (q <= 0)%Q) /\
  (forall q t d, (0 < q)%Q -> (q <= 100)%Q ->
      status_line (VFloat (Fin q)) (VFloat (Fin t)) (VFloat (Fin d)) =
      Val (bar_string (trunc q) ++ " " ++ ESC ++ "[1;37m" ++ mmss (trunc t)
             ++ " / " ++ mmss (trunc d) ++ ESC ++ "[0m")) /\
  status_line (VFloat (Fin 45)) (VInt 90) (VInt 200) = Val scenario_line /\
  status_line (VFloat (Fin 45)) (VFloat (Fin 90)) (VFloat (Fin 200))
  = Val scenario_line /\
  (forall percent q pos dur,
      py_float percent = Val (Fin q) ->
      (status_line percent pos dur = Val loading_line <-> (q <= 0)%Q)) /\
  (forall pos dur,
      status_line (VFloat NaN) pos dur = Val loading_line /\
      status_line (VFloat NInf) pos dur = Val loading_line /\
      status_line (VFloat PInf) pos dur = Err (Exc OverflowError_)) /\
  (forall percent q pos dur t d,
      py_float percent = Val (Fin q) -> (0 < q)%Q -> (q <= 100)%Q ->
      py_float pos = Val (Fin t) -> py_float dur = Val (Fin d) ->
      status_line percent pos dur =
      Val (bar_string (trunc q) ++ " " ++ ESC ++ "[1;37m" ++ mmss (trunc t)
             ++ " / " ++ mmss (trunc d) ++ ESC ++ "[0m")) /\
  (forall percent q pos dur,
      py_float percent = Val (Fin q) -> (0 < q)%Q -> (q <= 100)%Q ->
      time_value pos -> time_value dur ->
      exists t1 t2,
        format_time_str pos = Val t1 /\ format_time_str dur = Val t2 /\
        (pos = VNone \/ unparseable pos -> t1 = "00:00") /\
        (dur = VNone \/ unparseable dur -> t2 = "00:00") /\
        status_line percent pos dur =
        Val (bar_string (trunc q) ++ " " ++ ESC ++ "[1;37m" ++ t1 ++ " / "
               ++ t2 ++ ESC ++ "[0m")) /\
  draw_progress_bar (VFloat (Fin 150))
  = Val ("[" ++ ESC ++ "[1;36m" ++ str_mul "█" 75 ++ ESC ++ "[0m] 150%").
Proof.
  split; [exact status_line_none|].
  split; [exact status_line_loading_iff|].
  split.
  { intros q t d H0 H1.
    rewrite status_line_float.
    assert ((0 <? Qnum q) = true) as ->.
    { apply Z.ltb_lt. unfold Qlt in H0; simpl in H0. lia. }
    rewrite draw_progress_bar_percent by assumption.
    reflexivity. }
  split; [vm_compute; reflexivity|].
  split; [vm_compute; reflexivity|].
  split; [exact status_line_loading_iff_finite|].
  split; [intros pos dur; repeat split; reflexivity|].
  split.
  { intros percent q pos dur t d H H0 H1 Ht Hd.
    apply (status_line_bar percent q pos dur _ _ H H0 H1).
    - exact (format_time_finite pos t Ht).
    - exact (format_time_finite dur d Hd). }
  split; [|vm_compute; reflexivity].
  intros percent q pos dur H H0 H1 Hpos Hdur.
  destruct (format_time_total _ Hpos) as [t1 E1].
  destruct (format_time_total _ Hdur) as [t2 E2].
  exists t1, t2. split; [exact E1|]. split; [exact E2|].
  split; [|split].
  - intros [->|Hu].
    + rewrite format_time_none in E1. injection E1 as <-. reflexivity.
    + rewrite (format_time_unparseable _ Hu) in E1. injection E1 as <-.
      reflexivity.
  - intros [->|Hu].
    + rewrite format_time_none in E2. injection E2 as <-. reflexivity.
    + rewrite (format_time_unparseable _ Hu) in E2. injection E2 as <-.
      reflexivity.
  - exact (status_line_bar percent q pos dur t1 t2 H H0 H1 E1 E2).
Qed.

Lemma status_line_rule_witness :
  py_float (VInt 45) = Val (Fin 45) /\
  (0 < 45)%Q /\ (45 <= 100)%Q /\
  py_float (VInt 90) = Val (Fin 90) /\
  py_float (VStr "200.0") = Val (Fin 200) /\
  status_line (VInt 45) (VInt 90) (VStr "200.0") =
  Val (bar_string (trunc 45) ++ " " ++ ESC ++ "[1;37m" ++ mmss (trunc 90)
         ++ " / " ++ mmss (trunc 200) ++ ESC ++ "[0m") /\
  status_line (VFloat (Fin 45)) (VFloat (Fin 90)) (VFloat (Fin 200)) =
  Val (bar_string (trunc 45) ++ " " ++ ESC ++ "[1;37m" ++ mmss (trunc 90)
         ++ " / " ++ mmss (trunc 200) ++ ESC ++ "[0m").
Proof.
  assert (Hp : py_float (VInt 45) = Val (Fin 45)) by (vm_compute; reflexivity).
  assert (H0 : (0 < 45)%Q) by reflexivity.
  assert (H1 : (45 <= 100)%Q) by (unfold Qle; simpl; lia).
  assert (Ht : py_float (VInt 90) = Val (Fin 90)) by (vm_compute; reflexivity).
  assert (Hd : py_float (VStr "200.0") = Val (Fin 200))
    by (vm_compute; reflexivity).
  destruct status_line_rule as (_ & _ & R3 & _ & _ & _ & _ & R8 & _).
  split; [exact Hp|]. split; [exact H0|]. split; [exact H1|].
  split; [exact Ht|]. split; [exact Hd|].
  split.
  - exact (R8 (VInt 45) 45%Q (VInt 90) (VStr "200.0") 90%Q 200%Q
              Hp H0 H1 Ht Hd).
  - exact (R3 45%Q 90%Q 200%Q H0 H1).
Defined.

(** C7, counterexample to the claim as stated: at the start of a track the
    status is available (0.0 percent, 0.0 of 200.0 seconds, none of the
    three values is none), and the line is the loading text all the same. *)
Lemma loading_shown_with_status_available :
  VFloat (Fin 0) <> VNone /\ VFloat (Fin 200) <> VNone /\
  status_line (VFloat (Fin 0)) (VFloat (Fin 0)) (VFloat (Fin 200))
  = Val loading_line.
Proof.
  split; [discriminate|]. split; [discriminate|]. reflexivity.
Qed.




End RenderFacts.
(* ===================================================================== *)
(** * Properties of the player                                             *)
(* ===================================================================== *)

Module PlayerFacts.
Import Py Render Player Spec Examples Logic.

(** ** The process table *)

Lemma nth_error_list_update {A} (l : list A) (i j : nat) (f : A -> A) :
  nth_error (list_update l i f) j =
  if Nat.eqb j i then option_map f (nth_error l j) else nth_error l j.
Proof.
  revert i j. induction l as [|x l IH]; intros i j.
  - destruct j, i; simpl; try reflexivity;
      destruct (Nat.eqb j i); reflexivity.
  - destruct i, j; simpl; try reflexivity. apply IH.
Qed.

Lemma length_list_update {A} (l : list A) (i : nat) (f : A -> A) :
  List.length (list_update l i f) = List.length l.
Proof.
  revert i. induction l as [|x l IH]; intros [|i]; simpl; auto.
Qed.

Lemma proc_at_update (pid q : nat) (f : proc -> proc) (s : state) :
  proc_at (update_proc pid f s) q =
  if Nat.eqb q pid then option_map f (proc_at s q) else proc_at s q.
Proof. unfold proc_at, update_proc. simpl. apply nth_error_list_update. Qed.

Lemma alive_update (pid q : nat) (f : proc -> proc) (s : state) :
  alive (update_proc pid f s) q =
  if Nat.eqb q pid
  then match proc_at s q with Some p => p_alive (f p) | None => false end
  else alive s q.
Proof.
  unfold alive. rewrite proc_at_update.
  destruct (Nat.eqb q pid); [destruct (proc_at s q)|]; reflexivity.
Qed.

Lemma alive_set_endpoint (e : option owner) (s : state) (q : nat) :
  alive (set_endpoint e s) q = alive s q.
Proof. reflexivity. Qed.

Lemma alive_exit_proc (pid q : nat) (s : state) :
  alive (exit_proc pid s) q = if Nat.eqb q pid then false else alive s q.
Proof.
  unfold exit_proc.
  match goal with |- context [if ?c then _ else _] => destruct c end;
    rewrite ?alive_set_endpoint, alive_update;
    destruct (Nat.eqb q pid); try reflexivity;
    destruct (proc_at s q); reflexivity.
Qed.

Lemma alive_exit_proc_same (pid : nat) (s : state) :
  alive (exit_proc pid s) pid = false.
Proof. rewrite alive_exit_proc, Nat.eqb_refl. reflexivity. Qed.

Lemma alive_settle (s : state) (q : nat) :
  alive (settle s) q = true -> alive s q = true.
Proof.
  unfold settle.
  set (pid := Nat.pred (List.length (procs s))).
  destruct (proc_at s pid) as [p|] eqn:E; auto.
  destruct (p_fresh p); auto.
  set (s1 := update_proc pid _ s).
  assert (U : forall x, alive s1 x = alive s x).
  { intros x. unfold s1. rewrite alive_update. unfold alive.
    destruct (Nat.eqb x pid); [destruct (proc_at s x)|]; reflexivity. }
  destruct (p_alive p); [|rewrite U; auto].
  destruct (sb_binds (p_plan p)), (sb_exits_early (p_plan p));
    rewrite ?alive_exit_proc, ?alive_set_endpoint;
    destruct (Nat.eqb q pid); rewrite ?U; auto; discriminate.
Qed.

Lemma alive_player_exits (s : state) (q : nat) :
  alive (player_exits s) q = true -> alive s q = true.
Proof.
  unfold player_exits.
  destruct (mpv_process s) as [pid|]; auto.
  destruct (alive s pid); auto.
  rewrite alive_exit_proc. destruct (Nat.eqb q pid); auto; discriminate.
Qed.


(** ** Footprints *)

Lemma reach_trans (step : state -> state -> Prop) (a b c : state) :
reach step a b -> reach step b c -> reach step a c.
Proof.
intros Hab Hbc. induction Hbc as [|x y z Hxy IH Hyz]; [assumption|].
eapply reach_next; [apply IH; assumption|exact Hyz].
Qed.

Lemma reach_once (step : state -> state -> Prop) (a b : state) :
step a b -> reach step a b.
Proof. intros H. eapply reach_next; [apply reach_refl|exact H]. Qed.

Section Footprint.
Variables spawn_ok session_ok : bool.

Lemma fp_ret {A} (a : A) : footprint spawn_ok session_ok (ret a).
Proof. intros s. apply reach_refl. Qed.

Lemma fp_raise {A} (e : exn) : footprint spawn_ok session_ok (@raise A e).
Proof. intros s. apply reach_refl. Qed.

Lemma fp_pending {A} :
  footprint spawn_ok session_ok (fun s => @Pending A s).
Proof. intros s. apply reach_refl. Qed.

Lemma fp_get {A} (f : state -> A) : footprint spawn_ok session_ok (get f).
Proof. intros s. apply reach_refl. Qed.

Lemma fp_lift {A} (r : res A) : footprint spawn_ok session_ok (lift r).
Proof. destruct r; intros s; apply reach_refl. Qed.

Lemma fp_modify (f : state -> state) :
  (forall s, reach (prim spawn_ok session_ok) s (f s)) ->
  footprint spawn_ok session_ok (modify f).
Proof. intros H s. apply H. Qed.

Lemma fp_bind {A B} (m : M A) (k : A -> M B) :
  footprint spawn_ok session_ok m ->
  (forall a, footprint spawn_ok session_ok (k a)) ->
  footprint spawn_ok session_ok (bind m k).
Proof.
  intros Hm Hk s. unfold bind. specialize (Hm s).
  destruct (m s) as [a s'|e s'|s']; simpl in *; auto.
  eapply reach_trans; [exact Hm|apply Hk].
Qed.

Lemma fp_try_catch {A} (body handler : M A) (handlers : list exc_class) :
  footprint spawn_ok session_ok body ->
  footprint spawn_ok session_ok handler ->
  footprint spawn_ok session_ok (try_catch body handlers handler).
Proof.
  intros Hb Hh s. unfold try_catch. specialize (Hb s).
  destruct (body s) as [a s'|e s'|s']; simpl in *; auto.
  destruct (caught_by handlers e); auto.
  eapply reach_trans; [exact Hb|apply Hh].
Qed.

Lemma fp_try_finally {A} (body : M A) (final : M unit) :
  footprint spawn_ok session_ok body ->
  footprint spawn_ok session_ok final ->
  footprint spawn_ok session_ok (try_finally body final).
Proof.
  intros Hb Hf s. unfold try_finally. specialize (Hb s).
  destruct (body s) as [a s'|e s'|s']; simpl in *; auto;
    (eapply reach_trans; [exact Hb|]);
    apply fp_bind; auto; intros; first [apply fp_ret|apply fp_raise].
Qed.

Lemma reach_exit_proc (pid : nat) (s : state) :
  reach (prim spawn_ok session_ok) s (exit_proc pid s).
Proof.
  unfold exit_proc.
  assert (reach (prim spawn_ok session_ok) s (update_proc pid
            (fun p => mkproc false (p_sigterm p) (p_fresh p) (p_plan p)) s)).
  { apply reach_once. constructor. simpl. discriminate. }
  match goal with |- context [if ?c then _ else _] => destruct c end; auto.
  eapply reach_next; [eassumption|constructor].
Qed.

Lemma reach_settle (s : state) : reach (prim spawn_ok session_ok) s (settle s).
Proof.
  unfold settle.
  destruct (proc_at s _) as [p|]; [|apply reach_refl].
  destruct (p_fresh p); [|apply reach_refl].
  match goal with
  | |- context [update_proc ?pid ?f s] =>
      assert (reach (prim spawn_ok session_ok) s (update_proc pid f s)) as H
          by (apply reach_once; constructor; simpl; auto)
  end.
  destruct (p_alive p); auto.
  destruct (sb_binds (p_plan p)), (sb_exits_early (p_plan p)); auto;
    repeat first
      [ eassumption
      | eapply reach_trans; [|apply reach_exit_proc]
      | eapply reach_next; [|apply prim_endpoint] ].
Qed.

Lemma reach_player_exits (s : state) : reach (prim spawn_ok session_ok) s (player_exits s).
Proof.
  unfold player_exits.
  destruct (mpv_process s); [|apply reach_refl].
  destruct (alive s n); [apply reach_exit_proc|apply reach_refl].
Qed.

End Footprint.

Create HintDb fp.

(** Elementary steps, and the composite changes built from them. *)
Ltac fp_prim :=
  intros; cbv beta;
  first
    [ apply reach_refl
    | apply reach_exit_proc
    | apply reach_settle
    | apply reach_player_exits
    | apply reach_once; constructor;
      solve [ reflexivity | simpl; auto | simpl; intros; discriminate ] ].

Ltac fp_step :=
  first
    [ apply fp_ret | apply fp_raise | apply fp_get | apply fp_lift
    | apply fp_pending
    | solve [ auto 1 with fp nocore ]
    | apply fp_bind; [|intros ?]
    | apply fp_try_catch
    | apply fp_modify; solve [ fp_prim ]
    | match goal with
      | |- footprint _ _ (if ?b then _ else _) => destruct b
      | |- footprint _ _ (match ?x with _ => _ end) => destruct x
      | |- footprint _ _ (let '(_, _) := ?x in _) => destruct x
      end ].

Ltac fp_auto := repeat fp_step.

Lemma emit_fp (so se : bool) (a : action) : footprint so se (emit a).
Proof. unfold emit. fp_auto. Qed.
#[local] Hint Resolve emit_fp : fp.

Lemma poll_fp (so se : bool) (pid : nat) : footprint so se (poll_is_None pid).
Proof. unfold poll_is_None. fp_auto. Qed.
#[local] Hint Resolve poll_fp : fp.

Lemma terminate_fp (so se : bool) (pid : nat) : footprint so se (terminate pid).
Proof. unfold terminate. fp_auto. Qed.
#[local] Hint Resolve terminate_fp : fp.

Lemma wait_fp (so se : bool) (pid : nat) (t : Q) : footprint so se (wait pid t).
Proof. unfold wait. fp_auto. Qed.
#[local] Hint Resolve wait_fp : fp.

Lemma kill_fp (so se : bool) (pid : nat) : footprint so se (kill pid).
Proof. unfold kill. fp_auto. Qed.
#[local] Hint Resolve kill_fp : fp.

Lemma socket_exists_fp (so se : bool) : footprint so se socket_exists.
Proof. unfold socket_exists. fp_auto. Qed.
#[local] Hint Resolve socket_exists_fp : fp.

Lemma unlink_fp (so se : bool) : footprint so se unlink.
Proof. unfold unlink. fp_auto. Qed.
#[local] Hint Resolve unlink_fp : fp.

Lemma sleep_fp (so se : bool) (d : Q) : footprint so se (sleep d).
Proof. unfold sleep. fp_auto. Qed.
#[local] Hint Resolve sleep_fp : fp.

Lemma show_cursor_fp (so se : bool) : footprint so se show_cursor.
Proof. unfold show_cursor. fp_auto. Qed.
#[local] Hint Resolve show_cursor_fp : fp.

Lemma hide_cursor_fp (so se : bool) : footprint so se hide_cursor.
Proof. unfold hide_cursor. fp_auto. Qed.
#[local] Hint Resolve hide_cursor_fp : fp.

Lemma cleanup_fp (so se : bool) : footprint so se cleanup.
Proof. unfold cleanup. fp_auto. Qed.
#[local] Hint Resolve cleanup_fp : fp.

Lemma raise_if_fp (so se : bool) (c : option exc_class) :
  footprint so se (raise_if c).
Proof. unfold raise_if. fp_auto. Qed.
#[local] Hint Resolve raise_if_fp : fp.

Lemma send_mpv_command_fp (so se : bool) (command : pyval) :
  footprint so se (send_mpv_command command).
Proof. unfold send_mpv_command. fp_auto. Qed.
#[local] Hint Resolve send_mpv_command_fp : fp.

Lemma get_mpv_property_fp (so se : bool) (prop : string) :
  footprint so se (get_mpv_property prop).
Proof. unfold get_mpv_property. fp_auto. Qed.
#[local] Hint Resolve get_mpv_property_fp : fp.

Lemma update_progress_display_fp (so se : bool) (a b c : pyval) :
  footprint so se (update_progress_display a b c).
Proof. unfold update_progress_display. fp_auto. Qed.
#[local] Hint Resolve update_progress_display_fp : fp.

Lemma emit_all_fp (so se : bool) (l : list action) :
  footprint so se (emit_all l).
Proof. induction l; simpl; fp_auto. Qed.
#[local] Hint Resolve emit_all_fp : fp.

Lemma draw_full_interface_fp (so se : bool) :
  footprint so se draw_full_interface.
Proof. unfold draw_full_interface. fp_auto. Qed.
#[local] Hint Resolve draw_full_interface_fp : fp.

Lemma show_feedback_fp (so se : bool) (message color_code : string) :
  footprint so se (show_feedback message color_code).
Proof. unfold show_feedback. fp_auto. Qed.
#[local] Hint Resolve show_feedback_fp : fp.

Lemma log_current_fp (so se : bool) (file : string) :
  footprint so se (log_current file).
Proof. unfold log_current. fp_auto. Qed.
#[local] Hint Resolve log_current_fp : fp.

Lemma run_fzf_fp (so se : bool) (l : list string) (prompt : string) :
  footprint so se (run_fzf l prompt).
Proof. unfold run_fzf. fp_auto. Qed.
#[local] Hint Resolve run_fzf_fp : fp.

Lemma input_fp (so se : bool) (prompt : string) : footprint so se (input prompt).
Proof. unfold input. fp_auto. Qed.
#[local] Hint Resolve input_fp : fp.

Lemma select_folder_loop_fp (so se : bool) (rounds : nat)
    (folders : list string) (selected : option string) :
  footprint so se (select_folder_loop rounds folders selected).
Proof.
  revert selected. induction rounds as [|k IH]; intros selected; simpl.
  - destruct selected as [[|c r]|]; fp_auto.
  - destruct selected as [[|c r]|]; fp_auto; apply IH.
Qed.
#[local] Hint Resolve select_folder_loop_fp : fp.

Lemma select_folder_fp (so se : bool) : footprint so se select_folder.
Proof. unfold select_folder. fp_auto. Qed.
#[local] Hint Resolve select_folder_fp : fp.

Lemma popen_fp (se : bool) (command : list string) :
  footprint true se (popen command).
Proof. unfold popen. fp_auto. Qed.
#[local] Hint Resolve popen_fp : fp.

Lemma play_song_fp (se : bool) : footprint true se play_song.
Proof. unfold play_song. fp_auto. Qed.
#[local] Hint Resolve play_song_fp : fp.

Lemma advance_fp (so : bool) : footprint so true advance.
Proof. unfold advance. fp_auto. Qed.

Lemma get_songs_fp (so : bool) : footprint so true get_songs.
Proof. unfold get_songs. fp_auto. Qed.

Lemma choose_song_fp (so : bool) : footprint so true choose_song.
Proof. unfold choose_song. fp_auto. Qed.

(** ** What the elementary changes leave alone *)

Lemma prim_quiet (se : bool) (s s' : state) :
  prim false se s s' -> quiet s s'.
Proof.
  intros H. destruct H; unfold quiet; simpl;
    try (repeat split; auto; fail); try discriminate.
  repeat split; auto.
  - apply length_list_update.
  - intros q. rewrite alive_update. unfold alive.
    destruct (Nat.eqb q pid); auto.
    destruct (proc_at s q); auto.
Qed.

Lemma reach_quiet (se : bool) (s s' : state) :
  reach (prim false se) s s' -> quiet s s'.
Proof.
  induction 1 as [s|s1 s2 s3 H12 IH H23].
  - unfold quiet; auto.
  - apply prim_quiet in H23.
    destruct IH as (A1 & A2 & A3 & A4), H23 as (B1 & B2 & B3 & B4).
    unfold quiet. repeat split; try congruence. auto.
Qed.

Lemma prim_tracks (so : bool) (s s' : state) :
  prim so false s s' -> same_tracks s s'.
Proof.
  intros H. destruct H; unfold same_tracks; simpl; auto; discriminate.
Qed.

Lemma reach_tracks (so : bool) (s s' : state) :
  reach (prim so false) s s' -> same_tracks s s'.
Proof.
  induction 1 as [s|s1 s2 s3 H12 IH H23].
  - split; reflexivity.
  - apply prim_tracks in H23. destruct IH, H23. split; congruence.
Qed.

(** ** [play_song] and [cleanup], phase by phase *)

Lemma play_song_phases (s : state) :
  play_song s = (stop_player ;;; remove_socket ;;; spawn_player) s.
Proof. reflexivity. Qed.

Lemma cleanup_phases (s : state) :
  cleanup s = (stop_player ;;; remove_socket ;;; restore_and_exit) s.
Proof. reflexivity. Qed.

Lemma stop_player_fp (so se : bool) : footprint so se stop_player.
Proof. unfold stop_player. fp_auto. Qed.

Lemma remove_socket_fp (so se : bool) : footprint so se remove_socket.
Proof. unfold remove_socket. fp_auto. Qed.

Lemma restore_and_exit_fp (so se : bool) : footprint so se restore_and_exit.
Proof. unfold restore_and_exit. fp_auto. Qed.


Lemma proc_at_set_trace (t : list action) (s : state) (q : nat) :
  proc_at (set_trace t s) q = proc_at s q.
Proof. reflexivity. Qed.

Lemma proc_at_set_endpoint (e : option owner) (s : state) (q : nat) :
  proc_at (set_endpoint e s) q = proc_at s q.
Proof. reflexivity. Qed.

Lemma trace_update_proc (pid : nat) (f : proc -> proc) (s : state) :
  trace (update_proc pid f s) = trace s.
Proof. reflexivity. Qed.

Lemma endpoint_update_proc (pid : nat) (f : proc -> proc) (s : state) :
  endpoint (update_proc pid f s) = endpoint s.
Proof. reflexivity. Qed.

Lemma handle_update_proc (pid : nat) (f : proc -> proc) (s : state) :
  mpv_process (update_proc pid f s) = mpv_process s.
Proof. reflexivity. Qed.

Lemma trace_exit_proc (pid : nat) (s : state) :
  trace (exit_proc pid s) = trace s.
Proof.
  unfold exit_proc.
  match goal with |- context [if ?c then _ else _] => destruct c end;
    reflexivity.
Qed.

Lemma handle_exit_proc (pid : nat) (s : state) :
  mpv_process (exit_proc pid s) = mpv_process s.
Proof.
  unfold exit_proc.
  match goal with |- context [if ?c then _ else _] => destruct c end;
    reflexivity.
Qed.

Lemma endpoint_exit_proc (pid : nat) (s : state) :
  endpoint (exit_proc pid s) =
  if match proc_at s pid with
     | Some p => sb_unlinks_on_exit (p_plan p)
     | None => false
     end && owner_is pid (endpoint s)
  then None else endpoint s.
Proof.
  unfold exit_proc. rewrite endpoint_update_proc.
  match goal with |- context [if ?c then _ else _] => destruct c end;
    reflexivity.
Qed.

Lemma stop_player_ok (s : state) :
  exists s1,
    stop_player s = Ok tt s1 /\
    trace s1 = (trace s ++ stop_trace s)%list /\
    handle_dead s1 /\
    has_socket s1 = socket_after_stop s.
Proof.
  unfold stop_trace, socket_after_stop, handle_dead, has_socket.
  cbv [stop_player bind get poll_is_None ret alive].
  destruct (mpv_process s) as [pid|] eqn:Eh.
  2:{ exists s. rewrite app_nil_r. repeat split; auto.
      intros pid H; congruence. }
  destruct (proc_at s pid) as [p|] eqn:Ep.
  2:{ exists s. rewrite app_nil_r. repeat split; auto.
      intros q H. rewrite Eh in H. injection H as <-.
      rewrite Ep. reflexivity. }
  destruct (p_alive p) eqn:Ea.
  2:{ exists s. rewrite app_nil_r. repeat split; auto.
      intros q H. rewrite Eh in H. injection H as <-.
      rewrite Ep. exact Ea. }
  cbv [terminate try_catch wait kill bind emit modify get ret].
  rewrite proc_at_set_trace, proc_at_update, Nat.eqb_refl, proc_at_set_trace, Ep.
  cbn [option_map p_alive p_sigterm p_plan andb]. rewrite Ea.
  destruct (sb_honors_term (p_plan p)) eqn:Et.
  - eexists. split; [reflexivity|].
    rewrite trace_exit_proc, handle_exit_proc, endpoint_exit_proc.
    cbn [trace set_trace update_proc set_procs mpv_process endpoint].
    rewrite proc_at_set_trace, proc_at_update, Nat.eqb_refl, proc_at_set_trace, Ep.
    cbn [option_map p_plan andb]. rewrite ?Eh.
    split; [rewrite <- app_assoc; reflexivity|].
    split.
    + intros q [= <-]. apply alive_exit_proc_same.
    + destruct (endpoint s) as [o|]; [|rewrite andb_false_r; reflexivity].
      destruct (sb_unlinks_on_exit (p_plan p) && owner_is pid (Some o)); reflexivity.
  - cbn [raise caught_by existsb issubclass issubclass_fuel exc_class_eqb orb].
    eexists. split; [reflexivity|].
    split; [|split].
    + cbn [trace set_trace update_proc set_procs]. rewrite ?Eh.
      rewrite <- !app_assoc; reflexivity.
    + cbn [mpv_process set_trace update_proc set_procs]. rewrite ?Eh.
      intros q [= <-].
      unfold alive, proc_at. cbn [procs set_trace update_proc set_procs].
      rewrite nth_error_list_update, Nat.eqb_refl.
      destruct (nth_error _ pid); reflexivity.
    + cbn [endpoint set_trace update_proc set_procs]. rewrite ?Eh.
      destruct (endpoint s); reflexivity.
Qed.

Lemma remove_socket_ok (s : state) :
  exists s2,
    remove_socket s = Ok tt s2 /\
    endpoint s2 = None /\
    trace s2 = (trace s ++ if has_socket s then [Unlink] else [])%list /\
    procs s2 = procs s /\
    mpv_process s2 = mpv_process s.
Proof.
  unfold has_socket.
  cbv [remove_socket bind socket_exists get unlink emit modify ret].
  destruct (endpoint s) as [o|] eqn:E.
  - cbn [endpoint set_trace]. rewrite E.
    eexists. split; [reflexivity|]. repeat split.
  - exists s. rewrite app_nil_r. repeat split; auto.
Qed.

Lemma restore_and_exit_ok (s : state) :
  exists t, restore_and_exit s = Raise (SystemExit 0) (set_trace t s).
Proof.
  destruct s as [h folder sgs idx redraw [settings|] ps ep lk dl tr fq iq cc e];
    cbv [restore_and_exit bind show_cursor emit modify get ret raise];
    cbn [old_termios_settings env trace set_trace];
    [destruct (stdin_isatty e)|]; eexists; reflexivity.
Qed.

(** Stopping the player leaves no managed process alive, provided the
    handle named the only live one. *)
Lemma all_dead_after_stop (s s1 : state) :
  at_most_one_live s -> quiet s s1 -> handle_dead s1 -> all_dead s1.
Proof.
  intros Hinv (Hh & _ & _ & Hmono) Hdead q.
  destruct (alive s1 q) eqn:E; [|reflexivity].
  pose proof (Hinv q (Hmono q E)) as Hq.
  rewrite <- Hh in Hq. rewrite (Hdead q Hq) in E. discriminate.
Qed.

Lemma all_dead_at_most_one (s : state) : all_dead s -> at_most_one_live s.
Proof. intros H q Hq. rewrite H in Hq. discriminate. Qed.

Lemma all_dead_same_procs (s s' : state) :
  procs s' = procs s -> all_dead s -> all_dead s'.
Proof.
  intros Hp H q. specialize (H q). unfold alive, proc_at in *.
  rewrite Hp. exact H.
Qed.

Lemma nth_error_snoc {A} (l : list A) (x : A) (q : nat) :
  nth_error (l ++ [x]) q =
  if Nat.eqb q (List.length l) then Some x else nth_error l q.
Proof.
  revert q. induction l as [|y l IH]; intros [|q]; simpl; auto.
  destruct q; reflexivity.
Qed.

Lemma exit_proc_shape (pid : nat) (s : state) :
  exit_proc pid s =
  set_endpoint (endpoint (exit_proc pid s)) (set_procs (procs (exit_proc pid s)) s).
Proof.
  destruct s. unfold exit_proc.
  match goal with |- context [if ?c then _ else _] => destruct c end;
    reflexivity.
Qed.

Lemma settle_shape (s : state) :
  exists p e, settle s = set_endpoint e (set_procs p s).
Proof.
  exists (procs (settle s)), (endpoint (settle s)).
  unfold settle.
  destruct (proc_at s _) as [p|]; [destruct (p_fresh p)|];
    [| destruct s; reflexivity ..].
  destruct (p_alive p); [|destruct s; reflexivity].
  destruct (sb_binds (p_plan p)), (sb_exits_early (p_plan p));
    try (destruct s; reflexivity);
    match goal with
    | |- context [exit_proc ?a ?b] => rewrite (exit_proc_shape a b)
    end; destruct s; reflexivity.
Qed.

Lemma spawn_player_run (s : state) (song : path) :
  py_index (songs s) (current_song_index s) = Val song ->
  spawn_player s =
  match sb_fails (spawn_plan (env s) (List.length (procs s))) with
  | Some c =>
      Raise (Exc c) (set_trace (trace s ++ [Popen (mpv_command s song)]) s)
  | None => Ok tt (spawned s song)
  end.
Proof.
  intros H.
  unfold spawn_player, bind, get, lift. rewrite H. cbn [ret].
  unfold popen, bind, emit, modify, get.
  cbn -[settle List.app String.append find].
  destruct (sb_fails _); reflexivity.
Qed.

Lemma spawn_player_index_error (s : state) (e : exn) :
  py_index (songs s) (current_song_index s) = Err e ->
  spawn_player s = Raise e s.
Proof.
  intros H. unfold spawn_player, bind, get, lift. rewrite H. reflexivity.
Qed.

Lemma trace_spawned (s : state) (song : path) :
  trace (spawned s song) =
  (trace s ++ [Popen (mpv_command s song); Sleep 1])%list.
Proof.
  unfold spawned.
  match goal with |- context [settle ?x] =>
    destruct (settle_shape x) as (p & e & ->) end.
  cbn [trace set_needs_full_redraw set_endpoint set_procs set_trace].
  rewrite <- app_assoc. reflexivity.
Qed.

Lemma handle_spawned (s : state) (song : path) :
  mpv_process (spawned s song) = Some (List.length (procs s)).
Proof.
  unfold spawned.
  match goal with |- context [settle ?x] =>
    destruct (settle_shape x) as (p & e & ->) end.
  reflexivity.
Qed.

Lemma alive_spawned (s : state) (song : path) (q : nat) :
  all_dead s ->
  alive (spawned s song) q = true -> q = List.length (procs s).
Proof.
  intros Hd H. unfold spawned in H.
  change (alive (set_needs_full_redraw true ?x) q) with (alive x q) in H.
  apply alive_settle in H.
  unfold alive, proc_at in H.
  cbn [procs set_trace set_mpv_process set_procs] in H.
  rewrite nth_error_snoc in H.
  destruct (Nat.eqb q (List.length (procs s))) eqn:E.
  - apply Nat.eqb_eq in E. exact E.
  - specialize (Hd q). unfold alive, proc_at in Hd. rewrite Hd in H.
    discriminate.
Qed.

Lemma spawned_comes_up (s : state) (song : path) :
  comes_up (spawn_plan (env s) (List.length (procs s))) ->
  alive (spawned s song) (List.length (procs s)) = true /\
  endpoint (spawned s song) = Some (BoundBy (List.length (procs s))).
Proof.
  intros (_ & Hexit & Hbind).
  unfold spawned, settle, proc_at.
  cbn [procs set_trace set_mpv_process set_procs].
  rewrite length_app. cbn [List.length]. rewrite Nat.add_1_r. cbn [Nat.pred].
  rewrite nth_error_snoc, Nat.eqb_refl.
  cbn [new_proc p_fresh p_alive p_plan].
  change (env (set_trace ?t (set_mpv_process ?h (set_procs ?p s)))) with (env s).
  unfold new_proc. cbn [p_fresh p_alive p_plan]. rewrite Hbind, Hexit.
  split.
  - unfold alive, proc_at.
    cbn [procs set_needs_full_redraw set_endpoint update_proc set_procs
         set_trace set_mpv_process].
    rewrite nth_error_list_update, Nat.eqb_refl, nth_error_snoc, Nat.eqb_refl.
    reflexivity.
  - reflexivity.
Qed.

Lemma spawned_exits_early (s : state) (song : path) :
  sb_exits_early (spawn_plan (env s) (List.length (procs s))) = true ->
  alive (spawned s song) (List.length (procs s)) = false.
Proof.
  intros Hexit.
  unfold spawned, settle, proc_at.
  cbn [procs set_trace set_mpv_process set_procs].
  rewrite length_app. cbn [List.length]. rewrite Nat.add_1_r. cbn [Nat.pred].
  rewrite nth_error_snoc, Nat.eqb_refl.
  cbn [new_proc p_fresh p_alive p_plan].
  change (env (set_trace ?t (set_mpv_process ?h (set_procs ?p s)))) with (env s).
  unfold new_proc. cbn [p_fresh p_alive p_plan]. rewrite Hexit.
  match goal with
  | |- alive (set_needs_full_redraw true ?x) ?q = false =>
      change (alive x q = false)
  end.
  apply alive_exit_proc_same.
Qed.

Lemma spawned_no_socket (s : state) (song : path) :
  endpoint s = None ->
  sb_binds (spawn_plan (env s) (List.length (procs s))) = false ->
  endpoint (spawned s song) = None.
Proof.
  intros He Hbind.
  unfold spawned, settle, proc_at.
  cbn [procs set_trace set_mpv_process set_procs].
  rewrite length_app. cbn [List.length]. rewrite Nat.add_1_r. cbn [Nat.pred].
  rewrite nth_error_snoc, Nat.eqb_refl.
  cbn [new_proc p_fresh p_alive p_plan].
  change (env (set_trace ?t (set_mpv_process ?h (set_procs ?p s)))) with (env s).
  unfold new_proc. cbn [p_fresh p_alive p_plan]. rewrite Hbind.
  match goal with
  | |- endpoint (set_needs_full_redraw true ?x) = None =>
      change (endpoint x = None)
  end.
  destruct (sb_exits_early _); [|exact He].
  rewrite endpoint_exit_proc.
  cbn [endpoint update_proc set_procs set_trace set_mpv_process].
  rewrite He. destruct (proc_at _ _) as [p|]; [|reflexivity].
  rewrite andb_false_r. reflexivity.
Qed.

Lemma quiet_refl (s : state) : quiet s s.
Proof. unfold quiet; auto. Qed.

Lemma quiet_trans (a b c : state) : quiet a b -> quiet b c -> quiet a c.
Proof.
  intros (A1 & A2 & A3 & A4) (B1 & B2 & B3 & B4).
  unfold quiet. repeat split; try congruence. auto.
Qed.

(** The state in which the third phase of [play_song] and of [cleanup]
    starts. *)
Lemma stop_and_remove (s : state) :
  exists s2,
    (stop_player ;;; remove_socket) s = Ok tt s2 /\
    trace s2 = (trace s ++ stop_trace s
                  ++ if socket_after_stop s then [Unlink] else [])%list /\
    endpoint s2 = None /\
    handle_dead s2 /\
    quiet s s2 /\
    same_tracks s s2.
Proof.
  destruct (stop_player_ok s) as (s1 & H1 & T1 & D1 & S1).
  destruct (remove_socket_ok s1) as (s2 & H2 & E2 & T2 & P2 & M2).
  exists s2.
  assert (Q1 : quiet s s1).
  { apply (reach_quiet false).
    pose proof (stop_player_fp false false s) as R. rewrite H1 in R. exact R. }
  assert (Q2 : quiet s1 s2).
  { apply (reach_quiet false).
    pose proof (remove_socket_fp false false s1) as R. rewrite H2 in R. exact R. }
  assert (K1 : same_tracks s s1).
  { apply (reach_tracks false).
    pose proof (stop_player_fp false false s) as R. rewrite H1 in R. exact R. }
  assert (K2 : same_tracks s1 s2).
  { apply (reach_tracks false).
    pose proof (remove_socket_fp false false s1) as R. rewrite H2 in R. exact R. }
  split.
  { unfold bind at 1. rewrite H1. exact H2. }
  split.
  { rewrite T2, T1, S1, <- app_assoc. reflexivity. }
  split; [exact E2|].
  split.
  { intros q Hq. rewrite M2 in Hq. specialize (D1 q Hq).
    unfold alive, proc_at in *. rewrite P2. exact D1. }
  split; [exact (quiet_trans _ _ _ Q1 Q2)|].
  destruct K1, K2. split; congruence.
Qed.

Lemma bind_assoc {A B C} (m : M A) (k : A -> M B) (h : B -> M C) (s : state) :
  bind (bind m k) h s = bind m (fun a => bind (k a) h) s.
Proof. unfold bind. destruct (m s); reflexivity. Qed.

Lemma mpv_command_env (s s' : state) (song : path) :
  env s' = env s -> mpv_command s' song = mpv_command s song.
Proof. intros H. unfold mpv_command. rewrite H. reflexivity. Qed.

Lemma play_song_run (s : state) (song : path) :
  py_index (songs s) (current_song_index s) = Val song ->
  exists s2,
    (stop_player ;;; remove_socket) s = Ok tt s2 /\
    play_song s =
    match sb_fails (spawn_plan (env s) (List.length (procs s))) with
    | Some c =>
        Raise (Exc c) (set_trace (trace s2 ++ [Popen (mpv_command s song)]) s2)
    | None => Ok tt (spawned s2 song)
    end.
Proof.
  intros Hsong.
  destruct (stop_and_remove s) as (s2 & H2 & T2 & E2 & D2 & Q2 & K2).
  exists s2. split; [exact H2|].
  rewrite play_song_phases.
  rewrite <- bind_assoc.
  unfold bind at 1. rewrite H2.
  destruct Q2 as (Qh & Qe & Ql & Qa), K2 as (Ks & Ki).
  rewrite (spawn_player_run s2 song) by (rewrite Ks, Ki; exact Hsong).
  rewrite Qe, Ql, (mpv_command_env s s2 song Qe). reflexivity.
Qed.

(** C3.  For every track, [play_song] does, in this order: if the managed
    player is alive, terminate it, wait up to two seconds and kill it when
    the wait times out; remove the socket file if it is there; spawn [mpv]
    bound to the socket path with the track as last argument; sleep one
    second.  It returns exactly when the spawn succeeds; when the spawn
    raises, the error is passed on and nothing follows it. *)
Theorem play_song_sequence (s : state) (song : path) :
  py_index (songs s) (current_song_index s) = Val song ->
  trace (final_state (play_song s)) =
    (trace s
       ++ stop_trace s
       ++ (if socket_after_stop s then [Unlink] else [])
       ++ [Popen (mpv_command s song)]
       ++ match sb_fails (spawn_plan (env s) (List.length (procs s))) with
          | None => [Sleep 1]
          | Some _ => []
          end)%list
  /\ match sb_fails (spawn_plan (env s) (List.length (procs s))) with
     | None => exists s', play_song s = Ok tt s'
     | Some c => exists s', play_song s = Raise (Exc c) s'
     end.
Proof.
  intros Hsong.
  destruct (play_song_run s song Hsong) as (s2 & H2 & Hrun).
  destruct (stop_and_remove s) as (s2' & H2' & T2 & _).
  rewrite H2 in H2'. injection H2' as <-.
  rewrite Hrun.
  destruct (sb_fails _) as [c|].
  - split; [|eexists; reflexivity].
    cbn [final_state trace set_trace]. rewrite T2, app_nil_r, <- !app_assoc.
    reflexivity.
  - split; [|eexists; reflexivity].
    cbn [final_state]. rewrite trace_spawned, T2, <- !app_assoc.
    rewrite (mpv_command_env s s2 song); [reflexivity|].
    destruct (stop_and_remove s) as (s2' & H2' & _ & _ & _ & (_ & Qe & _) & _).
    rewrite H2 in H2'. injection H2' as <-. exact Qe.
Qed.

Lemma cleanup_run (s : state) :
  exists s',
    cleanup s = Raise (SystemExit 0) s' /\
    endpoint s' = None /\
    handle_dead s' /\
    quiet s s' /\
    same_tracks s s'.
Proof.
  destruct (stop_and_remove s) as (s2 & H2 & T2 & E2 & D2 & Q2 & K2).
  destruct (restore_and_exit_ok s2) as (t & Ht).
  exists (set_trace t s2).
  split.
  { rewrite cleanup_phases, <- bind_assoc. unfold bind at 1.
    rewrite H2. exact Ht. }
  split; [exact E2|].
  split; [exact D2|].
  split; [exact Q2|exact K2].
Qed.

Lemma all_dead_after_stop_and_remove (s s2 : state) :
  at_most_one_live s ->
  (stop_player ;;; remove_socket) s = Ok tt s2 ->
  all_dead s2.
Proof.
  intros Hinv H2.
  destruct (stop_and_remove s) as (s2' & H2' & _ & _ & D2 & Q2 & _).
  rewrite H2 in H2'. injection H2' as <-.
  exact (all_dead_after_stop s s2 Hinv Q2 D2).
Qed.

Lemma play_song_index_error (s : state) (e : exn) :
  py_index (songs s) (current_song_index s) = Err e ->
  exists s2, (stop_player ;;; remove_socket) s = Ok tt s2 /\
             play_song s = Raise e s2.
Proof.
  intros Herr.
  destruct (stop_and_remove s) as (s2 & H2 & _ & _ & _ & _ & (Ks & Ki)).
  exists s2. split; [exact H2|].
  rewrite play_song_phases, <- bind_assoc. unfold bind at 1. rewrite H2.
  apply spawn_player_index_error. rewrite Ks, Ki. exact Herr.
Qed.

(** Every start re-establishes the invariant, however it ends. *)
Lemma play_song_at_most_one_live (s : state) :
  at_most_one_live s -> at_most_one_live (final_state (play_song s)).
Proof.
  intros Hinv.
  destruct (py_index (songs s) (current_song_index s)) as [song|e] eqn:Hsong.
  - destruct (play_song_run s song Hsong) as (s2 & H2 & Hrun).
    pose proof (all_dead_after_stop_and_remove s s2 Hinv H2) as Hd.
    rewrite Hrun. destruct (sb_fails _).
    + apply all_dead_at_most_one.
      apply (all_dead_same_procs s2); [reflexivity|exact Hd].
    + intros q Hq. cbn [final_state] in *.
      rewrite handle_spawned. f_equal. symmetry.
      exact (alive_spawned s2 song q Hd Hq).
  - destruct (play_song_index_error s e Hsong) as (s2 & H2 & Hrun).
    rewrite Hrun. apply all_dead_at_most_one.
    exact (all_dead_after_stop_and_remove s s2 Hinv H2).
Qed.

(** After a start that returns, the new process is the only candidate. *)
Lemma play_song_ok (s s' : state) :
  at_most_one_live s ->
  play_song s = Ok tt s' ->
  mpv_process s' = Some (List.length (procs s)) /\
  (forall q, alive s' q = true -> q = List.length (procs s)) /\
  (comes_up (spawn_plan (env s) (List.length (procs s))) ->
   alive s' (List.length (procs s)) = true /\
   endpoint s' = Some (BoundBy (List.length (procs s)))).
Proof.
  intros Hinv Hok.
  destruct (py_index (songs s) (current_song_index s)) as [song|e] eqn:Hsong.
  2:{ destruct (play_song_index_error s e Hsong) as (s2 & _ & Hrun).
      rewrite Hrun in Hok. discriminate. }
  destruct (play_song_run s song Hsong) as (s2 & H2 & Hrun).
  pose proof (all_dead_after_stop_and_remove s s2 Hinv H2) as Hd.
  destruct (stop_and_remove s) as (s2' & H2' & _ & _ & _ & (_ & Qe & Ql & _) & _).
  rewrite H2 in H2'. injection H2' as <-.
  rewrite Hrun in Hok.
  destruct (sb_fails _); [discriminate|]. injection Hok as <-.
  rewrite <- Ql, <- Qe.
  split; [apply handle_spawned|].
  split; [intros q; apply alive_spawned; exact Hd|].
  apply spawned_comes_up.
Qed.

(** After a start that returns with a player that does not come up: one
    that is gone within the settle interval leaves no live process, one
    that does not open its socket leaves no socket file. *)
Lemma play_song_gone (s s' : state) :
  at_most_one_live s ->
  play_song s = Ok tt s' ->
  (sb_exits_early (spawn_plan (env s) (List.length (procs s))) = true ->
   forall q, alive s' q = false) /\
  (sb_binds (spawn_plan (env s) (List.length (procs s))) = false ->
   endpoint s' = None).
Proof.
  intros Hinv Hok.
  destruct (py_index (songs s) (current_song_index s)) as [song|e] eqn:Hsong.
  2:{ destruct (play_song_index_error s e Hsong) as (s2 & _ & Hrun).
      rewrite Hrun in Hok. discriminate. }
  destruct (play_song_run s song Hsong) as (s2 & H2 & Hrun).
  pose proof (all_dead_after_stop_and_remove s s2 Hinv H2) as Hd.
  destruct (stop_and_remove s)
    as (s2' & H2' & _ & E2 & _ & (_ & Qe & Ql & _) & _).
  rewrite H2 in H2'. injection H2' as <-.
  rewrite Hrun in Hok.
  destruct (sb_fails _); [discriminate|]. injection Hok as <-.
  rewrite <- Ql, <- Qe.
  split.
  - intros Hx q. destruct (alive (spawned s2 song) q) eqn:A; [|reflexivity].
    pose proof (alive_spawned s2 song q Hd A) as ->.
    rewrite (spawned_exits_early s2 song Hx) in A. discriminate.
  - intros Hb. apply spawned_no_socket; assumption.
Qed.

(** ** Invariants of the main loop *)

Create HintDb hl.

Section Invariant.
Variable J : state -> Prop.
Variable X : exn -> state -> Prop.
Hypothesis J_prim : forall s s', prim false false s s' -> J s -> J s'.
Hypothesis J_X : forall e s, J s -> X e s.

Lemma J_reach (s s' : state) : reach (prim false false) s s' -> J s -> J s'.
Proof. induction 1; eauto. Qed.

Lemma hl_fp {A} (m : M A) : footprint false false m -> holds J X m.
Proof.
  intros Hfp s Hs. specialize (Hfp s).
  destruct (m s); simpl in Hfp; eauto using J_reach.
Qed.

Lemma hl_ret {A} (a : A) : holds J X (ret a).
Proof. intros s Hs. exact Hs. Qed.

Lemma hl_raise {A} (e : exn) : holds J X (@raise A e).
Proof. intros s Hs. apply J_X. exact Hs. Qed.

Lemma hl_bind {A B} (m : M A) (k : A -> M B) :
  holds J X m -> (forall a, holds J X (k a)) -> holds J X (bind m k).
Proof.
  intros Hm Hk s Hs. unfold bind. specialize (Hm s Hs).
  destruct (m s) as [a s'|e s'|s']; auto. apply Hk. exact Hm.
Qed.

Hypothesis H_play : holds J X play_song.
Hypothesis H_advance : holds J X advance.
Hypothesis H_choose : holds J X choose_song.
Hypothesis H_change :
  holds J X (get_songs ;;; modify (set_current_song_index 0) ;;; play_song).

Ltac hl_step :=
  first
    [ apply hl_ret | apply hl_raise
    | exact H_play | exact H_advance | exact H_choose | exact H_change
    | apply hl_fp; solve [ fp_auto ]
    | apply hl_bind; [|intros ?]
    | match goal with
      | |- holds _ _ (if ?b then _ else _) => destruct b
      | |- holds _ _ (match ?x with _ => _ end) => destruct x
      end ].

Lemma on_key_holds (key : string) : holds J X (on_key key).
Proof. unfold on_key. repeat hl_step. Qed.

Lemma iteration_holds (inp : tick_input) (last : Q) :
  holds J X (iteration inp last).
Proof.
  unfold iteration. repeat hl_step; apply on_key_holds.
Qed.

Lemma loop_holds (ticks : list tick_input) (last : Q) :
  holds J X (loop ticks last).
Proof.
  revert last. induction ticks as [|inp ticks IH]; intros last; simpl.
  - intros s Hs. exact Hs.
  - apply hl_bind; [apply iteration_holds|intros; apply IH].
Qed.

End Invariant.

(** ** The invariant: at most one live player *)

Lemma quiet_at_most_one_live (s s' : state) :
  quiet s s' -> at_most_one_live s -> at_most_one_live s'.
Proof.
  intros (Hh & _ & _ & Hmono) Hinv q Hq. rewrite Hh. auto.
Qed.

Lemma fp_at_most_one_live {A} (se : bool) (m : M A) :
  footprint false se m ->
  holds at_most_one_live (fun _ => at_most_one_live) m.
Proof.
  intros Hfp s Hs. specialize (Hfp s). apply reach_quiet in Hfp.
  destruct (m s); simpl in Hfp; eauto using quiet_at_most_one_live.
Qed.

Lemma play_song_holds_one_live :
  holds at_most_one_live (fun _ => at_most_one_live) play_song.
Proof.
  intros s Hs. pose proof (play_song_at_most_one_live s Hs) as H.
  destruct (play_song s); exact H.
Qed.

Lemma change_folder_holds_one_live :
  holds at_most_one_live (fun _ => at_most_one_live)
        (get_songs ;;; modify (set_current_song_index 0) ;;; play_song).
Proof.
  apply hl_bind; [apply (fp_at_most_one_live true), get_songs_fp|intros _].
  apply hl_bind; [|intros _; apply play_song_holds_one_live].
  apply (fp_at_most_one_live true). fp_auto.
Qed.

Lemma loop_one_live (ticks : list tick_input) (last : Q) :
  holds at_most_one_live (fun _ => at_most_one_live) (loop ticks last).
Proof.
  apply loop_holds.
  - intros s s' H. apply quiet_at_most_one_live, (prim_quiet false), H.
  - auto.
  - apply play_song_holds_one_live.
  - apply (fp_at_most_one_live true), advance_fp.
  - apply (fp_at_most_one_live true), choose_song_fp.
  - apply change_folder_holds_one_live.
Qed.

Lemma randint_fp (so se : bool) (a b : Z) : footprint so se (randint a b).
Proof. unfold randint. fp_auto. Qed.

Lemma startup_one_live :
  holds at_most_one_live (fun _ => at_most_one_live) startup.
Proof.
  unfold startup.
  apply hl_bind; [apply (fp_at_most_one_live false); fp_auto|intros isatty].
  destruct (negb isatty); [apply (fp_at_most_one_live false); fp_auto|].
  apply hl_bind; [apply (fp_at_most_one_live false); fp_auto|intros ?].
  apply hl_bind; [apply (fp_at_most_one_live false); fp_auto|intros ?].
  apply hl_bind; [apply (fp_at_most_one_live false); fp_auto|intros ?].
  apply hl_bind; [apply (fp_at_most_one_live true), get_songs_fp|intros ?].
  apply hl_bind; [apply (fp_at_most_one_live false); fp_auto|intros ?].
  apply hl_bind; [apply (fp_at_most_one_live false), randint_fp|intros ?].
  apply hl_bind; [apply (fp_at_most_one_live true); fp_auto|intros ?].
  apply hl_bind; [apply play_song_holds_one_live|intros ?].
  apply (fp_at_most_one_live false); fp_auto.
Qed.

Lemma main_loop_one_live (ticks : list tick_input) :
  holds at_most_one_live (fun _ => at_most_one_live) (main_loop ticks).
Proof.
  intros s Hs. unfold main_loop, try_finally.
  pose proof (loop_one_live ticks 0%Q s Hs) as H.
  destruct (loop ticks 0%Q s) as [a s'|e s'|s']; auto; unfold bind;
    destruct (cleanup_run s') as (s'' & -> & _ & _ & Hq & _);
    exact (quiet_at_most_one_live _ _ Hq H).
Qed.

Lemma main_one_live (ticks : list tick_input) :
  holds at_most_one_live (fun _ => at_most_one_live) (main ticks).
Proof.
  unfold main.
  apply hl_bind; [apply startup_one_live|intros _; apply main_loop_one_live].
Qed.

Lemma initial_one_live (e : environment) (fzf : list fzf_outcome)
    (answers : list string) (socket : option owner) (likes dislikes : string) :
  at_most_one_live (initial e fzf answers socket likes dislikes).
Proof. intros [|q] H; discriminate H. Qed.

(** ** The invariant: the index is in range *)

Lemma same_tracks_index (s s' : state) :
  same_tracks s s' -> index_in_range s -> index_in_range s'.
Proof.
  intros (Hs & Hi). unfold index_in_range, len_songs. rewrite Hs, Hi. auto.
Qed.

Lemma fp_index {A} (so : bool) (m : M A) :
  footprint so false m -> holds index_in_range (fun _ _ => True) m.
Proof.
  intros Hfp s Hs. specialize (Hfp s). apply reach_tracks in Hfp.
  destruct (m s); simpl in Hfp; eauto using same_tracks_index.
Qed.

Lemma advance_run (s : state) :
  songs s <> [] ->
  advance s =
  Ok tt (set_current_song_index ((current_song_index s + 1) mod len_songs s) s).
Proof.
  intros Hne. unfold advance, bind, get.
  assert ((len_songs s =? 0) = false) as ->; [|reflexivity].
  apply Z.eqb_neq. unfold len_songs.
  destruct (songs s); [congruence|]. simpl. lia.
Qed.

Lemma len_songs_pos (s : state) : songs s <> [] -> 0 < len_songs s.
Proof.
  unfold len_songs. destruct (songs s); [congruence|]. simpl. lia.
Qed.

Lemma index_in_range_nonempty (s : state) : index_in_range s -> songs s <> [].
Proof.
  unfold index_in_range, len_songs. intros H E. rewrite E in H. simpl in H. lia.
Qed.

Lemma advance_holds_index : holds index_in_range (fun _ _ => True) advance.
Proof.
  intros s Hs.
  pose proof (index_in_range_nonempty s Hs) as Hne.
  rewrite (advance_run s Hne).
  unfold index_in_range. cbn [current_song_index set_current_song_index].
  change (len_songs (set_current_song_index ?i s)) with (len_songs s).
  apply Z.mod_pos_bound, len_songs_pos, Hne.
Qed.

Lemma list_index_range (x : string) (l : list string) (i : Z) :
  list_index x l = Val i -> 0 <= i < Z.of_nat (List.length l).
Proof.
  revert i. induction l as [|y l IH]; intros i; simpl; [discriminate|].
  destruct (String.eqb y x).
  - intros [= <-]. lia.
  - destruct (list_index x l) as [j|]; simpl; [|discriminate].
    intros [= <-]. specialize (IH j eq_refl). lia.
Qed.

Lemma choose_song_holds_index :
  holds index_in_range (fun _ _ => True) choose_song.
Proof.
  intros s Hs. unfold choose_song, bind at 1, get. unfold bind at 1.
  pose proof (run_fzf_fp false false (map path_name (songs s))
                "🎵 Select Song: " s) as Hfp.
  apply reach_tracks in Hfp.
  destruct (run_fzf _ _ s) as [sel s1|e s1|s1]; cbn [final_state] in Hfp;
    [|exact I|exact (same_tracks_index _ _ Hfp Hs)].
  pose proof (same_tracks_index _ _ Hfp Hs) as Hs1.
  destruct (negb (none_or_empty sel)); [|exact Hs1].
  unfold try_catch, bind, lift.
  destruct (list_index _ _) as [i|e] eqn:Ei.
  - cbn [ret modify].
    apply list_index_range in Ei. rewrite length_map in Ei.
    destruct Hfp as (Hsongs & _).
    unfold index_in_range, len_songs.
    cbn [current_song_index songs set_current_song_index].
    rewrite Hsongs. exact Ei.
  - cbn [raise]. destruct (caught_by _ e); [exact Hs1|exact I].
Qed.

Lemma get_songs_nonempty (s s' : state) :
  get_songs s = Ok tt s' -> songs s' <> [].
Proof.
  unfold get_songs, bind, get, modify.
  destruct (sorted_set _) as [|p l] eqn:E; cbn [songs set_songs].
  - unfold bind, emit, modify, raise. discriminate.
  - intros [= <-]. cbn [songs set_songs]. discriminate.
Qed.

Lemma play_song_holds_index :
  holds index_in_range (fun _ _ => True) play_song.
Proof. apply (fp_index true), play_song_fp. Qed.

Lemma change_folder_holds_index :
  holds index_in_range (fun _ _ => True)
        (get_songs ;;; modify (set_current_song_index 0) ;;; play_song).
Proof.
  intros s _. unfold bind at 1.
  destruct (get_songs s) as [[] s1|e s1|s1] eqn:E; [|exact I|].
  - apply get_songs_nonempty in E.
    unfold bind at 1. cbn [modify].
    apply play_song_holds_index.
    unfold index_in_range. cbn [current_song_index set_current_song_index].
    change (len_songs (set_current_song_index 0 s1)) with (len_songs s1).
    pose proof (len_songs_pos s1 E). lia.
  - exfalso. revert E. unfold get_songs, bind, get, modify.
    destruct (sorted_set _); unfold bind, emit, modify, raise, ret;
      discriminate.
Qed.

Lemma loop_index (ticks : list tick_input) (last : Q) :
  holds index_in_range (fun _ _ => True) (loop ticks last).
Proof.
  apply loop_holds.
  - intros s s' H. apply same_tracks_index, (prim_tracks false), H.
  - auto.
  - apply play_song_holds_index.
  - apply advance_holds_index.
  - apply choose_song_holds_index.
  - apply change_folder_holds_index.
Qed.

Lemma randint_range (a b : Z) (s : state) (r : Z) (s' : state) :
  randint a b s = Ok r s' -> s' = s /\ a <= r <= b.
Proof.
  unfold randint. destruct (b <? a) eqn:E; [discriminate|].
  apply Z.ltb_ge in E.
  unfold bind, get, ret. intros [= <- <-]. split; [reflexivity|].
  pose proof (Z.mod_pos_bound (rng (env s)) (b - a + 1)). lia.
Qed.

Lemma bind_ok_inv {A B} (m : M A) (k : A -> M B) (s s' : state) (b : B) :
  bind m k s = Ok b s' -> exists a s1, m s = Ok a s1 /\ k a s1 = Ok b s'.
Proof.
  unfold bind. destruct (m s) as [a s1|e s1|s1]; try discriminate.
  intros H. exists a, s1. auto.
Qed.

Lemma holds_ok {A} (J : state -> Prop) (X : exn -> state -> Prop) (m : M A)
    (s s' : state) (a : A) :
  holds J X m -> J s -> m s = Ok a s' -> J s'.
Proof. intros H Hs E. specialize (H s Hs). rewrite E in H. exact H. Qed.

Lemma startup_index (s s' : state) :
  startup s = Ok tt s' -> index_in_range s'.
Proof.
  unfold startup. intros H.
  apply bind_ok_inv in H. destruct H as (isatty & s0 & _ & H).
  destruct (negb isatty).
  { apply bind_ok_inv in H. destruct H as (? & ? & _ & H). discriminate H. }
  apply bind_ok_inv in H. destruct H as (settings & sa & _ & H).
  apply bind_ok_inv in H. destruct H as (? & sb & _ & H).
  apply bind_ok_inv in H. destruct H as (? & sc & _ & H).
  apply bind_ok_inv in H. destruct H as ([] & sd & Hsongs & H).
  apply get_songs_nonempty in Hsongs.
  apply bind_ok_inv in H. destruct H as (n & se & Hn & H).
  unfold get in Hn. injection Hn as <- <-.
  apply bind_ok_inv in H. destruct H as (r & sf & Hr & H).
  apply randint_range in Hr. destruct Hr as (-> & Hr).
  apply bind_ok_inv in H. destruct H as (? & sg & Hg & H).
  unfold modify in Hg. injection Hg as _ <-.
  apply bind_ok_inv in H. destruct H as (? & sh & Hplay & H).
  assert (Hidx : index_in_range (set_current_song_index r sd)).
  { unfold index_in_range. cbn [current_song_index set_current_song_index].
    change (len_songs (set_current_song_index r sd)) with (len_songs sd).
    lia. }
  pose proof (holds_ok _ _ _ _ _ _ play_song_holds_index Hidx Hplay) as Hh.
  exact (holds_ok _ _ _ _ _ _
           (fp_index false _ (hide_cursor_fp false false)) Hh H).
Qed.

Lemma loop_pending_index (ticks : list tick_input) (last : Q) (s s' : state) :
  index_in_range s -> loop ticks last s = Pending s' -> index_in_range s'.
Proof.
  intros Hs E. pose proof (loop_index ticks last s Hs) as H.
  rewrite E in H. exact H.
Qed.


(** C5.  The bound [0 <= index < len(tracks)] holds when [main] has made
    its random first pick and started the player; every round of the main
    loop keeps it, whatever the key, the answers of the picker and the
    behaviour of the player; in particular it holds after a circular
    advance, after a track is chosen in the picker, and after a change of
    folder has reset the index to 0. *)
Theorem index_stays_in_range :
  (forall s s', startup s = Ok tt s' -> index_in_range s') /\
  (forall inp last s last' s',
      index_in_range s -> iteration inp last s = Ok last' s' ->
      index_in_range s') /\
  (forall ticks last s s',
      index_in_range s -> loop ticks last s = Pending s' ->
      index_in_range s') /\
  (forall s s', songs s <> [] -> advance s = Ok tt s' -> index_in_range s') /\
  (forall s s' chosen,
      index_in_range s -> choose_song s = Ok chosen s' -> index_in_range s') /\
  (forall s s',
      (get_songs ;;; modify (set_current_song_index 0)) s = Ok tt s' ->
      index_in_range s' /\ current_song_index s' = 0).
Proof.
  split; [exact startup_index|].
  split.
  { intros inp last s last' s' Hs E.
    assert (H : holds index_in_range (fun _ _ => True) (iteration inp last)).
    { apply iteration_holds.
      - intros a b H. apply same_tracks_index, (prim_tracks false), H.
      - auto.
      - apply play_song_holds_index.
      - apply advance_holds_index.
      - apply choose_song_holds_index.
      - apply change_folder_holds_index. }
    exact (holds_ok _ _ _ _ _ _ H Hs E). }
  split; [exact loop_pending_index|].
  split.
  { intros s s' Hne E. rewrite (advance_run s Hne) in E. injection E as <-.
    unfold index_in_range. cbn [current_song_index set_current_song_index].
    change (len_songs (set_current_song_index ?i s)) with (len_songs s).
    apply Z.mod_pos_bound, len_songs_pos, Hne. }
  split.
  { intros s s' chosen Hs E.
    exact (holds_ok _ _ _ _ _ _ choose_song_holds_index Hs E). }
  intros s s' E.
  apply bind_ok_inv in E. destruct E as ([] & s1 & Hsongs & E).
  apply get_songs_nonempty in Hsongs.
  unfold modify in E. injection E as <-.
  split; [|reflexivity].
  unfold index_in_range. cbn [current_song_index set_current_song_index].
  change (len_songs (set_current_song_index 0 s1)) with (len_songs s1).
  pose proof (len_songs_pos s1 Hsongs). lia.
Qed.

Lemma index_stays_in_range_witness :
  index_in_range (playing answering 0) /\
  iteration (mktick 0 false false (Some "n")) 0 (playing answering 0)
  = Ok 0%Q (final_state
              (iteration (mktick 0 false false (Some "n")) 0
                         (playing answering 0))) /\
  index_in_range
    (final_state
       (iteration (mktick 0 false false (Some "n")) 0 (playing answering 0))).
Proof.
  assert (H0 : index_in_range (playing answering 0))
    by (unfold index_in_range, len_songs; cbn; lia).
  assert (H1 : iteration (mktick 0 false false (Some "n")) 0
                 (playing answering 0)
               = Ok 0%Q (final_state
                           (iteration (mktick 0 false false (Some "n")) 0
                                      (playing answering 0))))
    by (vm_compute; reflexivity).
  split; [exact H0|]. split; [exact H1|].
  exact (proj1 (proj2 index_stays_in_range) _ _ _ _ _ H0 H1).
Defined.

(** ** The circular advance at its two call sites *)

Lemma fp_ok {A} (so se : bool) (m : M A) (s s' : state) (a : A) :
  footprint so se m -> m s = Ok a s' -> reach (prim so se) s s'.
Proof. intros H E. specialize (H s). rewrite E in H. exact H. Qed.

Lemma cleanup_never_returns (s s' : state) : cleanup s <> Ok tt s'.
Proof.
  destruct (cleanup_run s) as (s'' & -> & _). discriminate.
Qed.

Lemma alive_after_player_exits (s : state) (pid : nat) :
  mpv_process s = Some pid -> alive (player_exits s) pid = false.
Proof.
  intros H. unfold player_exits. rewrite H.
  destruct (alive s pid) eqn:E; [apply alive_exit_proc_same|exact E].
Qed.

Lemma handle_player_exits (s : state) :
  mpv_process (player_exits s) = mpv_process s.
Proof.
  unfold player_exits. destruct (mpv_process s) as [pid|] eqn:E; auto.
  destruct (alive s pid); auto. rewrite handle_exit_proc. exact E.
Qed.

(** A round in which the player is found gone goes on with the circular
    advance and a restart, from a state with the same tracks. *)
Lemma iteration_exit_path (inp : tick_input) (last last' : Q)
    (s s' : state) (pid : nat) :
  mpv_process s = Some pid ->
  ti_player_exits inp = true \/ alive s pid = false ->
  iteration inp last s = Ok last' s' ->
  exists s1, same_tracks s s1 /\ (advance ;;; play_song) s1 = Ok tt s'.
Proof.
  intros Hh Hgone H. unfold iteration in H.
  apply bind_ok_inv in H. destruct H as ([] & s0 & Hsig & H).
  assert (s0 = s) as ->.
  { destruct (ti_signal inp).
    - exfalso. exact (cleanup_never_returns _ _ Hsig).
    - injection Hsig as <-. reflexivity. }
  clear Hsig.
  apply bind_ok_inv in H. destruct H as ([] & s0 & Henv & H).
  assert (Q0 : quiet s s0 /\ same_tracks s s0 /\ alive s0 pid = false).
  { destruct (ti_player_exits inp).
    - unfold modify in Henv. injection Henv as <-.
      split; [apply (reach_quiet false), reach_player_exits|].
      split; [apply (reach_tracks false), reach_player_exits|].
      apply alive_after_player_exits, Hh.
    - injection Henv as <-.
      split; [apply quiet_refl|]. split; [split; reflexivity|].
      destruct Hgone as [Hx|Hx]; [discriminate|exact Hx]. }
  destruct Q0 as (Q0 & K0 & A0). clear Henv.
  apply bind_ok_inv in H. destruct H as (redraw & sa & Hg & H).
  injection Hg as <- <-.
  apply bind_ok_inv in H. destruct H as (last1 & sb & Hdraw & H).
  assert (Rb : reach (prim false false) s0 sb).
  { revert Hdraw. apply fp_ok. fp_auto. }
  apply bind_ok_inv in H. destruct H as (last2 & sc & Hstat & H).
  assert (Rc : reach (prim false false) sb sc).
  { revert Hstat. apply fp_ok. fp_auto. }
  pose proof (reach_trans _ _ _ _ Rb Rc) as R.
  pose proof (reach_quiet false _ _ R) as (Qh & _ & _ & Qa).
  pose proof (reach_tracks false _ _ R) as K.
  destruct Q0 as (Q0h & _).
  apply bind_ok_inv in H. destruct H as (h & sd & Hg & H).
  injection Hg as <- <-.
  rewrite Qh, Q0h, Hh in H.
  apply bind_ok_inv in H. destruct H as (exited & se & Hp & H).
  apply bind_ok_inv in Hp. destruct Hp as (running & sf & Hp & Hr).
  unfold poll_is_None, get in Hp. injection Hp as <- <-.
  unfold ret in Hr. injection Hr as <- <-.
  assert (alive sc pid = false) as Hdead.
  { destruct (alive sc pid) eqn:E; [|reflexivity].
    rewrite (Qa pid E) in A0. discriminate. }
  rewrite Hdead in H. cbn [negb] in H.
  exists sc. split.
  { destruct K0, K. split; congruence. }
  apply bind_ok_inv in H. destruct H as ([] & sg & Hadv & H).
  apply bind_ok_inv in H. destruct H as ([] & sh & Hplay & H).
  unfold ret in H. injection H as _ <-.
  unfold bind. rewrite Hadv. exact Hplay.
Qed.

Lemma advance_then_play (s1 s' : state) :
  songs s1 <> [] ->
  (advance ;;; play_song) s1 = Ok tt s' ->
  current_song_index s' = (current_song_index s1 + 1) mod len_songs s1 /\
  songs s' = songs s1.
Proof.
  intros Hne H. unfold bind in H. rewrite (advance_run s1 Hne) in H.
  pose proof (fp_ok true false _ _ _ _ (play_song_fp false) H) as R.
  apply reach_tracks in R. destruct R as (Rs & Ri).
  rewrite Rs, Ri. split; reflexivity.
Qed.

Lemma next_key_index (key : string) (s : state) :
  songs s <> [] ->
  key_in key ["n"; "N"] = true ->
  current_song_index (final_state (on_key key s))
  = (current_song_index s + 1) mod len_songs s /\
  songs (final_state (on_key key s)) = songs s.
Proof.
  intros Hne Hkey.
  assert (Hk : key = "n" \/ key = "N").
  { unfold key_in in Hkey. cbn [existsb] in Hkey.
    rewrite orb_false_r in Hkey. apply orb_true_iff in Hkey.
    destruct Hkey as [H|H]; apply String.eqb_eq in H; auto. }
  assert (E : on_key key s =
              ((advance ;;; play_song) ;;;
               modify (set_needs_full_redraw true)) s)
    by (destruct Hk as [->| ->]; reflexivity).
  rewrite E. clear E.
  unfold bind. rewrite (advance_run s Hne).
  pose proof (play_song_fp false
                (set_current_song_index
                   ((current_song_index s + 1) mod len_songs s) s)) as R.
  apply reach_tracks in R. destruct R as (Rs & Ri).
  destruct (play_song _) as [a s1|e s1|s1]; cbn [final_state] in *;
    cbn [modify final_state songs current_song_index set_needs_full_redraw];
    rewrite ?Rs, ?Ri; split; reflexivity.
Qed.

(** A round that finds the player gone, with no signal, no redraw
    pending and the status update not yet due: it is the circular advance
    followed by the restart, and the key is not read. *)
Lemma exit_round_run (inp : tick_input) (last : Q) (s : state) (pid : nat) :
  ti_signal inp = false ->
  needs_full_redraw s = false ->
  Qle_bool 1 (ti_now inp - last) = false ->
  mpv_process s = Some pid ->
  ti_player_exits inp = true \/ alive s pid = false ->
  iteration inp last s
  = (advance ;;; play_song ;;; ret last)
      (if ti_player_exits inp then player_exits s else s).
Proof.
  intros Hsig Hre Hq Hh Hgone.
  set (s0 := if ti_player_exits inp then player_exits s else s).
  assert (Hstep : (if ti_player_exits inp then modify player_exits
                   else ret tt) s = Ok tt s0).
  { unfold s0. destruct (ti_player_exits inp); reflexivity. }
  assert (Hre0 : needs_full_redraw s0 = false).
  { unfold s0. destruct (ti_player_exits inp); [|exact Hre].
    unfold player_exits. rewrite Hh.
    destruct (alive s pid); [|exact Hre].
    rewrite exit_proc_shape. exact Hre. }
  assert (Hh0 : mpv_process s0 = Some pid).
  { unfold s0. destruct (ti_player_exits inp); [|exact Hh].
    rewrite handle_player_exits. exact Hh. }
  assert (Ha0 : alive s0 pid = false).
  { unfold s0. destruct (ti_player_exits inp) eqn:Ex.
    - apply alive_after_player_exits, Hh.
    - destruct Hgone as [F|F]; [discriminate|exact F]. }
  unfold iteration. rewrite Hsig.
  unfold bind at 1, ret at 1. unfold bind at 1. rewrite Hstep.
  unfold bind at 1, get at 1. rewrite Hre0.
  unfold bind at 1, ret at 1. rewrite Hq.
  unfold bind at 1, ret at 1.
  unfold bind at 1, get at 1. rewrite Hh0.
  unfold bind at 1. unfold bind at 1, poll_is_None, get at 1.
  rewrite Ha0. reflexivity.
Qed.

Lemma exit_round_index (inp : tick_input) (last : Q) (s : state) (pid : nat) :
  songs s <> [] ->
  ti_signal inp = false ->
  needs_full_redraw s = false ->
  Qle_bool 1 (ti_now inp - last) = false ->
  mpv_process s = Some pid ->
  ti_player_exits inp = true \/ alive s pid = false ->
  current_song_index (final_state (iteration inp last s))
  = (current_song_index s + 1) mod len_songs s /\
  songs (final_state (iteration inp last s)) = songs s.
Proof.
  intros Hne Hsig Hre Hq Hh Hgone.
  rewrite (exit_round_run inp last s pid Hsig Hre Hq Hh Hgone).
  set (s0 := if ti_player_exits inp then player_exits s else s).
  assert (K0 : same_tracks s s0).
  { unfold s0. destruct (ti_player_exits inp); [|split; reflexivity].
    apply (reach_tracks false), reach_player_exits. }
  destruct K0 as (Ks & Ki).
  assert (Hne0 : songs s0 <> []) by (rewrite Ks; exact Hne).
  unfold bind. rewrite (advance_run s0 Hne0).
  pose proof (play_song_fp false
                (set_current_song_index
                   ((current_song_index s0 + 1) mod len_songs s0) s0)) as R.
  apply reach_tracks in R. destruct R as (Rs & Ri).
  unfold len_songs in *.
  destruct (play_song _) as [a s1|e s1|s1]; cbn [final_state ret] in *;
    rewrite ?Rs, ?Ri;
    cbn [songs current_song_index set_current_song_index];
    rewrite Ks, Ki; split; reflexivity.
Qed.

(** A round is its two halves, after the signal and the change of the
    outside. *)
Lemma iteration_phases (inp : tick_input) (last : Q) (s : state) :
  iteration inp last s
  = ((if ti_signal inp then signal_handler else ret tt) ;;;
     (if ti_player_exits inp then modify player_exits else ret tt) ;;;
     l <~ refresh inp last ;;
     poll_and_act inp l) s.
Proof.
  unfold iteration, refresh, poll_and_act.
  unfold bind at 1. symmetry. unfold bind at 1. symmetry.
  destruct ((if ti_signal inp then signal_handler else ret tt) s)
    as [[] s1|e s1|s1]; [|reflexivity|reflexivity].
  unfold bind at 1. symmetry. unfold bind at 1. symmetry.
  destruct ((if ti_player_exits inp then modify player_exits else ret tt) s1)
    as [[] s2|e s2|s2]; [|reflexivity|reflexivity].
  symmetry. rewrite bind_assoc.
  unfold bind at 1. symmetry. unfold bind at 1.
  unfold get. symmetry. rewrite bind_assoc. reflexivity.
Qed.

(** Any round that finds the player gone: when its first half returns, the
    second half is the circular advance and the restart. *)
Lemma exit_round_general (inp : tick_input) (last : Q) (s : state)
    (pid : nat) :
  songs s <> [] ->
  ti_signal inp = false ->
  mpv_process s = Some pid ->
  ti_player_exits inp = true \/ alive s pid = false ->
  match refresh inp last (if ti_player_exits inp then player_exits s else s)
  with
  | Ok last2 sc =>
      iteration inp last s = (advance ;;; play_song ;;; ret last2) sc /\
      current_song_index (final_state (iteration inp last s))
      = (current_song_index s + 1) mod len_songs s /\
      songs (final_state (iteration inp last s)) = songs s
  | Raise e sc => iteration inp last s = Raise e sc
  | Pending sc => iteration inp last s = Pending sc
  end.
Proof.
  intros Hne Hsig Hh Hgone.
  set (s0 := if ti_player_exits inp then player_exits s else s).
  assert (Hstep : (if ti_player_exits inp then modify player_exits
                   else ret tt) s = Ok tt s0).
  { unfold s0. destruct (ti_player_exits inp); reflexivity. }
  assert (Q0 : quiet s s0 /\ same_tracks s s0).
  { unfold s0. destruct (ti_player_exits inp).
    - split; [apply (reach_quiet false)|apply (reach_tracks false)];
        apply reach_player_exits.
    - split; [apply quiet_refl|split; reflexivity]. }
  destruct Q0 as ((Qh & _) & (Ks & Ki)).
  assert (Ha0 : alive s0 pid = false).
  { unfold s0. destruct (ti_player_exits inp) eqn:Ex.
    - apply alive_after_player_exits, Hh.
    - destruct Hgone as [F|F]; [discriminate|exact F]. }
  assert (E : iteration inp last s
              = (l <~ refresh inp last ;; poll_and_act inp l) s0).
  { rewrite iteration_phases, Hsig. unfold bind at 1, ret at 1.
    unfold bind at 1. rewrite Hstep. reflexivity. }
  assert (R : reach (prim false false) s0
                (final_state (refresh inp last s0))).
  { assert (F : footprint false false (refresh inp last))
      by (unfold refresh; fp_auto).
    exact (F s0). }
  destruct (refresh inp last s0) as [last2 sc|e sc|sc] eqn:F;
    [|rewrite E; unfold bind at 1; rewrite F; reflexivity ..].
  assert (IT : iteration inp last s = poll_and_act inp last2 sc)
    by (rewrite E; unfold bind at 1; rewrite F; reflexivity).
  rewrite IT. clear IT E.
  cbn [final_state] in R.
  pose proof (reach_quiet false _ _ R) as (Rh & _ & _ & Ra).
  pose proof (reach_tracks false _ _ R) as (Rs & Ri).
  assert (Hdead : alive sc pid = false).
  { destruct (alive sc pid) eqn:A; [|reflexivity].
    rewrite (Ra pid A) in Ha0. discriminate. }
  assert (P : poll_and_act inp last2 sc
              = (advance ;;; play_song ;;; ret last2) sc).
  { unfold poll_and_act. unfold bind at 1, get at 1.
    rewrite Rh, Qh, Hh.
    unfold bind at 1. unfold bind at 1, poll_is_None, get at 1.
    rewrite Hdead. reflexivity. }
  split; [exact P|]. rewrite P.
  assert (Hnec : songs sc <> []) by (rewrite Rs, Ks; exact Hne).
  unfold bind. rewrite (advance_run sc Hnec).
  pose proof (play_song_fp false
                (set_current_song_index
                   ((current_song_index sc + 1) mod len_songs sc) sc)) as T.
  apply reach_tracks in T. destruct T as (Ts & Ti).
  unfold len_songs in *.
  destruct (play_song _) as [a s1|e s1|s1]; cbn [final_state ret] in *;
    rewrite ?Ts, ?Ti;
    cbn [songs current_song_index set_current_song_index];
    rewrite Rs, Ri, Ks, Ki; split; reflexivity.
Qed.

(** C1.  For every non-empty track list the circular advance sets the
    index to [(i + 1) mod len(tracks)]; the new index is within
    [0 <= i' < len(tracks)], and from the last index it is 0.  The 'next'
    key ends with exactly this index and leaves the track list as it is.
    So does the round of the main loop in which the player is found gone:
    a round without a signal, with no redraw pending and the status
    update not yet due reaches the test of the process, advances and
    restarts, whatever the restart does.  In general a round without a
    signal that finds the player gone does so as soon as its redraw and
    status update have returned, and ends as they do when they raise;
    and every round that finds the player gone and returns has advanced
    the index in this way. *)
Theorem circular_advance (s : state) :
  songs s <> [] ->
  advance s =
  Ok tt (set_current_song_index ((current_song_index s + 1) mod len_songs s) s)
  /\ 0 <= (current_song_index s + 1) mod len_songs s < len_songs s
  /\ (current_song_index s = len_songs s - 1 ->
      (current_song_index s + 1) mod len_songs s = 0)
  /\ (forall key,
         key_in key ["n"; "N"] = true ->
         current_song_index (final_state (on_key key s))
         = (current_song_index s + 1) mod len_songs s
         /\ songs (final_state (on_key key s)) = songs s)
  /\ (forall inp last last' s' pid,
         mpv_process s = Some pid ->
         ti_player_exits inp = true \/ alive s pid = false ->
         iteration inp last s = Ok last' s' ->
         current_song_index s'
         = (current_song_index s + 1) mod len_songs s
         /\ songs s' = songs s)
  /\ (forall inp last pid,
         ti_signal inp = false ->
         needs_full_redraw s = false ->
         Qle_bool 1 (ti_now inp - last) = false ->
         mpv_process s = Some pid ->
         ti_player_exits inp = true \/ alive s pid = false ->
         iteration inp last s
         = (advance ;;; play_song ;;; ret last)
             (if ti_player_exits inp then player_exits s else s)
         /\ current_song_index (final_state (iteration inp last s))
            = (current_song_index s + 1) mod len_songs s
         /\ songs (final_state (iteration inp last s)) = songs s)
  /\ (forall inp last pid,
         ti_signal inp = false ->
         mpv_process s = Some pid ->
         ti_player_exits inp = true \/ alive s pid = false ->
         match refresh inp last
                 (if ti_player_exits inp then player_exits s else s)
         with
         | Ok last2 sc =>
             iteration inp last s = (advance ;;; play_song ;;; ret last2) sc /\
             current_song_index (final_state (iteration inp last s))
             = (current_song_index s + 1) mod len_songs s /\
             songs (final_state (iteration inp last s)) = songs s
         | Raise e sc => iteration inp last s = Raise e sc
         | Pending sc => iteration inp last s = Pending sc
         end).
Proof.
  intros Hne. pose proof (len_songs_pos s Hne) as Hpos.
  split; [exact (advance_run s Hne)|].
  split; [apply Z.mod_pos_bound; exact Hpos|].
  split.
  { intros ->. replace (len_songs s - 1 + 1) with (len_songs s) by lia.
    apply Z.mod_same. lia. }
  split; [intros key; apply next_key_index; exact Hne|].
  split.
  { intros inp last last' s' pid Hh Hgone H.
    destruct (iteration_exit_path _ _ _ _ _ _ Hh Hgone H)
      as (s1 & (Ks & Ki) & Hrun).
    assert (Hne1 : songs s1 <> []) by (rewrite Ks; exact Hne).
    destruct (advance_then_play s1 s' Hne1 Hrun) as (Hi & Hs).
    unfold len_songs in *. rewrite Hi, Hs, Ks, Ki. split; reflexivity. }
  split.
  { intros inp last pid Hsig Hre Hq Hh Hgone.
    split; [exact (exit_round_run inp last s pid Hsig Hre Hq Hh Hgone)|].
    exact (exit_round_index inp last s pid Hne Hsig Hre Hq Hh Hgone). }
  intros inp last pid Hsig Hh Hgone.
  exact (exit_round_general inp last s pid Hne Hsig Hh Hgone).
Qed.

Lemma circular_advance_witness :
  songs (playing answering 2) <> [] /\
  advance (playing answering 2) =
  Ok tt (set_current_song_index
           ((current_song_index (playing answering 2) + 1)
              mod len_songs (playing answering 2))
           (playing answering 2)) /\
  (current_song_index (playing answering 2) + 1)
    mod len_songs (playing answering 2) = 0 /\
  iteration (mktick 0 false true None) 0 (playing answering 2)
  = Ok 0%Q (final_state
              (iteration (mktick 0 false true None) 0 (playing answering 2))) /\
  current_song_index
    (final_state
       (iteration (mktick 0 false true None) 0 (playing answering 2)))
  = (current_song_index (playing answering 2) + 1)
      mod len_songs (playing answering 2).
Proof.
  assert (Hne : songs (playing answering 2) <> []) by discriminate.
  destruct (circular_advance (playing answering 2) Hne)
    as (H1 & _ & H3 & _ & _ & H6 & _).
  split; [exact Hne|]. split; [exact H1|].
  split; [apply H3; reflexivity|].
  split; [vm_compute; reflexivity|].
  exact (proj1 (proj2 (H6 (mktick 0 false true None) 0%Q 0%nat
                          eq_refl eq_refl eq_refl eq_refl
                          (or_introl eq_refl)))).
Defined.

(** The scenario of the specification: tracks a, b, c, start at 0, 'next'
    pressed twice. *)
Lemma next_twice_scenario :
  current_song_index (final_state (on_key "n" (playing answering 0))) = 1 /\
  current_song_index
    (final_state (on_key "n" (final_state (on_key "n" (playing answering 0)))))
  = 2.
Proof. split; vm_compute; reflexivity. Qed.

(** The scenario of the specification: the player exits while the last
    track plays; the same round restarts at index 0. *)
Lemma exit_on_last_track_scenario :
  current_song_index
    (final_state
       (iteration (mktick 0 false true None) 0 (playing answering 2)))
  = 0.
Proof. vm_compute. reflexivity. Qed.

(** ** Keys *)

Lemma key_in_app (key : string) (l1 l2 : list string) :
  key_in key (l1 ++ l2) = key_in key l1 || key_in key l2.
Proof. unfold key_in. apply existsb_app. Qed.

Lemma unrecognized_tests (key : string) :
  key_in key command_keys = false ->
  key_in key ["l"; "L"] = false /\ key_in key ["d"; "D"] = false /\
  key_in key ["n"; "N"] = false /\ key_in key ["s"; "S"] = false /\
  key_in key ["c"; "C"] = false /\ key_in key ["q"; "Q"] = false /\
  key_in key ["p"; "P"; " "] = false /\ key_in key ["b"; "B"] = false /\
  key_in key ["f"; "F"] = false /\
  key_in key ["p"; "P"; " "; "b"; "B"; "f"; "F"; "l"; "L"; "d"; "D"] = false.
Proof.
  unfold key_in, command_keys. cbn [existsb].
  intros H. repeat (apply orb_false_iff in H; destruct H as [? H]).
  repeat split; repeat (apply orb_false_iff; split); auto.
Qed.

(** C6, as amended.  A keystroke that is none of the command keys leaves
    folder, track list and index as they are, sends no command, writes no
    log and restarts nothing: the state afterwards is the state before with
    the full-redraw flag set, so the next round redraws the screen. *)
Theorem unrecognized_key_only_redraws (key : string) (s : state) :
  key_in key command_keys = false ->
  on_key key s = Ok tt (set_needs_full_redraw true s) /\
  session (final_state (on_key key s)) = session s /\
  trace (final_state (on_key key s)) = trace s /\
  likes_file (final_state (on_key key s)) = likes_file s /\
  dislikes_file (final_state (on_key key s)) = dislikes_file s /\
  needs_full_redraw (final_state (on_key key s)) = true.
Proof.
  intros H.
  destruct (unrecognized_tests key H)
    as (H1 & H2 & H3 & H4 & H5 & H6 & H7 & H8 & H9 & H10).
  assert (E : on_key key s = Ok tt (set_needs_full_redraw true s)).
  { unfold on_key. rewrite H1, H2, H3, H4, H5, H6, H7, H8, H9, H10.
    reflexivity. }
  rewrite E. repeat split.
Qed.

Lemma unrecognized_key_only_redraws_witness :
  key_in "x" command_keys = false /\
  on_key "x" (playing answering 0)
  = Ok tt (set_needs_full_redraw true (playing answering 0)).
Proof.
  assert (H : key_in "x" command_keys = false) by reflexivity.
  split; [exact H|].
  exact (proj1 (unrecognized_key_only_redraws "x" (playing answering 0) H)).
Defined.

(** C6, counterexample to the claim as stated: the key [x] is no command
    key, nothing is to be redrawn before it is handled, and afterwards the
    full-redraw flag is set; the next round clears and redraws the
    screen. *)
Lemma unrecognized_key_triggers_redraw :
  key_in "x" command_keys = false /\
  needs_full_redraw (playing answering 0) = false /\
  needs_full_redraw (final_state (on_key "x" (playing answering 0))) = true /\
  on_key "x" (playing answering 0) <> Ok tt (playing answering 0) /\
  existsb (fun a => match a with ClearScreen => true | _ => false end)
    (trace (final_state
              (loop [mktick 0 false false (Some "x");
                     mktick 0 false false None] 0 (playing answering 0))))
  = true.
Proof.
  split; [reflexivity|]. split; [reflexivity|]. split; [reflexivity|].
  split; [|vm_compute; reflexivity].
  vm_compute. intros H. discriminate H.
Qed.

(** ** Like and dislike *)

Lemma show_feedback_run (message color_code : string) (s : state) :
  exists s',
    show_feedback message color_code s = Ok tt s' /\
    trace s' = (trace s ++ [StdoutWrite (flash_on s message color_code);
                            Sleep 1; StdoutWrite (flash_off s)])%list /\
    session s' = session s /\
    likes_file s' = likes_file s /\
    dislikes_file s' = dislikes_file s /\
    needs_full_redraw s' = needs_full_redraw s.
Proof.
  unfold show_feedback, sleep, bind, get, emit, modify.
  match goal with |- context [settle ?x] =>
    destruct (settle_shape x) as (p & e & ->) end.
  eexists. split; [reflexivity|].
  cbn [trace session likes_file dislikes_file needs_full_redraw
       current_folder songs current_song_index
       set_trace set_endpoint set_procs].
  rewrite <- !app_assoc. repeat split.
Qed.

Lemma log_current_run (file : string) (s : state) (song : path) :
  py_index (songs s) (current_song_index s) = Val song ->
  log_current file s =
  Ok tt (if String.eqb file LIKES_FILE
         then set_likes_file (likes_file s ++ log_line s song)
                (set_trace (trace s ++ [Append file (log_line s song)]) s)
         else set_dislikes_file (dislikes_file s ++ log_line s song)
                (set_trace (trace s ++ [Append file (log_line s song)]) s)).
Proof.
  intros H. unfold log_current, bind, get, lift. rewrite H.
  cbn [ret]. unfold emit, modify.
  destruct (String.eqb file LIKES_FILE); reflexivity.
Qed.

Lemma like_run (key : string) (s : state) (song : path) :
  py_index (songs s) (current_song_index s) = Val song ->
  key = "l" \/ key = "L" ->
  exists s',
    on_key key s = Ok tt s' /\
    likes_file s' = likes_file s ++ log_line s song /\
    dislikes_file s' = dislikes_file s /\
    session s' = session s /\
    needs_full_redraw s' = needs_full_redraw s /\
    trace s' = (trace s ++ [Append LIKES_FILE (log_line s song);
                            StdoutWrite (flash_on s "Liked!" "1;32");
                            Sleep 1; StdoutWrite (flash_off s)])%list.
Proof.
  intros H Hk.
  assert (E : on_key key s =
              ((log_current LIKES_FILE ;;; show_feedback "Liked!" "1;32") ;;;
               ret tt) s)
    by (destruct Hk as [->| ->]; reflexivity).
  rewrite E. clear E. unfold bind.
  rewrite (log_current_run _ _ _ H).
  change (String.eqb LIKES_FILE LIKES_FILE) with true. cbn iota.
  match goal with |- context [show_feedback ?m ?c ?x] =>
    destruct (show_feedback_run m c x) as (s' & -> & T & S & L & D & R) end.
  exists s'. split; [reflexivity|].
  rewrite T, S, L, D, R.
  cbn [trace session likes_file dislikes_file needs_full_redraw
       current_folder songs current_song_index set_trace set_likes_file].
  rewrite <- app_assoc. repeat split.
Qed.

Lemma dislike_run (key : string) (s : state) (song : path) :
  py_index (songs s) (current_song_index s) = Val song ->
  key = "d" \/ key = "D" ->
  exists s',
    on_key key s = Ok tt s' /\
    dislikes_file s' = dislikes_file s ++ log_line s song /\
    likes_file s' = likes_file s /\
    session s' = session s /\
    needs_full_redraw s' = needs_full_redraw s /\
    trace s' = (trace s ++ [Append DISLIKES_FILE (log_line s song);
                            StdoutWrite (flash_on s "Disliked!" "1;31");
                            Sleep 1; StdoutWrite (flash_off s)])%list.
Proof.
  intros H Hk.
  assert (E : on_key key s =
              ((log_current DISLIKES_FILE ;;;
                show_feedback "Disliked!" "1;31") ;;; ret tt) s)
    by (destruct Hk as [->| ->]; reflexivity).
  rewrite E. clear E. unfold bind.
  rewrite (log_current_run _ _ _ H).
  change (String.eqb DISLIKES_FILE LIKES_FILE) with false. cbn iota.
  match goal with |- context [show_feedback ?m ?c ?x] =>
    destruct (show_feedback_run m c x) as (s' & -> & T & S & L & D & R) end.
  exists s'. split; [reflexivity|].
  rewrite T, S, L, D, R.
  cbn [trace session likes_file dislikes_file needs_full_redraw
       current_folder songs current_song_index set_trace set_dislikes_file].
  rewrite <- app_assoc. repeat split.
Qed.

Lemma key_in_two (key a b : string) :
  key_in key [a; b] = true -> key = a \/ key = b.
Proof.
  unfold key_in. cbn [existsb]. rewrite orb_false_r.
  intros H. apply orb_true_iff in H.
  destruct H as [H|H]; apply String.eqb_eq in H; auto.
Qed.

(** C8.  In the playing state a 'like' key appends exactly the one line
    [folder/track-name] of the current track to the likes log, a 'dislike'
    key to the dislikes log; the other log, folder, track list and index
    are as before, the full-redraw flag is not touched, and all that
    reaches the terminal is the flash: the message, a pause of one second,
    and its removal. *)
Theorem like_dislike_logs_one_line (s : state) (song : path) (key : string) :
  py_index (songs s) (current_song_index s) = Val song ->
  (key_in key ["l"; "L"] = true ->
   exists s',
     on_key key s = Ok tt s' /\
     likes_file s' = likes_file s ++ log_line s song /\
     dislikes_file s' = dislikes_file s /\
     session s' = session s /\
     needs_full_redraw s' = needs_full_redraw s /\
     trace s' = (trace s ++ [Append LIKES_FILE (log_line s song);
                             StdoutWrite (flash_on s "Liked!" "1;32");
                             Sleep 1; StdoutWrite (flash_off s)])%list) /\
  (key_in key ["d"; "D"] = true ->
   exists s',
     on_key key s = Ok tt s' /\
     dislikes_file s' = dislikes_file s ++ log_line s song /\
     likes_file s' = likes_file s /\
     session s' = session s /\
     needs_full_redraw s' = needs_full_redraw s /\
     trace s' = (trace s ++ [Append DISLIKES_FILE (log_line s song);
                             StdoutWrite (flash_on s "Disliked!" "1;31");
                             Sleep 1; StdoutWrite (flash_off s)])%list).
Proof.
  intros H. split; intros Hk; apply key_in_two in Hk.
  - exact (like_run key s song H Hk).
  - exact (dislike_run key s song H Hk).
Qed.

Lemma like_dislike_logs_one_line_witness :
  py_index (songs playing_y) (current_song_index playing_y)
  = Val (mkpath "X" "y.mp3") /\
  key_in "l" ["l"; "L"] = true /\
  log_line playing_y (mkpath "X" "y.mp3")
  = "X/y.mp3" ++ String "010"%char EmptyString /\
  exists s',
    on_key "l" playing_y = Ok tt s' /\
    likes_file s' = likes_file playing_y ++ log_line playing_y (mkpath "X" "y.mp3") /\
    needs_full_redraw s' = false.
Proof.
  assert (H : py_index (songs playing_y) (current_song_index playing_y)
              = Val (mkpath "X" "y.mp3")) by reflexivity.
  assert (K : key_in "l" ["l"; "L"] = true) by reflexivity.
  split; [exact H|]. split; [exact K|]. split; [reflexivity|].
  destruct (proj1 (like_dislike_logs_one_line playing_y _ "l" H) K)
    as (s' & E & L & _ & _ & R & _).
  exists s'. split; [exact E|]. split; [exact L|]. exact R.
Defined.

(** ** The control channel *)

Lemma send_without_socket (command : pyval) (s : state) :
  endpoint s = None -> send_mpv_command command s = Ok VNone s.
Proof.
  intros H. unfold send_mpv_command, bind, socket_exists, get.
  rewrite H. reflexivity.
Qed.

Lemma send_with_socket (command : pyval) (s : state) :
  endpoint s <> None ->
  exists s',
    send_mpv_command command s =
    match exchange_error (json_loads (env s)) (next_script s) with
    | Some c =>
        if existsb (issubclass c) soft_errors then Ok VNone s'
        else Raise (Exc c) s'
    | None => Ok (exchange_reply (json_loads (env s)) (next_script s)) s'
    end.
Proof.
  intros H.
  unfold send_mpv_command, bind at 1, socket_exists, get.
  destruct (endpoint s) as [o|] eqn:E; [clear H|congruence].
  cbn [negb].
  unfold exchange_error, exchange_reply, next_script, try_catch, bind, get,
    raise_if, emit, modify, raise, ret.
  cbn [env chan_count set_chan_count set_trace].
  destruct (chan_plan (env s) (chan_count s)) as [sk cn sa rv].
  cbn [cs_socket cs_connect cs_sendall cs_recv].
  destruct sk as [c|]; [unfold caught_by, soft_errors;
    destruct (existsb _ _); eexists; reflexivity|].
  destruct cn as [c|]; [unfold caught_by, soft_errors;
    destruct (existsb _ _); eexists; reflexivity|].
  destruct sa as [c|]; [unfold caught_by, soft_errors;
    destruct (existsb _ _); eexists; reflexivity|].
  destruct rv as [c|data]; [unfold caught_by, soft_errors;
    destruct (existsb _ _); eexists; reflexivity|].
  destruct (String.eqb data EmptyString); cbn [negb];
    [eexists; reflexivity|].
  cbn [env set_trace set_chan_count].
  destruct (json_loads (env s) data); eexists; reflexivity.
Qed.

(** C2, as amended.  When the socket file does not exist the send returns
    none at once and changes nothing.  Otherwise: when a step of the
    exchange fails with a refused connection, a missing file, a broken
    pipe or a timeout, it returns none; when all steps succeed it returns
    the decoded reply, or none for an empty reply; an error of any other
    class, such as a connection reset by the player or a reply that does
    not decode, is raised to the caller. *)
Theorem send_mpv_command_outcomes (command : pyval) (s : state) :
  (endpoint s = None -> send_mpv_command command s = Ok VNone s) /\
  (endpoint s <> None ->
   forall c, exchange_error (json_loads (env s)) (next_script s) = Some c ->
             In c soft_errors ->
             exists s', send_mpv_command command s = Ok VNone s') /\
  (endpoint s <> None ->
   exchange_error (json_loads (env s)) (next_script s) = None ->
   exists s',
     send_mpv_command command s
     = Ok (exchange_reply (json_loads (env s)) (next_script s)) s') /\
  (endpoint s <> None ->
   forall c, exchange_error (json_loads (env s)) (next_script s) = Some c ->
             existsb (issubclass c) soft_errors = false ->
             exists s', send_mpv_command command s = Raise (Exc c) s').
Proof.
  split; [apply send_without_socket|].
  split; [|split].
  - intros H c Hc Hin.
    destruct (send_with_socket command s H) as (s' & E).
    rewrite Hc in E.
    assert (existsb (issubclass c) soft_errors = true) as Hs.
    { apply existsb_exists. exists c. split; [exact Hin|].
      destruct Hin as [<-|[<-|[<-|[<-|[]]]]]; reflexivity. }
    rewrite Hs in E. eauto.
  - intros H Hc.
    destruct (send_with_socket command s H) as (s' & E).
    rewrite Hc in E. eauto.
  - intros H c Hc Hs.
    destruct (send_with_socket command s H) as (s' & E).
    rewrite Hc, Hs in E. eauto.
Qed.

Lemma send_mpv_command_outcomes_witness :
  endpoint (playing refusing 0) <> None /\
  exchange_error (json_loads (env (playing refusing 0)))
                 (next_script (playing refusing 0))
  = Some ConnectionRefusedError_ /\
  In ConnectionRefusedError_ soft_errors /\
  (exists s', send_mpv_command (VStr "x") (playing refusing 0) = Ok VNone s') /\
  endpoint (playing answering 0) <> None /\
  exchange_error (json_loads (env (playing answering 0)))
                 (next_script (playing answering 0)) = None /\
  exists s', send_mpv_command (VStr "x") (playing answering 0)
             = Ok reply_value s'.
Proof.
  assert (H1 : endpoint (playing refusing 0) <> None) by discriminate.
  assert (H2 : exchange_error (json_loads (env (playing refusing 0)))
                 (next_script (playing refusing 0))
               = Some ConnectionRefusedError_) by reflexivity.
  assert (H3 : In ConnectionRefusedError_ soft_errors) by (left; reflexivity).
  assert (H4 : endpoint (playing answering 0) <> None) by discriminate.
  assert (H5 : exchange_error (json_loads (env (playing answering 0)))
                 (next_script (playing answering 0)) = None)
    by (vm_compute; reflexivity).
  split; [exact H1|]. split; [exact H2|]. split; [exact H3|].
  split.
  { exact (proj1 (proj2 (send_mpv_command_outcomes (VStr "x")
                           (playing refusing 0))) H1 _ H2 H3). }
  split; [exact H4|]. split; [exact H5|].
  exact (proj1 (proj2 (proj2 (send_mpv_command_outcomes (VStr "x")
                                (playing answering 0)))) H4 H5).
Defined.

(** C2, counterexample to the claim as stated: the socket file exists, the
    player closes the connection while its reply is awaited, and the
    [ConnectionResetError] reaches the caller; so does the
    [JSONDecodeError] of a reply that is not valid JSON. *)
Lemma connection_reset_propagates :
  endpoint (playing reset_by_peer 0) <> None /\
  (exists s',
      send_mpv_command (VDict [("command", VList [VStr "cycle"; VStr "pause"])])
        (playing reset_by_peer 0)
      = Raise (Exc ConnectionResetError_) s') /\
  (exists s',
      send_mpv_command (VDict [("command", VList [VStr "cycle"; VStr "pause"])])
        (playing (mkscript None None None (inr "not json")) 0)
      = Raise (Exc JSONDecodeError_) s').
Proof.
  split; [discriminate|]. split; eexists; vm_compute; reflexivity.
Qed.

(** ** Starting twice *)

(** C4, as amended.  Every start re-establishes the invariant that at
    most one managed player process is alive, however the start ends, and
    the invariant holds throughout every run of [main].  Two starts in
    succession leave at most one live process.  They leave exactly one,
    the one the handle names, with the socket file bound by it, when the
    player spawned by the second start comes up: it stays alive during
    the settle interval and opens its socket.  When that player is gone
    within the settle interval no managed process is alive, and when it
    does not open its socket there is no socket file. *)
Theorem one_player_after_start :
  (forall s, at_most_one_live s ->
             at_most_one_live (final_state (play_song s))) /\
  (forall e fzf answers socket likes dislikes ticks,
      at_most_one_live
        (final_state
           (main ticks (initial e fzf answers socket likes dislikes)))) /\
  (forall s s1 s2,
      at_most_one_live s ->
      play_song s = Ok tt s1 ->
      play_song s1 = Ok tt s2 ->
      (forall p q, alive s2 p = true -> alive s2 q = true -> p = q) /\
      (comes_up (spawn_plan (env s1) (List.length (procs s1))) ->
       exists pid,
         mpv_process s2 = Some pid /\
         (forall q, alive s2 q = true <-> q = pid) /\
         endpoint s2 = Some (BoundBy pid)) /\
      (sb_exits_early (spawn_plan (env s1) (List.length (procs s1))) = true ->
       forall q, alive s2 q = false) /\
      (sb_binds (spawn_plan (env s1) (List.length (procs s1))) = false ->
       endpoint s2 = None)).
Proof.
  split; [exact play_song_at_most_one_live|].
  split.
  { intros e fzf answers socket likes dislikes ticks.
    pose proof (main_one_live ticks _
                  (initial_one_live e fzf answers socket likes dislikes)) as H.
    destruct (main ticks _); exact H. }
  intros s s1 s2 Hinv H1 H2.
  assert (Hinv1 : at_most_one_live s1).
  { pose proof (play_song_at_most_one_live s Hinv) as H.
    rewrite H1 in H. exact H. }
  destruct (play_song_ok s1 s2 Hinv1 H2) as (Hh & Hone & Hup).
  split.
  { intros p q Hp Hq. rewrite (Hone p Hp), (Hone q Hq). reflexivity. }
  split; [|exact (play_song_gone s1 s2 Hinv1 H2)].
  intros Hc. destruct (Hup Hc) as (Ha & He).
  exists (List.length (procs s1)).
  split; [exact Hh|]. split; [|exact He].
  intros q. split; [apply Hone|intros ->; exact Ha].
Qed.

Lemma playing_one_live (chan : chan_script) (index : Z) :
  at_most_one_live (playing chan index).
Proof.
  intros [|[|q]] H; [reflexivity|discriminate H|discriminate H].
Qed.

Lemma one_player_after_start_witness :
  at_most_one_live (playing answering 0) /\
  play_song (playing answering 0)
  = Ok tt (final_state (play_song (playing answering 0))) /\
  play_song (final_state (play_song (playing answering 0)))
  = Ok tt (final_state
             (play_song (final_state (play_song (playing answering 0))))) /\
  comes_up (spawn_plan (env (final_state (play_song (playing answering 0))))
              (List.length
                 (procs (final_state (play_song (playing answering 0)))))) /\
  exists pid,
    mpv_process
      (final_state (play_song (final_state (play_song (playing answering 0)))))
    = Some pid /\
    endpoint
      (final_state (play_song (final_state (play_song (playing answering 0)))))
    = Some (BoundBy pid).
Proof.
  assert (H0 : at_most_one_live (playing answering 0))
    by apply playing_one_live.
  assert (H1 : play_song (playing answering 0)
               = Ok tt (final_state (play_song (playing answering 0))))
    by (vm_compute; reflexivity).
  assert (H2 : play_song (final_state (play_song (playing answering 0)))
               = Ok tt (final_state
                          (play_song
                             (final_state (play_song (playing answering 0))))))
    by (vm_compute; reflexivity).
  assert (H3 : comes_up
                 (spawn_plan
                    (env (final_state (play_song (playing answering 0))))
                    (List.length
                       (procs (final_state (play_song (playing answering 0)))))))
    by (vm_compute; auto).
  split; [exact H0|]. split; [exact H1|]. split; [exact H2|].
  split; [exact H3|].
  destruct (proj1 (proj2 (proj2 (proj2 one_player_after_start)
                             _ _ _ H0 H1 H2)) H3)
    as (pid & Hh & _ & He).
  exists pid. split; [exact Hh|exact He].
Defined.

(** C4, counterexample to the claim as stated: a player that is gone
    again before the settle interval is over.  Both starts return, and
    after the second one neither of the two spawned processes is alive
    and there is no socket file: not one live player and one valid
    endpoint, but none. *)
Lemma two_starts_leave_no_player :
  at_most_one_live short_lived_start /\
  play_song short_lived_start
  = Ok tt (final_state (play_song short_lived_start)) /\
  play_song (final_state (play_song short_lived_start))
  = Ok tt (final_state
             (play_song (final_state (play_song short_lived_start)))) /\
  List.length
    (procs (final_state
              (play_song (final_state (play_song short_lived_start)))))
  = 2%nat /\
  (forall q,
      alive (final_state
               (play_song (final_state (play_song short_lived_start)))) q
      = false) /\
  endpoint (final_state
              (play_song (final_state (play_song short_lived_start))))
  = None.
Proof.
  split.
  { intros [|pid] H; discriminate H. }
  split; [vm_compute; reflexivity|].
  split; [vm_compute; reflexivity|].
  split; [vm_compute; reflexivity|].
  split; [|vm_compute; reflexivity].
  intros [|[|[|q]]]; vm_compute; reflexivity.
Qed.

(** The player may also be gone again at once; then no managed process is
    alive after the start, and the loop will find that out. *)
Lemma short_lived_player_scenario :
  let s := set_songs tracks_abc (initial short_lived_env [] [] None
                                   EmptyString EmptyString) in
  play_song s = Ok tt (final_state (play_song s)) /\
  alive (final_state (play_song s)) 0 = false.
Proof. split; vm_compute; reflexivity. Qed.

(** C3, at a concrete state: a stubborn player is terminated, waited for
    and killed, its socket file removed, and the next track started. *)
Lemma play_song_sequence_witness :
  py_index (songs playing_stubborn) (current_song_index playing_stubborn)
  = Val (mkpath "X" "b.mp3") /\
  trace (final_state (play_song playing_stubborn))
  = [Terminate 0; Wait 0 2; Kill 0; Unlink;
     Popen ["mpv"; "--no-video"; "--quiet"; "--input-terminal=no";
            "--input-ipc-server=/tmp/mpv-musicplayer"; "X/b.mp3"];
     Sleep 1].
Proof.
  assert (H : py_index (songs playing_stubborn)
                (current_song_index playing_stubborn)
              = Val (mkpath "X" "b.mp3")) by reflexivity.
  split; [exact H|].
  rewrite (proj1 (play_song_sequence playing_stubborn _ H)).
  reflexivity.
Defined.

(** ** Shutdown *)

Lemma quit_is_cleanup (key : string) (s : state) :
  key_in key ["q"; "Q"] = true -> on_key key s = cleanup s.
Proof.
  intros Hk. apply key_in_two in Hk.
  assert (E : on_key key s =
              (cleanup ;;; modify (set_needs_full_redraw true)) s)
    by (destruct Hk as [->| ->]; reflexivity).
  rewrite E. unfold bind.
  destruct (cleanup_run s) as (s' & -> & _). reflexivity.
Qed.







(* --------------------------------------------------------------------- *)
(** ** What the functions write                                            *)
(* --------------------------------------------------------------------- *)

Import Behaviour.

Lemma trace_settle (s : state) : trace (settle s) = trace s.
Proof. destruct (settle_shape s) as (p & e & ->). reflexivity. Qed.

Lemma trace_player_exits (s : state) : trace (player_exits s) = trace s.
Proof.
  unfold player_exits. destruct (mpv_process s) as [pid|]; auto.
  destruct (alive s pid); auto. apply trace_exit_proc.
Qed.

Section Emits.
Variable P : action -> Prop.

Lemma em_ret {A} (a : A) : emits P (ret a).
Proof. intros s. exists []. rewrite app_nil_r. auto. Qed.

Lemma em_raise {A} (e : exn) : emits P (@raise A e).
Proof. intros s. exists []. rewrite app_nil_r. auto. Qed.

Lemma em_pending {A} : emits P (fun s => @Pending A s).
Proof. intros s. exists []. rewrite app_nil_r. auto. Qed.

Lemma em_get {A} (f : state -> A) : emits P (get f).
Proof. intros s. exists []. rewrite app_nil_r. auto. Qed.

Lemma em_lift {A} (r : res A) : emits P (lift r).
Proof. destruct r; intros s; exists []; rewrite app_nil_r; auto. Qed.

Lemma em_modify (f : state -> state) :
  (forall s, trace (f s) = trace s) -> emits P (modify f).
Proof.
  intros H s. exists []. rewrite app_nil_r. cbn [modify final_state]. auto.
Qed.

Lemma em_emit (a : action) : P a -> emits P (emit a).
Proof. intros H s. exists [a]. split; [reflexivity|auto]. Qed.

Lemma em_bind {A B} (m : M A) (k : A -> M B) :
  emits P m -> (forall a, emits P (k a)) -> emits P (bind m k).
Proof.
  intros Hm Hk s. unfold bind. destruct (Hm s) as (t & Ht & Pt).
  destruct (m s) as [a s'|e s'|s']; cbn [final_state] in *; eauto.
  destruct (Hk a s') as (t' & Ht' & Pt').
  exists (t ++ t')%list. rewrite Ht', Ht, app_assoc.
  split; [reflexivity|]. apply Forall_app. auto.
Qed.

Lemma em_try_catch {A} (body handler : M A) (handlers : list exc_class) :
  emits P body -> emits P handler ->
  emits P (try_catch body handlers handler).
Proof.
  intros Hb Hh s. unfold try_catch. destruct (Hb s) as (t & Ht & Pt).
  destruct (body s) as [a s'|e s'|s']; cbn [final_state] in *; eauto.
  destruct (caught_by handlers e); cbn [final_state]; eauto.
  destruct (Hh s') as (t' & Ht' & Pt').
  exists (t ++ t')%list. rewrite Ht', Ht, app_assoc.
  split; [reflexivity|]. apply Forall_app. auto.
Qed.

End Emits.

Create HintDb em.

Ltac em_quiet :=
  intros; cbv beta;
  first
    [ reflexivity
    | apply trace_settle
    | apply trace_update_proc
    | apply trace_exit_proc
    | apply trace_player_exits ].

Ltac em_step :=
  first
    [ apply em_ret | apply em_raise | apply em_get | apply em_lift
    | apply em_pending
    | solve [ auto 1 with em nocore ]
    | apply em_emit; solve [ exact I | reflexivity | simpl; auto ]
    | apply em_bind; [|intros ?]
    | apply em_try_catch
    | apply em_modify; solve [ em_quiet ]
    | match goal with
      | |- emits _ (if ?b then _ else _) => destruct b
      | |- emits _ (match ?x with _ => _ end) => destruct x
      | |- emits _ (let '(_, _) := ?x in _) => destruct x
      end ].

Ltac em_auto := repeat em_step.

Lemma emit_all_screen (l : list action) :
  Forall on_screen l -> emits on_screen (emit_all l).
Proof.
  induction 1 as [|a l Ha Hl IH]; simpl; [apply em_ret|].
  apply em_bind; [apply em_emit; exact Ha|intros _; exact IH].
Qed.

Lemma song_rows_screen (i current : Z) (l : list path) :
  Forall on_screen (song_rows i current l).
Proof.
  revert i. induction l as [|p l IH]; intros i; simpl; constructor; auto.
  exact I.
Qed.

Lemma draw_full_interface_screen : emits on_screen draw_full_interface.
Proof.
  unfold draw_full_interface. em_auto.
  apply emit_all_screen, song_rows_screen.
Qed.

Lemma update_progress_display_screen (a b c : pyval) :
  emits on_screen (update_progress_display a b c).
Proof. unfold update_progress_display. em_auto. Qed.

Lemma show_feedback_screen (message color_code : string) :
  emits on_screen (show_feedback message color_code).
Proof. unfold show_feedback, sleep. em_auto. Qed.

Lemma send_mpv_command_sends (command : pyval) :
  emits (only_sends command) (send_mpv_command command).
Proof. unfold send_mpv_command, raise_if. em_auto. Qed.

Lemma cleanup_grows : emits anything cleanup.
Proof.
  unfold cleanup, poll_is_None, terminate, wait, kill, socket_exists, unlink,
    show_cursor.
  em_auto.
Qed.

Lemma grows_ext {A} (m : M A) (s : state) :
  emits anything m ->
  exists t, trace (final_state (m s)) = (trace s ++ t)%list.
Proof. intros H. destruct (H s) as (t & Ht & _). eauto. Qed.

(* --------------------------------------------------------------------- *)
(** ** The channel, seen from its callers                                  *)
(* --------------------------------------------------------------------- *)

(** The state after a send differs from the state before at most in the
    count of exchanges and in the one command on the trace. *)
Lemma send_mpv_command_state (command : pyval) (s : state) :
  final_state (send_mpv_command command s) = s \/
  final_state (send_mpv_command command s)
  = set_chan_count (S (chan_count s)) s \/
  final_state (send_mpv_command command s)
  = set_trace (trace s ++ [SockSend command])
      (set_chan_count (S (chan_count s)) s).
Proof.
  unfold send_mpv_command, bind, socket_exists, get.
  destruct (endpoint s) as [o|]; [|left; reflexivity].
  cbn [negb].
  unfold try_catch, raise_if, emit, modify, raise, ret.
  cbn [env chan_count set_chan_count set_trace].
  destruct (chan_plan (env s) (chan_count s)) as [sk cn sa rv].
  cbn [cs_socket cs_connect cs_sendall cs_recv].
  destruct sk as [c|];
    [destruct (caught_by _ _); right; left; reflexivity|].
  destruct cn as [c|];
    [destruct (caught_by _ _); right; left; reflexivity|].
  destruct sa as [c|];
    [destruct (caught_by _ _); right; left; reflexivity|].
  destruct rv as [c|data];
    [destruct (caught_by _ _); right; right; reflexivity|].
  destruct (String.eqb data EmptyString); cbn [negb];
    [right; right; reflexivity|].
  cbn [env set_trace set_chan_count].
  destruct (json_loads (env s) data); right; right; reflexivity.
Qed.

Lemma send_then_ret (command : pyval) (s : state) :
  final_state ((send_mpv_command command ;;; ret tt) s)
  = final_state (send_mpv_command command s).
Proof.
  unfold bind. destruct (send_mpv_command command s); reflexivity.
Qed.

Lemma key_in_three (key a b c : string) :
  key_in key [a; b; c] = true -> key = a \/ key = b \/ key = c.
Proof.
  unfold key_in. cbn [existsb]. rewrite orb_false_r.
  intros H. apply orb_true_iff in H. destruct H as [H|H].
  - apply String.eqb_eq in H. auto.
  - apply orb_true_iff in H.
    destruct H as [H|H]; apply String.eqb_eq in H; auto.
Qed.

Lemma control_key_run (key : string) (s : state) :
  key_in key ["p"; "P"; " "; "b"; "B"; "f"; "F"] = true ->
  on_key key s = (send_mpv_command (key_command key) ;;; ret tt) s.
Proof.
  intros H.
  change ["p"; "P"; " "; "b"; "B"; "f"; "F"]
    with (["p"; "P"; " "] ++ ["b"; "B"] ++ ["f"; "F"])%list in H.
  rewrite !key_in_app in H.
  apply orb_true_iff in H. destruct H as [H|H].
  { apply key_in_three in H.
    destruct H as [->|[->| ->]]; unfold on_key, bind;
      cbn [key_in existsb String.eqb Ascii.eqb Bool.eqb orb negb key_command];
      destruct (send_mpv_command _ s); reflexivity. }
  apply orb_true_iff in H. destruct H as [H|H]; apply key_in_two in H;
    destruct H as [->| ->]; unfold on_key, bind;
    cbn [key_in existsb String.eqb Ascii.eqb Bool.eqb orb negb key_command];
    destruct (send_mpv_command _ s); reflexivity.
Qed.

(** X1.  The pause and seek keys only forward one command to the player:
    whatever the channel does, folder, track list, index, redraw flag,
    both logs, the process table, the handle and the socket file are as
    before, and the trace has grown by nothing or by that one command. *)
Theorem control_keys_only_send (key : string) (s : state) :
  key_in key ["p"; "P"; " "; "b"; "B"; "f"; "F"] = true ->
  let s' := final_state (on_key key s) in
  session s' = session s /\
  needs_full_redraw s' = needs_full_redraw s /\
  likes_file s' = likes_file s /\ dislikes_file s' = dislikes_file s /\
  procs s' = procs s /\ mpv_process s' = mpv_process s /\
  endpoint s' = endpoint s /\
  (trace s' = trace s \/
   trace s' = (trace s ++ [SockSend (key_command key)])%list).
Proof.
  intros H. cbv zeta.
  rewrite (control_key_run key s H), send_then_ret.
  destruct (send_mpv_command_state (key_command key) s) as [E|[E|E]];
    rewrite E; repeat split; auto.
Qed.

Lemma control_keys_only_send_witness :
  key_in " " ["p"; "P"; " "; "b"; "B"; "f"; "F"] = true /\
  needs_full_redraw (final_state (on_key " " (playing answering 0)))
  = needs_full_redraw (playing answering 0) /\
  trace (final_state (on_key " " (playing answering 0)))
  = [SockSend (VDict [("command", VList [VStr "cycle"; VStr "pause"])])].
Proof.
  assert (K : key_in " " ["p"; "P"; " "; "b"; "B"; "f"; "F"] = true)
    by reflexivity.
  destruct (control_keys_only_send " " (playing answering 0) K)
    as (_ & R & _).
  split; [exact K|]. split; [exact R|]. reflexivity.
Defined.

(** X2.  [get_mpv_property] gives none without touching anything when the
    socket file is missing.  From a response object it returns the [data]
    field only if the [error] field is the string [success] (none when
    there is no [data]), and none otherwise; none, an empty object, an
    empty array, zero, the empty string and false all give none; any other
    response that is not an object makes it raise [AttributeError]; an
    error of the send is passed on. *)
Theorem get_mpv_property_cases (prop : string) (s : state) :
  (endpoint s = None -> get_mpv_property prop s = Ok VNone s) /\
  (forall d s',
      send_mpv_command (property_query prop) s = Ok (VDict d) s' ->
      get_mpv_property prop s
      = Ok (if is_str (field d "error") "success" then field d "data"
            else VNone) s') /\
  (forall r s',
      send_mpv_command (property_query prop) s = Ok r s' ->
      (forall d, r <> VDict d) ->
      get_mpv_property prop s
      = if truthy r then Raise (Exc AttributeError_) s' else Ok VNone s') /\
  (forall e s',
      send_mpv_command (property_query prop) s = Raise e s' ->
      get_mpv_property prop s = Raise e s').
Proof.
  unfold get_mpv_property, property_query, bind.
  split.
  { intros H. rewrite (send_without_socket _ s H). reflexivity. }
  split.
  { intros d s' ->. unfold field.
    destruct d as [|kv d]; [reflexivity|].
    cbn [truthy lift py_get ret].
    destruct (is_str _ "success"); reflexivity. }
  split.
  { intros r s' -> Hr.
    destruct r; try reflexivity;
      try (destruct (truthy _); reflexivity).
    exfalso. exact (Hr _ eq_refl). }
  intros e s' ->. reflexivity.
Qed.

Lemma get_mpv_property_cases_witness :
  send_mpv_command (property_query "percent-pos") (playing answering 0)
  = Ok reply_value
       (final_state
          (send_mpv_command (property_query "percent-pos")
                            (playing answering 0))) /\
  get_mpv_property "percent-pos" (playing answering 0)
  = Ok (VFloat (Fin 45))
       (final_state
          (send_mpv_command (property_query "percent-pos")
                            (playing answering 0))).
Proof.
  assert (H : send_mpv_command (property_query "percent-pos")
                (playing answering 0)
              = Ok reply_value
                  (final_state
                     (send_mpv_command (property_query "percent-pos")
                                       (playing answering 0))))
    by (vm_compute; reflexivity).
  split; [exact H|].
  exact (proj1 (proj2 (get_mpv_property_cases "percent-pos"
                         (playing answering 0))) _ _ H).
Defined.

(* --------------------------------------------------------------------- *)
(** ** The picker                                                          *)
(* --------------------------------------------------------------------- *)

Lemma run_fzf_done (l : list string) (prompt : string) (s : state)
    (returncode : Z) (stdout : string) (q : list fzf_outcome) :
  fzf_queue s = FzfDone returncode stdout :: q ->
  run_fzf l prompt s
  = Ok (if returncode =? 0 then Some (strip stdout) else None)
       (set_fzf_queue q (set_trace (trace s ++ [RunFzf l prompt]) s)).
Proof.
  intros H. unfold run_fzf, bind, emit, modify, get.
  cbn [fzf_queue set_trace]. rewrite H. reflexivity.
Qed.

Lemma run_fzf_empty (l : list string) (prompt : string) (s : state) :
  fzf_queue s = [] ->
  run_fzf l prompt s = Pending (set_trace (trace s ++ [RunFzf l prompt]) s).
Proof.
  intros H. unfold run_fzf, bind, emit, modify, get.
  cbn [fzf_queue set_trace]. rewrite H. reflexivity.
Qed.

Lemma run_fzf_absent (l : list string) (prompt : string) (s : state)
    (q : list fzf_outcome) :
  fzf_queue s = FzfAbsent :: q ->
  exists s',
    run_fzf l prompt s = Raise (SystemExit 0) s' /\
    endpoint s' = None /\ handle_dead s' /\
    In (PrintLine "Error: 'fzf' command not found. Please install fzf.")
       (trace s').
Proof.
  intros H. unfold run_fzf, bind, emit, modify, get.
  cbn [fzf_queue set_trace]. rewrite H.
  match goal with |- context [cleanup ?x] =>
    destruct (cleanup_run x) as (s' & E & He & Hd & _ & _);
    destruct (grows_ext cleanup x cleanup_grows) as (t & Ht) end.
  rewrite E in *. exists s'. split; [reflexivity|].
  split; [exact He|]. split; [exact Hd|].
  cbn [final_state] in Ht. rewrite Ht.
  apply in_or_app. left. cbn [trace set_trace set_fzf_queue].
  apply in_or_app. right. left. reflexivity.
Qed.

(** X3.  The picker's answer: a non-zero return code of [fzf] gives none,
    return code 0 gives the output stripped of surrounding white space,
    and one answer is consumed.  When [fzf] cannot be run, the error is
    reported and the program leaves through [cleanup], hence with exit
    status 0, the player stopped and the socket removed; the
    [sys.exit(1)] that follows the call of [cleanup] is never reached. *)
Theorem run_fzf_outcomes (l : list string) (prompt : string) (s : state) :
  (forall returncode stdout q,
      fzf_queue s = FzfDone returncode stdout :: q ->
      run_fzf l prompt s
      = Ok (if returncode =? 0 then Some (strip stdout) else None)
           (set_fzf_queue q (set_trace (trace s ++ [RunFzf l prompt]) s))) /\
  (forall q,
      fzf_queue s = FzfAbsent :: q ->
      exists s',
        run_fzf l prompt s = Raise (SystemExit 0) s' /\
        endpoint s' = None /\ handle_dead s' /\
        In (PrintLine "Error: 'fzf' command not found. Please install fzf.")
           (trace s')).
Proof.
  split.
  - intros; apply run_fzf_done; assumption.
  - intros; eapply run_fzf_absent; eassumption.
Qed.

Lemma run_fzf_outcomes_witness :
  fzf_queue picker_missing = [FzfAbsent] /\
  exists s',
    run_fzf ["a.mp3"] "> " picker_missing = Raise (SystemExit 0) s' /\
    endpoint s' = None /\ handle_dead s' /\
    In (PrintLine "Error: 'fzf' command not found. Please install fzf.")
       (trace s').
Proof.
  split; [reflexivity|].
  exact (proj2 (run_fzf_outcomes ["a.mp3"] "> " picker_missing) []
               eq_refl).
Defined.

(* --------------------------------------------------------------------- *)
(** ** White space around a pick                                           *)
(* --------------------------------------------------------------------- *)

Lemma lstrip_head (l : list ascii) (c : ascii) (r : list ascii) :
  lstrip l = c :: r -> is_space c = false.
Proof.
  induction l as [|a l IH]; simpl; [discriminate|].
  destruct (is_space a) eqn:E; [exact IH|].
  intros H. injection H as <- _. exact E.
Qed.

Lemma lstrip_fixed (c : ascii) (r : list ascii) :
  is_space c = false -> lstrip (c :: r) = c :: r.
Proof. intros H. simpl. rewrite H. reflexivity. Qed.

Lemma lstrip_suffix (l : list ascii) : exists pre, l = (pre ++ lstrip l)%list.
Proof.
  induction l as [|a l (pre & IH)]; [exists []; reflexivity|].
  simpl. destruct (is_space a).
  - exists (a :: pre). simpl. f_equal. exact IH.
  - exists []. reflexivity.
Qed.

Lemma strip_chars_shape (l : list ascii) :
  strip_chars l = []
  \/ exists c r d k,
      strip_chars l = c :: r /\ rev (strip_chars l) = d :: k /\
      is_space c = false /\ is_space d = false.
Proof.
  unfold strip_chars. rewrite rev_involutive.
  destruct (lstrip (rev (lstrip l))) as [|d k] eqn:K; [left; reflexivity|].
  right. pose proof (lstrip_head _ _ _ K) as Hd.
  destruct (lstrip_suffix (rev (lstrip l))) as (pre & Hpre).
  rewrite K in Hpre.
  assert (Hm : lstrip l = (rev (d :: k) ++ rev pre)%list).
  { rewrite <- rev_app_distr, <- Hpre, rev_involutive. reflexivity. }
  destruct (rev (d :: k)) as [|c r] eqn:R.
  { apply (f_equal (@List.length ascii)) in R.
    rewrite length_rev in R. discriminate. }
  exists c, r, d, k. repeat split; try assumption.
  apply (lstrip_head l c (r ++ rev pre)%list). exact Hm.
Qed.

Lemma last_rev_head {A} (c d : A) (r k : list A) :
  rev (c :: r) = d :: k -> last r c = d.
Proof.
  intros H.
  assert (E : c :: r = (rev k ++ [d])%list).
  { rewrite <- (rev_involutive (c :: r)), H. reflexivity. }
  destruct (rev k) as [|a m]; simpl in E.
  - injection E as -> ->. reflexivity.
  - injection E as -> ->.
    clear. induction m as [|b m IH]; [reflexivity|].
    simpl. destruct (m ++ [d])%list eqn:F; [destruct m; discriminate|].
    exact IH.
Qed.

Lemma strip_chars_fixed (l : list ascii) :
  strip_chars (strip_chars l) = strip_chars l.
Proof.
  destruct (strip_chars_shape l) as [->|(c & r & d & k & E & R & Hc & Hd)];
    [reflexivity|].
  rewrite E in *. unfold strip_chars at 1.
  rewrite (lstrip_fixed c r Hc), R, (lstrip_fixed d k Hd), <- R.
  apply rev_involutive.
Qed.

Lemma strip_trimmed (s : string) : trimmed (strip s).
Proof.
  unfold trimmed, strip. rewrite list_ascii_of_string_of_list_ascii.
  destruct (strip_chars_shape (list_ascii_of_string s))
    as [->|(c & r & d & k & E & R & Hc & Hd)]; [exact I|].
  rewrite E in *. split; [exact Hc|].
  rewrite (last_rev_head c d r k R). exact Hd.
Qed.

(** X4.  What [str.strip] leaves neither begins nor ends with white
    space, and stripping it again changes nothing. *)
Theorem strip_trims (s : string) :
  trimmed (strip s) /\ strip (strip s) = strip s.
Proof.
  split; [apply strip_trimmed|].
  unfold strip. rewrite list_ascii_of_string_of_list_ascii.
  rewrite strip_chars_fixed. reflexivity.
Qed.

(* --------------------------------------------------------------------- *)
(** ** Choosing a track                                                    *)
(* --------------------------------------------------------------------- *)

Lemma list_index_first (x : string) (l : list string) (i : Z) :
  list_index x l = Val i ->
  0 <= i /\
  nth_error l (Z.to_nat i) = Some x /\
  (forall j, (j < Z.to_nat i)%nat -> nth_error l j <> Some x).
Proof.
  revert i. induction l as [|y l IH]; intros i; simpl; [discriminate|].
  destruct (String.eqb y x) eqn:E.
  - intros [= <-]. apply String.eqb_eq in E. subst y.
    split; [lia|]. split; [reflexivity|]. intros j Hj. simpl in Hj. lia.
  - destruct (list_index x l) as [k|]; simpl; [|discriminate].
    intros [= <-]. destruct (IH k eq_refl) as (Hk & Hn & Hf).
    split; [lia|]. replace (Z.to_nat (k + 1)) with (S (Z.to_nat k)) by lia.
    split; [exact Hn|].
    intros [|j] Hj; simpl.
    + intros [= ->]. rewrite String.eqb_refl in E. discriminate.
    + apply Hf. lia.
Qed.

Lemma list_index_absent (x : string) (l : list string) (e : exn) :
  list_index x l = Err e -> e = Exc ValueError_ /\ ~ In x l.
Proof.
  induction l as [|y l IH]; simpl.
  - intros [= <-]. split; [reflexivity|]. intros [].
  - destruct (String.eqb y x) eqn:E; [discriminate|].
    destruct (list_index x l) as [k|e']; simpl; [discriminate|].
    intros [= <-]. destruct (IH eq_refl) as (-> & Hn).
    split; [reflexivity|]. intros [->|H]; [|exact (Hn H)].
    rewrite String.eqb_refl in E. discriminate.
Qed.

Lemma py_index_nth {A} (l : list A) (i : Z) (x : A) :
  0 <= i -> nth_error l (Z.to_nat i) = Some x -> py_index l i = Val x.
Proof.
  intros Hi Hn. unfold py_index.
  assert (Hlt : (Z.to_nat i < List.length l)%nat)
    by (apply nth_error_Some; rewrite Hn; discriminate).
  replace (i <? 0) with false by (symmetry; apply Z.ltb_ge; lia).
  replace (0 <=? i) with true by (symmetry; apply Z.leb_le; lia).
  replace (i <? Z.of_nat (List.length l)) with true
    by (symmetry; apply Z.ltb_lt; lia).
  cbn [andb]. rewrite Hn. reflexivity.
Qed.

Lemma py_index_nth_inv {A} (l : list A) (i : Z) (x : A) :
  0 <= i -> py_index l i = Val x -> nth_error l (Z.to_nat i) = Some x.
Proof.
  intros Hi. unfold py_index.
  replace (i <? 0) with false by (symmetry; apply Z.ltb_ge; lia).
  destruct (_ && _); [|discriminate].
  destruct (nth_error l (Z.to_nat i)); [|discriminate].
  intros [= ->]. reflexivity.
Qed.

(** The state after the picker has answered. *)
Lemma choose_song_run (s : state) (returncode : Z) (stdout : string)
    (q : list fzf_outcome) :
  fzf_queue s = FzfDone returncode stdout :: q ->
  let names := map path_name (songs s) in
  let s1 := set_fzf_queue q
              (set_trace (trace s ++ [RunFzf names "🎵 Select Song: "]) s) in
  choose_song s
  = if (returncode =? 0) && negb (String.eqb (strip stdout) EmptyString) then
      match list_index (strip stdout) names with
      | Val i => Ok true (set_current_song_index i s1)
      | Err _ => Ok false s1
      end
    else Ok false s1.
Proof.
  intros H names s1. unfold choose_song, bind at 1, get. unfold bind at 1.
  rewrite (run_fzf_done _ _ s returncode stdout q H). fold names. fold s1.
  destruct (returncode =? 0); cbn [none_or_empty negb andb]; [|reflexivity].
  destruct (String.eqb (strip stdout) EmptyString); cbn [negb];
    [reflexivity|].
  unfold try_catch, bind, lift.
  destruct (list_index (strip stdout) names) as [i|e] eqn:Ei;
    [reflexivity|].
  destruct (list_index_absent _ _ _ Ei) as (-> & _). reflexivity.
Qed.

Lemma choose_song_answered {b : bool} {s s' : state} :
  choose_song s = Ok b s' ->
  exists returncode stdout q, fzf_queue s = FzfDone returncode stdout :: q.
Proof.
  intros H. destruct (fzf_queue s) as [|[|returncode stdout] q] eqn:Q.
  - unfold choose_song, bind at 1, get in H. unfold bind at 1 in H.
    rewrite (run_fzf_empty _ _ s Q) in H. discriminate.
  - unfold choose_song, bind at 1, get in H. unfold bind at 1 in H.
    destruct (run_fzf_absent (map path_name (songs s)) "🎵 Select Song: "
                s q Q) as (s2 & E & _).
    rewrite E in H. discriminate.
  - eauto.
Qed.

(** X5.  When [choose_song] reports a choice, the picker returned 0 and the
    new index is that of the first track whose file name equals the
    picker's output stripped of surrounding white space; the name is not
    empty and neither begins nor ends with white space, and the track list
    is the same. *)
Theorem choose_song_picks_first (s s' : state) :
  choose_song s = Ok true s' ->
  exists song stdout q,
    fzf_queue s = FzfDone 0 stdout :: q /\
    songs s' = songs s /\
    0 <= current_song_index s' /\
    py_index (songs s) (current_song_index s') = Val song /\
    path_name song = strip stdout /\
    path_name song <> EmptyString /\
    trimmed (path_name song) /\
    (forall j other,
        0 <= j < current_song_index s' ->
        py_index (songs s) j = Val other ->
        path_name other <> path_name song).
Proof.
  intros H. destruct (choose_song_answered H) as (returncode & stdout & q & Q).
  rewrite (choose_song_run s returncode stdout q Q) in H.
  destruct (returncode =? 0) eqn:R; cbn [andb] in H; [|discriminate].
  apply Z.eqb_eq in R. subst returncode.
  destruct (String.eqb (strip stdout) EmptyString) eqn:E; cbn [negb] in H;
    [discriminate|].
  destruct (list_index _ _) as [i|e] eqn:Ei; [|discriminate].
  injection H as <-. cbn [songs current_song_index set_current_song_index
                            set_fzf_queue set_trace].
  destruct (list_index_first _ _ _ Ei) as (Hi & Hn & Hf).
  rewrite nth_error_map in Hn.
  destruct (nth_error (songs s) (Z.to_nat i)) as [song|] eqn:Hs;
    [|discriminate].
  injection Hn as Hn.
  exists song, stdout, q.
  split; [exact Q|]. split; [reflexivity|]. split; [exact Hi|].
  split; [exact (py_index_nth _ _ _ Hi Hs)|].
  split; [exact Hn|].
  split.
  { rewrite Hn. intros F. rewrite F in E. discriminate. }
  split; [rewrite Hn; apply strip_trimmed|].
  intros j other Hj Ho F.
  apply py_index_nth_inv in Ho; [|lia].
  apply (Hf (Z.to_nat j)); [lia|].
  rewrite nth_error_map, Ho. simpl. rewrite F, Hn. reflexivity.
Qed.

Lemma choose_song_picks_first_witness :
  choose_song picked_b = Ok true (final_state (choose_song picked_b)) /\
  exists song,
    py_index (songs picked_b)
             (current_song_index (final_state (choose_song picked_b)))
    = Val song /\
    trimmed (path_name song).
Proof.
  assert (H : choose_song picked_b
              = Ok true (final_state (choose_song picked_b)))
    by (vm_compute; reflexivity).
  split; [exact H|].
  destruct (choose_song_picks_first _ _ H)
    as (song & _ & _ & _ & _ & _ & Hs & _ & _ & Ht & _).
  exists song. split; [exact Hs|exact Ht].
Defined.

Lemma choose_key_run (key : string) (s : state) :
  key_in key ["s"; "S"] = true ->
  on_key key s
  = ((chosen <~ choose_song ;;
      if chosen : bool then play_song
      else modify (set_needs_full_redraw true)) ;;;
     modify (set_needs_full_redraw true)) s.
Proof.
  intros H. apply key_in_two in H. destruct H as [->| ->]; reflexivity.
Qed.

(** X6.  Key 's' when nothing is chosen: the picker returned a non-zero
    code, or only white space, or a name that no track has.  Then the
    player is left as it is and keeps playing, folder, track list and
    index are unchanged, and all that happens is the one call of the
    picker with the track names and the request for a full redraw. *)
Theorem pick_cancelled_keeps_playing (key : string) (s : state)
    (returncode : Z) (stdout : string) (q : list fzf_outcome) :
  key_in key ["s"; "S"] = true ->
  fzf_queue s = FzfDone returncode stdout :: q ->
  returncode <> 0 \/ strip stdout = EmptyString
  \/ ~ In (strip stdout) (map path_name (songs s)) ->
  on_key key s
  = Ok tt
       (set_needs_full_redraw true
          (set_fzf_queue q
             (set_trace
                (trace s ++ [RunFzf (map path_name (songs s))
                                    "🎵 Select Song: "]) s))).
Proof.
  intros Hk Q Hc. rewrite (choose_key_run key s Hk).
  unfold bind at 1. unfold bind at 1.
  rewrite (choose_song_run s returncode stdout q Q).
  assert (E : (if (returncode =? 0)
                  && negb (String.eqb (strip stdout) EmptyString)
               then
                 match list_index (strip stdout) (map path_name (songs s)) with
                 | Val i => Ok true (set_current_song_index i
                     (set_fzf_queue q
                        (set_trace
                           (trace s ++ [RunFzf (map path_name (songs s))
                                               "🎵 Select Song: "]) s)))
                 | Err _ => Ok false
                     (set_fzf_queue q
                        (set_trace
                           (trace s ++ [RunFzf (map path_name (songs s))
                                               "🎵 Select Song: "]) s))
                 end
               else Ok false
                     (set_fzf_queue q
                        (set_trace
                           (trace s ++ [RunFzf (map path_name (songs s))
                                               "🎵 Select Song: "]) s)))
              = Ok false
                  (set_fzf_queue q
                     (set_trace
                        (trace s ++ [RunFzf (map path_name (songs s))
                                            "🎵 Select Song: "]) s))).
  { destruct (returncode =? 0) eqn:R; cbn [andb]; [|reflexivity].
    destruct (String.eqb (strip stdout) EmptyString) eqn:B; cbn [negb];
      [reflexivity|].
    destruct (list_index _ _) as [i|e] eqn:Ei; [|reflexivity].
    exfalso. destruct Hc as [Hc|[Hc|Hc]].
    - apply Z.eqb_eq in R. exact (Hc R).
    - rewrite Hc in B. discriminate.
    - apply Hc. destruct (list_index_first _ _ _ Ei) as (_ & Hn & _).
      exact (nth_error_In _ _ Hn). }
  cbv zeta in E. rewrite E. reflexivity.
Qed.

Lemma pick_cancelled_keeps_playing_witness :
  key_in "s" ["s"; "S"] = true /\
  fzf_queue (picking 130 EmptyString) = [FzfDone 130 EmptyString] /\
  on_key "s" (picking 130 EmptyString)
  = Ok tt
       (set_needs_full_redraw true
          (set_fzf_queue []
             (set_trace
                (trace (picking 130 EmptyString)
                   ++ [RunFzf (map path_name (songs (picking 130 EmptyString)))
                              "🎵 Select Song: "])
                (picking 130 EmptyString)))).
Proof.
  split; [reflexivity|]. split; [reflexivity|].
  apply (pick_cancelled_keeps_playing "s" (picking 130 EmptyString) 130
           EmptyString []); [reflexivity|reflexivity|].
  left. discriminate.
Defined.

(* --------------------------------------------------------------------- *)
(** ** The track list of a folder                                          *)
(* --------------------------------------------------------------------- *)

Lemma ascii_compare_refl (a : ascii) : Ascii.compare a a = Eq.
Proof. unfold Ascii.compare. apply N.compare_refl. Qed.

Lemma ascii_compare_lt_trans (a b c : ascii) :
  Ascii.compare a b = Lt -> Ascii.compare b c = Lt -> Ascii.compare a c = Lt.
Proof.
  unfold Ascii.compare. rewrite !N.compare_lt_iff. apply N.lt_trans.
Qed.

Lemma str_compare_refl (a : string) : String.compare a a = Eq.
Proof.
  induction a as [|c a IH]; simpl; [reflexivity|].
  rewrite ascii_compare_refl. exact IH.
Qed.

Lemma str_compare_lt_trans (a b c : string) :
  String.compare a b = Lt -> String.compare b c = Lt ->
  String.compare a c = Lt.
Proof.
  revert b c. induction a as [|x a IH]; intros [|y b] [|z c]; simpl;
    try discriminate; try reflexivity.
  destruct (Ascii.compare x y) eqn:Exy; try discriminate;
    destruct (Ascii.compare y z) eqn:Eyz; try discriminate; intros Hab Hbc.
  - apply Ascii.compare_eq_iff in Exy, Eyz. subst.
    rewrite ascii_compare_refl. exact (IH _ _ Hab Hbc).
  - apply Ascii.compare_eq_iff in Exy. subst. rewrite Eyz. reflexivity.
  - apply Ascii.compare_eq_iff in Eyz. subst. rewrite Exy. reflexivity.
  - rewrite (ascii_compare_lt_trans _ _ _ Exy Eyz). reflexivity.
Qed.

Lemma str_compare_gt_lt (a b : string) :
  String.compare a b = Gt -> String.compare b a = Lt.
Proof.
  intros H. rewrite String.compare_antisym, H. reflexivity.
Qed.

Lemma path_eqb_eq (a b : path) : path_eqb a b = true <-> a = b.
Proof.
  unfold path_eqb. rewrite andb_true_iff, !String.eqb_eq.
  destruct a, b; simpl. split.
  - intros (-> & ->). reflexivity.
  - intros [= -> ->]. auto.
Qed.

Lemma path_ltb_irrefl (a : path) : path_ltb a a = false.
Proof. unfold path_ltb. rewrite !str_compare_refl. reflexivity. Qed.

Lemma path_ltb_trans (a b c : path) :
  path_ltb a b = true -> path_ltb b c = true -> path_ltb a c = true.
Proof.
  unfold path_ltb.
  destruct (String.compare (path_parent a) (path_parent b)) eqn:Pab;
    try discriminate;
    destruct (String.compare (path_parent b) (path_parent c)) eqn:Pbc;
    try discriminate.
  - apply String.compare_eq_iff in Pab, Pbc. rewrite Pab, Pbc.
    rewrite str_compare_refl.
    destruct (String.compare (path_name a) (path_name b)) eqn:Nab;
      try discriminate;
      destruct (String.compare (path_name b) (path_name c)) eqn:Nbc;
      try discriminate.
    rewrite (str_compare_lt_trans _ _ _ Nab Nbc). reflexivity.
  - apply String.compare_eq_iff in Pab. rewrite Pab, Pbc. reflexivity.
  - apply String.compare_eq_iff in Pbc. rewrite <- Pbc, Pab. reflexivity.
  - rewrite (str_compare_lt_trans _ _ _ Pab Pbc). reflexivity.
Qed.

Lemma path_ltb_total (a b : path) :
  path_eqb a b = false -> path_ltb a b = false -> path_ltb b a = true.
Proof.
  unfold path_ltb, path_eqb.
  destruct (String.compare (path_parent a) (path_parent b)) eqn:P.
  - apply String.compare_eq_iff in P. rewrite P, String.eqb_refl.
    rewrite str_compare_refl. cbn [andb].
    destruct (String.compare (path_name a) (path_name b)) eqn:N.
    + apply String.compare_eq_iff in N. rewrite N, String.eqb_refl.
      discriminate.
    + discriminate.
    + rewrite (str_compare_gt_lt _ _ N). reflexivity.
  - discriminate.
  - rewrite (str_compare_gt_lt _ _ P). reflexivity.
Qed.

Lemma insert_path_in (x z : path) (l : list path) :
  In z (insert_path x l) <-> z = x \/ In z l.
Proof.
  induction l as [|y l IH]; simpl; [intuition|].
  destruct (path_eqb x y) eqn:E.
  - apply path_eqb_eq in E. subst y. simpl. intuition.
  - destruct (path_ltb x y); simpl; [intuition|].
    rewrite IH. intuition.
Qed.

Lemma insert_path_ascending (x : path) (l : list path) :
  ascending l -> ascending (insert_path x l).
Proof.
  induction l as [|y l IH]; simpl; [intuition|].
  intros (Hy & Hl).
  destruct (path_eqb x y) eqn:E; [simpl; auto|].
  destruct (path_ltb x y) eqn:L; simpl.
  - split; [|auto]. intros b [<-|Hb]; [exact L|].
    exact (path_ltb_trans _ _ _ L (Hy b Hb)).
  - split; [|auto]. intros b Hb. apply insert_path_in in Hb.
    destruct Hb as [->|Hb]; [|auto].
    exact (path_ltb_total _ _ E L).
Qed.

Lemma sorted_set_in (z : path) (l : list path) :
  In z (sorted_set l) <-> In z l.
Proof.
  induction l as [|x l IH]; simpl; [tauto|].
  rewrite insert_path_in, IH. intuition.
Qed.

Lemma sorted_set_ascending (l : list path) : ascending (sorted_set l).
Proof.
  induction l as [|x l IH]; simpl; [exact I|].
  apply insert_path_ascending, IH.
Qed.

Lemma ascending_NoDup (l : list path) : ascending l -> NoDup l.
Proof.
  induction l as [|x l IH]; simpl; [constructor|].
  intros (Hx & Hl). constructor; [|auto].
  intros H. specialize (Hx x H). rewrite path_ltb_irrefl in Hx.
  discriminate.
Qed.

Lemma get_songs_state (s : state) :
  songs (final_state (get_songs s))
  = sorted_set (map (mkpath (current_folder s))
                    (found_in (env s) (current_folder s))).
Proof.
  unfold get_songs, bind, get, modify, found_in.
  destruct (sorted_set _) as [|p l] eqn:E; cbn [songs set_songs].
  - unfold bind, emit, modify, raise.
    cbn [final_state songs set_trace set_songs]. reflexivity.
  - reflexivity.
Qed.

(** X7.  However [get_songs] ends, the track list it has stored is
    strictly ascending in the order of paths, hence free of duplicates,
    and consists of exactly the files of the current folder that one of
    the patterns matches, in lower or upper case of the extension. *)
Theorem get_songs_sorted_set (s : state) :
  let sgs := songs (final_state (get_songs s)) in
  ascending sgs /\
  NoDup sgs /\
  (forall p,
      In p sgs <->
      path_parent p = current_folder s /\
      In (path_name p) (found_in (env s) (current_folder s))).
Proof.
  cbv zeta. rewrite get_songs_state.
  split; [apply sorted_set_ascending|].
  split; [apply ascending_NoDup, sorted_set_ascending|].
  intros p. rewrite sorted_set_in, in_map_iff. split.
  - intros (name & <- & H). auto.
  - intros (Hp & Hn). exists (path_name p). split; [|exact Hn].
    destruct p; simpl in *. subst. reflexivity.
Qed.

(** The state in which [get_songs] returns. *)
Lemma get_songs_ok (s s' : state) :
  get_songs s = Ok tt s' ->
  s' = set_songs
         (sorted_set (map (mkpath (current_folder s))
                          (found_in (env s) (current_folder s)))) s.
Proof.
  unfold get_songs, bind, get, modify.
  fold (found_in (env s) (current_folder s)).
  destruct (sorted_set _) as [|p r]; [discriminate|].
  intros [= <-]. reflexivity.
Qed.

(** X8.  [get_songs] has two outcomes.  If no file of the folder matches,
    the empty list has already been stored when it prints the message and
    exits with status 1.  Otherwise it returns, having changed the track
    list and nothing else; the index is not reset. *)
Theorem get_songs_outcome (s : state) :
  let folder := current_folder s in
  let sgs := sorted_set (map (mkpath folder) (found_in (env s) folder)) in
  (found_in (env s) folder = [] /\
   get_songs s
   = Raise (SystemExit 1)
       (set_trace
          (trace s ++ [PrintLine ("No songs found in folder '" ++ folder
                                    ++ "'")])
          (set_songs [] s)))
  \/
  (found_in (env s) folder <> [] /\ sgs <> [] /\
   get_songs s = Ok tt (set_songs sgs s)).
Proof.
  cbv zeta. unfold get_songs, bind, get, modify. fold (found_in (env s) (current_folder s)).
  destruct (found_in (env s) (current_folder s)) as [|n l] eqn:F.
  - left. split; [reflexivity|]. reflexivity.
  - right. split; [discriminate|].
    assert (N : sorted_set (map (mkpath (current_folder s)) (n :: l)) <> []).
    { intros E.
      assert (H : In (mkpath (current_folder s) n)
                     (sorted_set (map (mkpath (current_folder s)) (n :: l))))
        by (apply sorted_set_in; left; reflexivity).
      rewrite E in H. exact H. }
    split; [exact N|].
    destruct (sorted_set _) as [|p r]; [contradiction|reflexivity].
Qed.

(* --------------------------------------------------------------------- *)
(** ** Choosing a folder                                                   *)
(* --------------------------------------------------------------------- *)

Lemma existsb_eqb_in (x : string) (l : list string) :
  existsb (String.eqb x) l = true <-> In x l.
Proof.
  rewrite existsb_exists. split.
  - intros (y & Hy & E). apply String.eqb_eq in E. subst. exact Hy.
  - intros H. exists x. split; [exact H|apply String.eqb_refl].
Qed.

(** X9.  When the directory has a visible folder named [Unni_Menon],
    [select_folder] takes it without asking: the picker is not run,
    nothing is printed, and only the current folder changes. *)
Theorem default_folder_taken (s : state) :
  In "Unni_Menon" (visible_folders (env s)) ->
  select_folder s = Ok tt (set_current_folder "Unni_Menon" s).
Proof.
  intros H. unfold select_folder, bind at 1, get.
  fold (visible_folders (env s)).
  destruct (visible_folders (env s)) as [|f l] eqn:F; [destruct H|].
  apply existsb_eqb_in in H. unfold bind at 1. rewrite H.
  unfold ret, bind, get. cbn [select_folder_loop]. reflexivity.
Qed.

Lemma default_folder_taken_witness :
  select_folder
    (started_in [("notes.txt", false); ("Unni_Menon", true); (".git", true);
                 ("Abba", true)] [] [])
  = Ok tt
       (set_current_folder "Unni_Menon"
          (started_in [("notes.txt", false); ("Unni_Menon", true);
                       (".git", true); ("Abba", true)] [] [])).
Proof.
  apply default_folder_taken. vm_compute. right. left. reflexivity.
Defined.

(** X10.  When the directory has no folder whose name does not begin with
    a dot, [select_folder] prints the message and exits with status 1;
    the picker is not run, and nothing else has changed. *)
Theorem no_folders_exit (s : state) :
  visible_folders (env s) = [] ->
  select_folder s
  = Raise (SystemExit 1)
      (set_trace
         (trace s
            ++ [PrintLine "No music folders found in the current directory."])
         s).
Proof.
  intros H. unfold select_folder, bind at 1, get.
  fold (visible_folders (env s)). rewrite H. reflexivity.
Qed.

Lemma no_folders_exit_witness :
  select_folder (started_in [("notes.txt", false); (".git", true)] [] [])
  = Raise (SystemExit 1)
      (set_trace
         [PrintLine "No music folders found in the current directory."]
         (started_in [("notes.txt", false); (".git", true)] [] [])).
Proof.
  apply (no_folders_exit
           (started_in [("notes.txt", false); (".git", true)] [] [])).
  reflexivity.
Defined.

Lemma run_fzf_offers (folders : list string) (prompt : string) :
  emits (offers folders) (run_fzf folders prompt).
Proof.
  unfold run_fzf, cleanup, poll_is_None, terminate, wait, kill,
    socket_exists, unlink, show_cursor.
  em_auto.
Qed.

Lemma cleanup_offers (folders : list string) :
  emits (offers folders) cleanup.
Proof.
  unfold cleanup, poll_is_None, terminate, wait, kill, socket_exists, unlink,
    show_cursor.
  em_auto.
Qed.

Lemma input_offers (folders : list string) (prompt : string) :
  emits (offers folders) (input prompt).
Proof. unfold input. em_auto. Qed.

Lemma select_folder_loop_offers (rounds : nat) (folders : list string)
    (selected : option string) :
  emits (offers folders) (select_folder_loop rounds folders selected).
Proof.
  revert selected. induction rounds as [|k IH]; intros selected; simpl.
  - destruct selected as [[|c r]|]; em_auto.
  - destruct selected as [[|c r]|];
      repeat first [ apply IH | apply run_fzf_offers | apply cleanup_offers
                   | apply input_offers | em_step ].
Qed.

Lemma select_folder_loop_nonempty (rounds : nat) (folders : list string)
    (selected : option string) (s s' : state) (r : string) :
  select_folder_loop rounds folders selected s = Ok r s' ->
  r <> EmptyString.
Proof.
  revert selected s. induction rounds as [|k IH]; intros selected s; simpl.
  - destruct selected as [[|c t]|]; try discriminate.
    intros [= <- _]. discriminate.
  - destruct selected as [[|c t]|].
    + intros H. apply bind_ok_inv in H. destruct H as (_ & s1 & _ & H).
      apply bind_ok_inv in H. destruct H as (sel & s2 & _ & H).
      apply bind_ok_inv in H. destruct H as (_ & s3 & _ & H).
      exact (IH _ _ H).
    + intros [= <- _]. discriminate.
    + intros H. apply bind_ok_inv in H. destruct H as (_ & s1 & _ & H).
      apply bind_ok_inv in H. destruct H as (sel & s2 & _ & H).
      apply bind_ok_inv in H. destruct H as (_ & s3 & _ & H).
      exact (IH _ _ H).
Qed.

Lemma select_folder_nonempty (s s' : state) :
  select_folder s = Ok tt s' -> current_folder s' <> EmptyString.
Proof.
  intros H. unfold select_folder, bind at 1, get in H.
  destruct (sorted_str _) as [|f l]; [discriminate|].
  apply bind_ok_inv in H. destruct H as (sel & s1 & _ & H).
  apply bind_ok_inv in H. destruct H as (rounds & s2 & _ & H).
  apply bind_ok_inv in H. destruct H as (r & s3 & Hl & H).
  injection H as <-. cbn [current_folder set_current_folder].
  exact (select_folder_loop_nonempty _ _ _ _ _ _ Hl).
Qed.

(** X11.  Every run of the picker that [select_folder] makes offers the
    same list: the names of the directories of the music root that do not
    begin with a dot, in ascending order.  When [select_folder] returns,
    the current folder is not the empty string. *)
Theorem select_folder_offers_folders (s : state) :
  (exists t,
      trace (final_state (select_folder s)) = (trace s ++ t)%list /\
      Forall (offers (visible_folders (env s))) t) /\
  (forall s', select_folder s = Ok tt s' -> current_folder s' <> EmptyString).
Proof.
  split.
  - assert (H : emits (offers (visible_folders (env s)))
                  (match visible_folders (env s) with
                   | [] =>
                       emit (PrintLine
                               "No music folders found in the current directory.") ;;;
                       raise (SystemExit 1)
                   | _ =>
                       selected <~
                         (if existsb (String.eqb "Unni_Menon")
                                     (visible_folders (env s))
                          then ret (Some "Unni_Menon")
                          else
                            emit (PrintLine
                                    "Default folder 'Unni_Menon' not found. Please select a folder:") ;;;
                            run_fzf (visible_folders (env s)) folder_prompt) ;;
                       rounds <~ get (fun s => S (List.length (fzf_queue s))) ;;
                       selected <~ select_folder_loop rounds
                                     (visible_folders (env s)) selected ;;
                       modify (set_current_folder selected)
                   end)).
    { repeat first [ apply select_folder_loop_offers | apply run_fzf_offers
                   | em_step ]. }
    exact (H s).
  - intros s'. apply select_folder_nonempty.
Qed.

Lemma select_folder_offers_folders_witness :
  select_folder abba_start = Ok tt (final_state (select_folder abba_start)) /\
  current_folder (final_state (select_folder abba_start)) <> EmptyString.
Proof.
  assert (H : select_folder abba_start
              = Ok tt (final_state (select_folder abba_start)))
    by (vm_compute; reflexivity).
  split; [exact H|].
  exact (proj2 (select_folder_offers_folders abba_start) _ H).
Defined.

Lemma str_leb_trans (a b c : string) :
  String.leb a b = true -> String.leb b c = true -> String.leb a c = true.
Proof.
  unfold String.leb.
  destruct (String.compare a b) eqn:Eab; try discriminate;
    destruct (String.compare b c) eqn:Ebc; try discriminate; intros _ _.
  - apply String.compare_eq_iff in Eab, Ebc. subst.
    rewrite str_compare_refl. reflexivity.
  - apply String.compare_eq_iff in Eab. subst. rewrite Ebc. reflexivity.
  - apply String.compare_eq_iff in Ebc. subst. rewrite Eab. reflexivity.
  - rewrite (str_compare_lt_trans _ _ _ Eab Ebc). reflexivity.
Qed.

Lemma insert_str_in (x z : string) (l : list string) :
  In z (insert_str x l) <-> z = x \/ In z l.
Proof.
  induction l as [|y l IH]; simpl; [intuition|].
  destruct (String.leb x y); simpl; [intuition|].
  rewrite IH. intuition.
Qed.

Lemma insert_str_ascending (x : string) (l : list string) :
  str_ascending l -> str_ascending (insert_str x l).
Proof.
  induction l as [|y l IH]; simpl; [intuition|].
  intros (Hy & Hl).
  destruct (String.leb x y) eqn:L; simpl.
  - split; [|auto]. intros b [<-|Hb]; [exact L|].
    exact (str_leb_trans _ _ _ L (Hy b Hb)).
  - split; [|auto]. intros b Hb. apply insert_str_in in Hb.
    destruct Hb as [->|Hb]; [|auto].
    destruct (String.leb_total x y) as [H|H]; [|exact H].
    rewrite H in L. discriminate.
Qed.

Lemma insert_str_length (x : string) (l : list string) :
  List.length (insert_str x l) = S (List.length l).
Proof.
  induction l as [|y l IH]; simpl; [reflexivity|].
  destruct (String.leb x y); simpl; [reflexivity|].
  rewrite IH. reflexivity.
Qed.

(** X12.  The folders that [select_folder] works with are the entries of
    the music root that are directories and whose name does not begin
    with a dot, as many as there are such entries, and they are in
    ascending order. *)
Theorem visible_folders_sorted (e : environment) :
  str_ascending (visible_folders e) /\
  (forall name,
      In name (visible_folders e) <->
      In (name, true) (dir_entries e) /\ startswith name "." = false) /\
  List.length (visible_folders e)
  = List.length
      (filter (fun d => snd d && negb (startswith (fst d) "."))
              (dir_entries e)).
Proof.
  unfold visible_folders.
  set (f := fun d : string * bool => snd d && negb (startswith (fst d) ".")).
  split; [|split].
  - induction (map fst (filter f (dir_entries e))) as [|x l IH]; simpl;
      [exact I|].
    apply insert_str_ascending, IH.
  - intros name.
    assert (S : forall l, In name (sorted_str l) <-> In name l).
    { induction l as [|x l IH]; simpl; [tauto|].
      rewrite insert_str_in, IH. intuition. }
    rewrite S, in_map_iff. split.
    + intros ((n & d) & <- & H). apply filter_In in H.
      destruct H as (H & F). unfold f in F. simpl in *.
      apply andb_true_iff in F. destruct F as (-> & F).
      split; [exact H|]. destruct (startswith n "."); [discriminate|].
      reflexivity.
    + intros (H & F). exists (name, true). split; [reflexivity|].
      apply filter_In. split; [exact H|]. unfold f. simpl.
      rewrite F. reflexivity.
  - rewrite <- (length_map fst).
    induction (map fst (filter f (dir_entries e))) as [|x l IH]; simpl;
      [reflexivity|].
    rewrite insert_str_length, IH. reflexivity.
Qed.

Lemma input_run (prompt line : string) (r : list string) (s : state) :
  input_queue s = line :: r ->
  input prompt s
  = Ok line (set_input_queue r (set_trace (trace s ++ [Input prompt]) s)).
Proof.
  intros H. unfold input, bind, emit, modify, get.
  cbn [input_queue set_trace]. rewrite H. reflexivity.
Qed.

Lemma select_folder_loop_quit (k : nat) (folders : list string)
    (selected : option string) (s : state) (returncode : Z)
    (stdout answer : string) (q : list fzf_outcome) (r : list string) :
  none_or_empty selected = true ->
  fzf_queue s = FzfDone returncode stdout :: q ->
  returncode <> 0 \/ strip stdout = EmptyString ->
  input_queue s = answer :: r ->
  str_lower answer = "y" ->
  exists s',
    select_folder_loop (S k) folders selected s = Raise (SystemExit 0) s' /\
    endpoint s' = None /\ handle_dead s'.
Proof.
  intros Hsel Q Hb Hin Hy.
  assert (E : select_folder_loop (S k) folders selected s
              = (emit (PrintLine "No folder selected.") ;;;
                 selected <~ run_fzf folders folder_prompt ;;
                 (if none_or_empty selected then
                    answer <~ input "No folder selected. Quit? (y/n) " ;;
                    if String.eqb (str_lower answer) "y" then cleanup
                    else ret tt
                  else ret tt) ;;;
                 select_folder_loop k folders selected) s).
  { destruct selected as [[|c t]|]; [reflexivity|discriminate|reflexivity]. }
  rewrite E. unfold bind at 1, emit, modify. unfold bind at 1.
  erewrite run_fzf_done by (cbn [fzf_queue set_trace]; exact Q).
  assert (B : none_or_empty
                (if returncode =? 0 then Some (strip stdout) else None)
              = true).
  { destruct (returncode =? 0) eqn:R; [|reflexivity].
    destruct Hb as [Hb|Hb]; [apply Z.eqb_eq in R; contradiction|].
    simpl. rewrite Hb. reflexivity. }
  unfold bind at 1. rewrite B. unfold bind at 1.
  erewrite input_run
    by (cbn [input_queue set_trace set_fzf_queue]; exact Hin).
  rewrite Hy. cbn [String.eqb Ascii.eqb Bool.eqb].
  match goal with |- context [cleanup ?x] =>
    destruct (cleanup_run x) as (s' & C & He & Hd & _) end.
  rewrite C. exists s'. auto.
Qed.

(** X13.  Leaving from the folder prompt.  The default folder is missing,
    the picker is cancelled (or returns only white space) twice, and the
    answer to the question that follows is [y] or [Y]: then
    [select_folder] runs [cleanup], so the program exits with status 0,
    the player stopped and the socket file removed. *)
Theorem folder_prompt_quit (s : state) (rc1 rc2 : Z) (out1 out2 answer : string)
    (q : list fzf_outcome) (r : list string) :
  visible_folders (env s) <> [] ->
  ~ In "Unni_Menon" (visible_folders (env s)) ->
  fzf_queue s = FzfDone rc1 out1 :: FzfDone rc2 out2 :: q ->
  rc1 <> 0 \/ strip out1 = EmptyString ->
  rc2 <> 0 \/ strip out2 = EmptyString ->
  input_queue s = answer :: r ->
  str_lower answer = "y" ->
  exists s',
    select_folder s = Raise (SystemExit 0) s' /\
    endpoint s' = None /\ handle_dead s'.
Proof.
  intros Hne Hd Q H1 H2 Hin Hy.
  unfold select_folder, bind at 1, get. fold (visible_folders (env s)).
  destruct (visible_folders (env s)) as [|f l] eqn:F; [contradiction|].
  destruct (existsb (String.eqb "Unni_Menon") (f :: l)) eqn:E.
  { apply existsb_eqb_in in E. contradiction. }
  unfold bind at 1. unfold bind at 1. unfold emit at 1, modify.
  erewrite run_fzf_done by (cbn [fzf_queue set_trace]; exact Q).
  unfold bind at 1, get. cbn [fzf_queue set_fzf_queue set_trace List.length].
  unfold bind at 1.
  match goal with
  | |- context [select_folder_loop (S ?k) ?fs ?sel ?x] =>
      destruct (select_folder_loop_quit k fs sel x rc2 out2 answer q r)
        as (s' & C & He & Hh)
  end; try assumption; try reflexivity.
  { destruct (rc1 =? 0) eqn:R; [|reflexivity].
    destruct H1 as [H1|H1]; [apply Z.eqb_eq in R; contradiction|].
    simpl. rewrite H1. reflexivity. }
  rewrite C. exists s'. auto.
Qed.

Lemma folder_prompt_quit_witness :
  exists s',
    select_folder
      (started_in [("Abba", true)]
                  [FzfDone 130 EmptyString; FzfDone 130 EmptyString] ["Y"])
    = Raise (SystemExit 0) s' /\
    endpoint s' = None /\ handle_dead s'.
Proof.
  apply (folder_prompt_quit
           (started_in [("Abba", true)]
                       [FzfDone 130 EmptyString; FzfDone 130 EmptyString]
                       ["Y"])
           130 130 EmptyString EmptyString "Y" [] []).
  - vm_compute. discriminate.
  - vm_compute. intros [H|[]]. discriminate.
  - reflexivity.
  - left. discriminate.
  - left. discriminate.
  - reflexivity.
  - reflexivity.
Defined.

(* --------------------------------------------------------------------- *)
(** ** What a computation leaves as it is                                  *)
(* --------------------------------------------------------------------- *)

Section Keeps.
Context {B : Type}.
Variable f : state -> B.

Lemma kp_ret {A} (a : A) : keeps f (ret a).
Proof. intros s. reflexivity. Qed.

Lemma kp_raise {A} (e : exn) : keeps f (@raise A e).
Proof. intros s. reflexivity. Qed.

Lemma kp_pending {A} : keeps f (fun s => @Pending A s).
Proof. intros s. reflexivity. Qed.

Lemma kp_get {A} (g : state -> A) : keeps f (get g).
Proof. intros s. reflexivity. Qed.

Lemma kp_lift {A} (r : res A) : keeps f (lift r).
Proof. destruct r; intros s; reflexivity. Qed.

Lemma kp_modify (g : state -> state) :
  (forall s, f (g s) = f s) -> keeps f (modify g).
Proof. intros H s. exact (H s). Qed.

Lemma kp_bind {A C} (m : M A) (k : A -> M C) :
  keeps f m -> (forall a, keeps f (k a)) -> keeps f (bind m k).
Proof.
  intros Hm Hk s. unfold bind. specialize (Hm s).
  destruct (m s) as [a s'|e s'|s']; cbn [final_state] in *; auto.
  rewrite (Hk a s'). exact Hm.
Qed.

Lemma kp_try_catch {A} (body handler : M A) (handlers : list exc_class) :
  keeps f body -> keeps f handler ->
  keeps f (try_catch body handlers handler).
Proof.
  intros Hb Hh s. unfold try_catch. specialize (Hb s).
  destruct (body s) as [a s'|e s'|s']; cbn [final_state] in *; auto.
  destruct (caught_by handlers e); cbn [final_state]; auto.
  rewrite (Hh s'). exact Hb.
Qed.

Lemma kp_try_finally {A} (body : M A) (final : M unit) :
  keeps f body -> keeps f final -> keeps f (try_finally body final).
Proof.
  intros Hb Hf s. unfold try_finally. specialize (Hb s).
  destruct (body s) as [a s'|e s'|s']; cbn [final_state] in *; auto;
    unfold bind; specialize (Hf s');
    destruct (final s') as [[] s''|e' s''|s'']; cbn [final_state ret raise] in *;
    rewrite Hf; exact Hb.
Qed.

End Keeps.

Create HintDb kp.

Ltac kp_field :=
  intros; cbv beta;
  first
    [ reflexivity
    | match goal with
      | |- context [settle ?s] =>
          let p := fresh "p" in
          let e := fresh "e" in
          let E := fresh "E" in
          destruct (settle_shape s) as (p & e & E); rewrite E; reflexivity
      | |- context [exit_proc ?pid ?s] =>
          rewrite (exit_proc_shape pid s); reflexivity
      end ].

Ltac kp_step :=
  first
    [ apply kp_ret | apply kp_raise | apply kp_get | apply kp_lift
    | apply kp_pending
    | solve [ auto 1 with kp nocore ]
    | apply kp_bind; [|intros ?]
    | apply kp_try_catch
    | apply kp_try_finally
    | apply kp_modify; solve [ kp_field ]
    | match goal with
      | |- keeps _ (if ?b then _ else _) => destruct b
      | |- keeps _ (match ?x with _ => _ end) => destruct x
      | |- keeps _ (let '(_, _) := ?x in _) => destruct x
      end ].

Ltac kp_auto := repeat kp_step.

(* --------------------------------------------------------------------- *)
(** ** Leaving                                                             *)
(* --------------------------------------------------------------------- *)

Lemma restore_and_exit_run (s : state) :
  restore_and_exit s
  = Raise (SystemExit 0) (set_trace (trace s ++ restore_trace s) s).
Proof.
  destruct s as [h folder sgs idx redraw [settings|] ps ep lk dl tr fq iq cc e];
    cbv [restore_and_exit bind show_cursor emit modify get ret raise
         restore_trace];
    cbn [old_termios_settings env trace set_trace];
    [destruct (stdin_isatty e)|]; cbn [old_termios_settings env trace set_trace];
    rewrite <- ?app_assoc; reflexivity.
Qed.

Lemma cleanup_keeps {B} (f : state -> B) :
  (forall t s, f (set_trace t s) = f s) ->
  (forall v s, f (set_procs v s) = f s) ->
  (forall v s, f (set_endpoint v s) = f s) ->
  keeps f cleanup.
Proof.
  intros Ht Hp He.
  assert (Hu : forall pid g s, f (update_proc pid g s) = f s)
    by (intros; apply Hp).
  assert (Hx : forall pid s, f (exit_proc pid s) = f s)
    by (intros; rewrite exit_proc_shape, He, Hp; reflexivity).
  unfold cleanup, poll_is_None, terminate, wait, kill, socket_exists, unlink,
    show_cursor, emit.
  repeat first [ apply kp_modify; solve [ auto ] | kp_step ].
Qed.

(** What [cleanup] does to the player, the socket and the terminal. *)
Lemma cleanup_steps (s : state) :
  exists s',
    cleanup s = Raise (SystemExit 0) s' /\
    trace s'
    = (trace s ++ stop_trace s
         ++ (if socket_after_stop s then [Unlink] else [])
         ++ restore_trace s)%list /\
    endpoint s' = None /\ handle_dead s'.
Proof.
  destruct (stop_and_remove s) as (s2 & H2 & T2 & E2 & D2 & Q2 & K2).
  assert (C : cleanup s
              = Raise (SystemExit 0)
                  (set_trace (trace s2 ++ restore_trace s2) s2)).
  { rewrite cleanup_phases, <- bind_assoc. unfold bind at 1.
    rewrite H2. apply restore_and_exit_run. }
  eexists. split; [exact C|].
  assert (R : restore_trace s2 = restore_trace s).
  { pose proof (cleanup_keeps old_termios_settings
                  (fun _ _ => eq_refl) (fun _ _ => eq_refl)
                  (fun _ _ => eq_refl) s) as Ho.
    rewrite C in Ho. cbn [final_state old_termios_settings set_trace] in Ho.
    destruct Q2 as (_ & Qe & _).
    unfold restore_trace. rewrite Ho, Qe. reflexivity. }
  split.
  { cbn [trace set_trace]. rewrite T2, R, <- !app_assoc. reflexivity. }
  split; [exact E2|exact D2].
Qed.

(** X14.  What [cleanup] does, in order: if the handle names a running
    player it is sent SIGTERM and waited for two seconds, and killed if it
    has not ended by then; the socket file is removed if it is still
    there; the cursor is shown, the screen cleared, [Goodbye!] printed and
    the terminal settings restored if they were saved and standard input
    is a terminal; then the program exits with status 0.  Folder, track
    list, index, both logs and the redraw flag are as before. *)
Theorem cleanup_sequence (s : state) :
  exists s',
    cleanup s = Raise (SystemExit 0) s' /\
    trace s'
    = (trace s ++ stop_trace s
         ++ (if socket_after_stop s then [Unlink] else [])
         ++ restore_trace s)%list /\
    endpoint s' = None /\ handle_dead s' /\
    session s' = session s /\
    likes_file s' = likes_file s /\ dislikes_file s' = dislikes_file s /\
    needs_full_redraw s' = needs_full_redraw s.
Proof.
  destruct (cleanup_steps s) as (s' & C & T & He & Hd).
  exists s'. split; [exact C|]. split; [exact T|].
  split; [exact He|]. split; [exact Hd|].
  pose proof (cleanup_keeps session (fun _ _ => eq_refl) (fun _ _ => eq_refl)
                (fun _ _ => eq_refl) s) as Hs.
  pose proof (cleanup_keeps likes_file (fun _ _ => eq_refl)
                (fun _ _ => eq_refl) (fun _ _ => eq_refl) s) as Hl.
  pose proof (cleanup_keeps dislikes_file (fun _ _ => eq_refl)
                (fun _ _ => eq_refl) (fun _ _ => eq_refl) s) as Hf.
  pose proof (cleanup_keeps needs_full_redraw (fun _ _ => eq_refl)
                (fun _ _ => eq_refl) (fun _ _ => eq_refl) s) as Hr.
  rewrite C in Hs, Hl, Hf, Hr. cbn [final_state] in Hs, Hl, Hf, Hr.
  auto.
Qed.

Lemma cleanup_nothing_to_stop (s : state) :
  endpoint s = None -> handle_dead s ->
  cleanup s = Raise (SystemExit 0) (set_trace (trace s ++ restore_trace s) s).
Proof.
  intros He Hd.
  assert (H1 : stop_player s = Ok tt s).
  { unfold stop_player, bind, get, poll_is_None.
    destruct (mpv_process s) as [pid|] eqn:Eh; [|reflexivity].
    unfold get. rewrite (Hd pid Eh). reflexivity. }
  assert (H2 : remove_socket s = Ok tt s).
  { unfold remove_socket, bind, socket_exists, get. rewrite He.
    reflexivity. }
  rewrite cleanup_phases, <- bind_assoc. unfold bind at 1.
  unfold bind at 1. rewrite H1, H2. apply restore_and_exit_run.
Qed.

(** X15.  A second [cleanup] finds nothing to stop: once the socket file
    is gone and the handle reports not-alive, as they are after any
    [cleanup], running it again sends no signal and removes nothing; it
    only shows the cursor, clears the screen, prints [Goodbye!] and
    restores the terminal once more.  This is what the [finally] of the
    main loop does after the quit key or a signal: whatever ended the
    loop, a call of [cleanup] directly after one of [cleanup] adds just
    these actions. *)
Theorem second_cleanup_only_restores (s : state) :
  (endpoint s = None -> handle_dead s ->
   cleanup s
   = Raise (SystemExit 0) (set_trace (trace s ++ restore_trace s) s)) /\
  (forall s1,
      cleanup s = Raise (SystemExit 0) s1 ->
      cleanup s1
      = Raise (SystemExit 0) (set_trace (trace s1 ++ restore_trace s1) s1)).
Proof.
  split; [apply cleanup_nothing_to_stop|].
  intros s1 H. destruct (cleanup_run s) as (s' & E & He & Hd & _).
  rewrite H in E. injection E as ->.
  exact (cleanup_nothing_to_stop _ He Hd).
Qed.

Lemma second_cleanup_only_restores_witness :
  cleanup (playing answering 0)
  = Raise (SystemExit 0) (final_state (cleanup (playing answering 0))) /\
  printed (trace (final_state
                    (cleanup (final_state (cleanup (playing answering 0))))))
  = ["Goodbye!"; "Goodbye!"].
Proof.
  assert (H : cleanup (playing answering 0)
              = Raise (SystemExit 0)
                  (final_state (cleanup (playing answering 0))))
    by (vm_compute; reflexivity).
  split; [exact H|].
  rewrite (proj2 (second_cleanup_only_restores (playing answering 0)) _ H).
  vm_compute. reflexivity.
Defined.

(* --------------------------------------------------------------------- *)
(** ** Rounds of the main loop                                             *)
(* --------------------------------------------------------------------- *)

Lemma calm_round (inp : tick_input) (last : Q) (s : state) :
  calm inp last s ->
  iteration inp last s
  = (match ti_key inp with
     | Some (String c r) => on_key (String c r)
     | _ => ret tt
     end ;;;
     sleep (1 # 10) ;;;
     ret last) s.
Proof.
  intros (Hsig & Hex & Hre & Hq & Hrun).
  unfold iteration. rewrite Hsig, Hex.
  unfold bind at 1, ret at 1. unfold bind at 1, ret at 1.
  unfold bind at 1, get at 1. rewrite Hre.
  unfold bind at 1, ret at 1. rewrite Hq.
  unfold bind at 1, ret at 1.
  unfold bind at 1, get at 1.
  unfold player_running in Hrun.
  destruct (mpv_process s) as [pid|].
  - unfold bind at 1. unfold bind at 1, poll_is_None, get at 1.
    rewrite Hrun. reflexivity.
  - reflexivity.
Qed.

(** X16.  A round with nothing to do: no signal, no key (or the empty
    string that a read at end of input gives), no redraw pending, the last
    status update less than a second ago and the player running.  Such a
    round asks the player nothing and writes nothing; it only sleeps for a
    tenth of a second, and the time of the last status update is kept. *)
Theorem idle_round_only_sleeps (inp : tick_input) (last : Q) (s : state) :
  calm inp last s ->
  ti_key inp = None \/ ti_key inp = Some EmptyString ->
  iteration inp last s
  = Ok last (settle (set_trace (trace s ++ [Sleep (1 # 10)]) s)).
Proof.
  intros Hc Hk. rewrite (calm_round inp last s Hc).
  destruct Hk as [-> | ->]; reflexivity.
Qed.

Lemma idle_round_only_sleeps_witness :
  iteration (mktick (1 # 2) false false None) 0 (playing answering 0)
  = Ok 0%Q (set_trace [Sleep (1 # 10)] (playing answering 0)).
Proof.
  assert (H : calm (mktick (1 # 2) false false None) 0 (playing answering 0)).
  { repeat split; reflexivity. }
  rewrite (idle_round_only_sleeps _ _ _ H (or_introl eq_refl)).
  reflexivity.
Defined.

(** X17.  The quit key ends the program through two runs of [cleanup].
    In a round that gets as far as the key, the key's own [cleanup] stops
    the player and exits; the [finally] around the loop then runs
    [cleanup] again, which finds nothing to stop and only repeats the
    restoring of the terminal, so [Goodbye!] is printed twice; the exit
    status is 0.  [main] enters the loop with [last_progress_update = 0]. *)
Theorem quit_key_cleans_up_twice (inp : tick_input) (ticks : list tick_input)
    (last : Q) (key : string) (s : state) :
  calm inp last s ->
  ti_key inp = Some key ->
  key_in key ["q"; "Q"] = true ->
  exists s1,
    cleanup s = Raise (SystemExit 0) s1 /\
    trace s1
    = (trace s ++ stop_trace s
         ++ (if socket_after_stop s then [Unlink] else [])
         ++ restore_trace s)%list /\
    loop (inp :: ticks) last s = Raise (SystemExit 0) s1 /\
    try_finally (loop (inp :: ticks) last) cleanup s
    = Raise (SystemExit 0) (set_trace (trace s1 ++ restore_trace s1) s1).
Proof.
  intros Hc Hk Hq.
  destruct (cleanup_steps s) as (s1 & C & T & He & Hd).
  exists s1. split; [exact C|]. split; [exact T|].
  assert (L : loop (inp :: ticks) last s = Raise (SystemExit 0) s1).
  { cbn [loop]. unfold bind at 1. rewrite (calm_round inp last s Hc), Hk.
    assert (K : key <> EmptyString).
    { intros ->. discriminate. }
    destruct key as [|c r]; [contradiction|].
    unfold bind at 1. rewrite (quit_is_cleanup _ s Hq), C. reflexivity. }
  split; [exact L|].
  unfold try_finally. rewrite L. unfold bind.
  rewrite (cleanup_nothing_to_stop s1 He Hd). reflexivity.
Qed.

Lemma quit_key_cleans_up_twice_witness :
  exists s1,
    cleanup (playing answering 0) = Raise (SystemExit 0) s1 /\
    main_loop [mktick 0 false false (Some "Q")] (playing answering 0)
    = Raise (SystemExit 0) (set_trace (trace s1 ++ restore_trace s1) s1) /\
    printed (trace s1 ++ restore_trace s1) = ["Goodbye!"; "Goodbye!"].
Proof.
  assert (H : calm (mktick 0 false false (Some "Q")) 0 (playing answering 0)).
  { repeat split; reflexivity. }
  destruct (quit_key_cleans_up_twice (mktick 0 false false (Some "Q")) []
              0 "Q" (playing answering 0) H eq_refl eq_refl)
    as (s1 & C & T & _ & M).
  exists s1. split; [exact C|]. split; [exact M|].
  assert (F : s1 = final_state (cleanup (playing answering 0)))
    by (rewrite C; reflexivity).
  rewrite F. vm_compute. reflexivity.
Defined.

(* --------------------------------------------------------------------- *)
(** ** The interface on the screen                                         *)
(* --------------------------------------------------------------------- *)

Lemma emit_all_run (l : list action) (s : state) :
  emit_all l s = Ok tt (set_trace (trace s ++ l) s).
Proof.
  revert s. induction l as [|a l IH]; intros s; simpl.
  - rewrite app_nil_r. destruct s; reflexivity.
  - unfold bind, emit, modify. rewrite IH.
    cbn [trace set_trace]. rewrite <- app_assoc. reflexivity.
Qed.

Lemma printed_app (t u : list action) :
  printed (t ++ u) = (printed t ++ printed u)%list.
Proof.
  induction t as [|a t IH]; [reflexivity|].
  destruct a; simpl; rewrite IH; reflexivity.
Qed.

Lemma printed_song_rows (i current : Z) (l : list path) (k : nat) :
  nth_error (printed (song_rows i current l)) k
  = option_map (track_line current (i + Z.of_nat k)) (nth_error l k).
Proof.
  revert i k. induction l as [|song l IH]; intros i k.
  - destruct k; reflexivity.
  - destruct k as [|k].
    + simpl. rewrite Z.add_0_r. reflexivity.
    + cbn [song_rows printed nth_error]. rewrite IH.
      replace (i + 1 + Z.of_nat k) with (i + Z.of_nat (S k)) by lia.
      reflexivity.
Qed.

Lemma printed_song_rows_length (i current : Z) (l : list path) :
  List.length (printed (song_rows i current l)) = List.length l.
Proof.
  revert i. induction l as [|song l IH]; intros i; simpl; [reflexivity|].
  rewrite IH. reflexivity.
Qed.

Lemma song_rows_length (i current : Z) (l : list path) :
  List.length (song_rows i current l) = List.length l.
Proof.
  revert i. induction l as [|song l IH]; intros i; simpl; [reflexivity|].
  rewrite IH. reflexivity.
Qed.

(** The run of [draw_full_interface] when the current track exists and
    the probe answers: five lines of heading, the track rows, six lines
    of footing. *)
Lemma draw_full_interface_run (s : state) (song : path)
    (info : string * string * string * string) :
  py_index (songs s) (current_song_index s) = Val song ->
  get_song_info (env s) song = Val info ->
  exists head foot,
    draw_full_interface s
    = Ok tt
         (set_trace
            (trace s
               ++ ClearScreen
               :: head ++ song_rows 0 (current_song_index s) (songs s)
               ++ foot) s) /\
    List.length head = 5%nat /\
    List.length (printed head) = 5%nat /\
    List.length foot = 6%nat /\
    List.length (printed foot) = 6%nat /\
    nth_error (printed foot) 3 = Some last_legend_line /\
    nth_error (printed foot) 4 = Some bottom_border /\
    nth_error (printed foot) 5 = Some EmptyString /\
    map PrintLine (printed head) = head /\
    map PrintLine (printed foot) = foot.
Proof.
  intros Hs Hi. unfold draw_full_interface.
  unfold bind at 1, get at 1. unfold bind at 1, get at 1.
  unfold bind at 1. rewrite Hs. unfold lift at 1.
  unfold bind at 1, get at 1. unfold bind at 1. unfold ret at 1.
  cbv beta iota. rewrite Hi. unfold lift at 1, ret at 1. cbv beta iota.
  destruct info as [[[size sample_rate] bit_rate] bit_depth].
  unfold bind, emit, modify, get. rewrite emit_all_run.
  cbn [trace set_trace current_folder].
  eexists [_; _; _; _; _], [_; _; _; _; _; _].
  split.
  { apply (f_equal (fun t => Ok tt (set_trace t s))).
    rewrite <- !app_assoc. reflexivity. }
  repeat split.
Qed.

Lemma song_rows_printed (i current : Z) (l : list path) :
  map PrintLine (printed (song_rows i current l)) = song_rows i current l.
Proof.
  revert i. induction l as [|song l IH]; intros i; simpl; [reflexivity|].
  rewrite IH. reflexivity.
Qed.

Lemma str_app_assoc (a b c : string) : ((a ++ b) ++ c = a ++ (b ++ c))%string.
Proof.
  induction a as [|x a IH]; simpl; [reflexivity|]. rewrite IH. reflexivity.
Qed.

Lemma nth_error_app_at {A} (l1 l2 : list A) (k : nat) :
  nth_error (l1 ++ l2) (List.length l1 + k) = nth_error l2 k.
Proof.
  rewrite nth_error_app2 by lia. f_equal. lia.
Qed.

(** The lines of the interface. *)
Lemma interface_lines (s : state) (song : path)
    (info : string * string * string * string) :
  py_index (songs s) (current_song_index s) = Val song ->
  get_song_info (env s) song = Val info ->
  exists head foot : list string,
    draw_full_interface s
    = Ok tt
         (set_trace
            (trace s
               ++ ClearScreen
               :: map PrintLine
                    (head
                       ++ printed (song_rows 0 (current_song_index s)
                                             (songs s))
                       ++ foot)) s) /\
    List.length head = 5%nat /\ List.length foot = 6%nat /\
    nth_error foot 3 = Some last_legend_line /\
    nth_error foot 4 = Some bottom_border /\
    nth_error foot 5 = Some EmptyString.
Proof.
  intros Hs Hi.
  destruct (draw_full_interface_run s song info Hs Hi)
    as (head & foot & E & _ & Lh & _ & Lf & F3 & F4 & F5 & Ph & Pf).
  exists (printed head), (printed foot).
  split; [|auto 6].
  rewrite E, !map_app, Ph, Pf, song_rows_printed. reflexivity.
Qed.

(** X18.  The layout that [draw_full_interface] prints, when the current
    track exists and its probe answers: the screen is cleared and then
    [len(songs) + 11] lines are printed and nothing else; track number
    [i], counting from 0, is on row [6 + i], marked with the arrow if and
    only if [i] is the current index; the state is otherwise unchanged. *)
Theorem interface_layout (s : state) (song : path)
    (info : string * string * string * string) :
  py_index (songs s) (current_song_index s) = Val song ->
  get_song_info (env s) song = Val info ->
  exists lines,
    draw_full_interface s
    = Ok tt (set_trace (trace s ++ ClearScreen :: map PrintLine lines) s) /\
    Z.of_nat (List.length lines) = len_songs s + 11 /\
    (forall i track,
        nth_error (songs s) i = Some track ->
        on_row lines (6 + Z.of_nat i)
        = Some (track_line (current_song_index s) (Z.of_nat i) track)).
Proof.
  intros Hs Hi.
  destruct (interface_lines s song info Hs Hi)
    as (head & foot & E & Lh & Lf & _).
  eexists. split; [exact E|]. split.
  { rewrite !length_app, printed_song_rows_length, Lh, Lf.
    unfold len_songs. lia. }
  intros i track Ht. unfold on_row.
  replace (6 + Z.of_nat i <=? 0) with false by (symmetry; apply Z.leb_gt; lia).
  replace (Z.to_nat (6 + Z.of_nat i - 1))
    with (List.length head + i)%nat by lia.
  rewrite nth_error_app_at, nth_error_app1
    by (rewrite printed_song_rows_length; apply nth_error_Some;
        rewrite Ht; discriminate).
  rewrite printed_song_rows, Ht. reflexivity.
Qed.

Lemma interface_layout_witness :
  exists lines,
    draw_full_interface (playing answering 1)
    = Ok tt (set_trace (ClearScreen :: map PrintLine lines)
                       (playing answering 1)) /\
    List.length lines = 14%nat /\
    on_row lines 7
    = Some (" " ++ ESC ++ "[1;32m▶ b.mp3" ++ ESC ++ "[0m") /\
    on_row lines 8 = Some "  c.mp3".
Proof.
  destruct (interface_layout (playing answering 1) (mkpath "X" "b.mp3")
              ("3.00 MB", "44 kHz", "320 kbps", "-") eq_refl eq_refl)
    as (lines & E & L & R).
  exists lines. split; [exact E|]. split.
  { change (len_songs (playing answering 1)) with 3 in L. lia. }
  split.
  - exact (R 1%nat (mkpath "X" "b.mp3") eq_refl).
  - exact (R 2%nat (mkpath "X" "c.mp3") eq_refl).
Defined.

Lemma update_progress_display_first (percent pos dur : pyval) (s : state) :
  exists rest,
    trace (final_state (update_progress_display percent pos dur s))
    = (trace s ++ StdoutWrite (cursor_to (status_row s)) :: rest)%list.
Proof.
  unfold update_progress_display. unfold bind at 1, get at 1.
  unfold bind at 1, emit at 1, modify at 1.
  match goal with
  | |- context [final_state (?m ?x)] =>
      assert (G : emits anything m)
        by (unfold anything; em_auto);
      destruct (grows_ext m x G) as (t & Ht)
  end.
  exists t. rewrite Ht. cbn [trace set_trace].
  rewrite <- app_assoc. reflexivity.
Qed.

(** X19.  Where the status line goes.  [update_progress_display] moves
    the cursor to row [5 + len(songs) + 5] and [show_feedback] to row
    [5 + len(songs) + 4], rows counted from 1.  On the screen that
    [draw_full_interface] has printed, the first of these is the row of
    the bottom border and the second the row of the last line of the key
    legend; the empty line printed after the border is one row further
    down. *)
Theorem status_row_is_bottom_border (s : state) (song : path)
    (info : string * string * string * string) :
  py_index (songs s) (current_song_index s) = Val song ->
  get_song_info (env s) song = Val info ->
  exists lines s',
    draw_full_interface s = Ok tt s' /\
    trace s' = (trace s ++ ClearScreen :: map PrintLine lines)%list /\
    on_row lines (status_row s') = Some bottom_border /\
    on_row lines (status_row s' + 1) = Some EmptyString /\
    on_row lines (flash_row s') = Some last_legend_line /\
    (forall percent pos dur, exists rest,
        trace (final_state (update_progress_display percent pos dur s'))
        = (trace s' ++ StdoutWrite (cursor_to (status_row s')) :: rest)%list) /\
    (forall message color_code, exists text rest,
        trace (final_state (show_feedback message color_code s'))
        = (trace s'
             ++ StdoutWrite (cursor_to (flash_row s') ++ text) :: rest)%list).
Proof.
  intros Hs Hi.
  destruct (interface_lines s song info Hs Hi)
    as (head & foot & E & Lh & Lf & F3 & F4 & F5).
  eexists. eexists. split; [exact E|].
  split; [reflexivity|].
  assert (Hn : forall k,
             on_row (head ++ printed (song_rows 0 (current_song_index s)
                                                (songs s)) ++ foot)
                    (5 + len_songs s + 1 + Z.of_nat k)
             = nth_error foot k).
  { intros k. unfold on_row, len_songs.
    replace (_ <=? 0) with false by (symmetry; apply Z.leb_gt; lia).
    replace (Z.to_nat (5 + Z.of_nat (List.length (songs s)) + 1
                       + Z.of_nat k - 1))
      with (List.length head
            + (List.length (printed (song_rows 0 (current_song_index s)
                                               (songs s))) + k))%nat
      by (rewrite printed_song_rows_length; lia).
    rewrite !nth_error_app_at. reflexivity. }
  unfold status_row, flash_row.
  change (len_songs (set_trace _ s)) with (len_songs s).
  split.
  { replace (5 + len_songs s + 5) with (5 + len_songs s + 1 + Z.of_nat 4)
      by lia.
    rewrite Hn. exact F4. }
  split.
  { replace (5 + len_songs s + 5 + 1)
      with (5 + len_songs s + 1 + Z.of_nat 5) by lia.
    rewrite Hn. exact F5. }
  split.
  { replace (5 + len_songs s + 4) with (5 + len_songs s + 1 + Z.of_nat 3)
      by lia.
    rewrite Hn. exact F3. }
  split.
  { intros percent pos dur.
    exact (update_progress_display_first percent pos dur _). }
  intros message color_code.
  match goal with |- context [show_feedback _ _ ?x] =>
    destruct (show_feedback_run message color_code x) as (s2 & R & T & _)
  end.
  rewrite R. cbn [final_state]. rewrite T.
  eexists. eexists. unfold flash_on, cursor_to.
  change (len_songs (set_trace _ s)) with (len_songs s).
  rewrite !str_app_assoc. reflexivity.
Qed.

Lemma status_row_is_bottom_border_witness :
  exists lines s',
    draw_full_interface (playing answering 1) = Ok tt s' /\
    trace s' = ClearScreen :: map PrintLine lines /\
    status_row s' = 13 /\
    on_row lines 13 = Some bottom_border.
Proof.
  destruct (status_row_is_bottom_border (playing answering 1)
              (mkpath "X" "b.mp3")
              ("3.00 MB", "44 kHz", "320 kbps", "-") eq_refl eq_refl)
    as (lines & s' & E & T & B & _).
  exists lines, s'. split; [exact E|]. split; [exact T|].
  assert (N : status_row s' = 13).
  { assert (F : s' = final_state (draw_full_interface (playing answering 1)))
      by (rewrite E; reflexivity).
    rewrite F. vm_compute. reflexivity. }
  split; [exact N|]. rewrite <- N. exact B.
Defined.

(* --------------------------------------------------------------------- *)
(** ** Starting up                                                         *)
(* --------------------------------------------------------------------- *)

(** X20.  The script looks the three tools up before anything else, in
    the order [mpv], [fzf], [ffprobe].  When all are found it is [main];
    otherwise it names the first one that is missing and exits with
    status 1, and nothing else has happened: the terminal is not touched
    and no player is started. *)
Theorem tool_check (which : string -> bool) (ticks : list tick_input)
    (s : state) :
  (forallb which ["mpv"; "fzf"; "ffprobe"] = true ->
   script which ticks s = main ticks s) /\
  (forall cmd,
      find (fun c => negb (which c)) ["mpv"; "fzf"; "ffprobe"] = Some cmd ->
      script which ticks s
      = Raise (SystemExit 1)
          (set_trace
             (trace s
                ++ [PrintLine ("Error: Required command '" ++ cmd
                                 ++ "' not found in PATH.")]) s)).
Proof.
  unfold script. cbn [forallb find check_tools].
  destruct (which "mpv"), (which "fzf"), (which "ffprobe");
    cbn [negb andb]; split;
    try discriminate; try reflexivity;
    intros cmd [= <-]; reflexivity.
Qed.

Lemma tool_check_witness :
  script (fun cmd => negb (String.eqb cmd "fzf")) [] fresh_start
  = Raise (SystemExit 1)
      (set_trace
         [PrintLine "Error: Required command 'fzf' not found in PATH."]
         fresh_start).
Proof.
  exact (proj2 (tool_check (fun cmd => negb (String.eqb cmd "fzf")) []
                           fresh_start) "fzf" eq_refl).
Defined.

(** X21.  Without an interactive terminal [main] prints the message and
    exits with status 1 at once: the terminal settings are not read, no
    folder is looked for, no player is started, and [cleanup] is not
    run. *)
Theorem no_terminal_exit (ticks : list tick_input) (s : state) :
  stdin_isatty (env s) = false ->
  main ticks s
  = Raise (SystemExit 1)
      (set_trace
         (trace s ++ [PrintLine "This script requires an interactive terminal."])
         s).
Proof.
  intros H. unfold main, startup, bind at 1. unfold bind at 1, get at 1.
  rewrite H. reflexivity.
Qed.

Lemma no_terminal_exit_witness :
  main [] piped_start
  = Raise (SystemExit 1)
      (set_trace [PrintLine "This script requires an interactive terminal."]
                 piped_start).
Proof. exact (no_terminal_exit [] piped_start eq_refl). Defined.

(** X22.  [play_song] looks the current track up only after it has
    stopped the old player and removed the socket file.  So when the
    index is out of range it raises [IndexError] with the old player
    already stopped and the socket gone, and no new player is started:
    the process table and the handle are as before. *)
Theorem play_song_bad_index (s : state) (e : exn) :
  py_index (songs s) (current_song_index s) = Err e ->
  exists s',
    play_song s = Raise (Exc IndexError_) s' /\
    trace s'
    = (trace s ++ stop_trace s
         ++ if socket_after_stop s then [Unlink] else [])%list /\
    endpoint s' = None /\ handle_dead s' /\
    mpv_process s' = mpv_process s /\
    List.length (procs s') = List.length (procs s).
Proof.
  intros Herr.
  assert (He : e = Exc IndexError_).
  { revert Herr. unfold py_index.
    destruct (_ && _); [|intros [= <-]; reflexivity].
    destruct (nth_error _ _); [discriminate|].
    intros [= <-]. reflexivity. }
  subst e.
  destruct (stop_and_remove s) as (s2 & H2 & T2 & E2 & D2 & Q2 & K2).
  destruct (play_song_index_error s _ Herr) as (s2' & H2' & P).
  rewrite H2 in H2'. injection H2' as <-.
  exists s2. split; [exact P|]. split; [exact T2|].
  split; [exact E2|]. split; [exact D2|].
  destruct Q2 as (Qh & _ & Ql & _). auto.
Qed.

Lemma play_song_bad_index_witness :
  exists s',
    play_song (playing answering 3) = Raise (Exc IndexError_) s' /\
    trace s' = [Terminate 0; Wait 0 2] /\
    endpoint s' = None /\ List.length (procs s') = 1%nat.
Proof.
  destruct (play_song_bad_index (playing answering 3) (Exc IndexError_)
              eq_refl) as (s' & P & T & E & _ & _ & L).
  exists s'. split; [exact P|]. split; [exact T|]. split; [exact E|exact L].
Defined.

(* --------------------------------------------------------------------- *)
(** ** Going round the track list                                          *)
(* --------------------------------------------------------------------- *)

Lemma times_advance (k : nat) (s : state) :
  songs s <> [] ->
  times (S k) advance s
  = Ok tt (set_current_song_index
             ((current_song_index s + Z.of_nat (S k)) mod len_songs s) s).
Proof.
  revert s. induction k as [|k IH]; intros s Hne.
  - cbn [times]. unfold bind. rewrite (advance_run s Hne). reflexivity.
  - change (times (S (S k)) advance) with (advance ;;; times (S k) advance).
    unfold bind. rewrite (advance_run s Hne).
    rewrite IH by exact Hne.
    cbn [current_song_index set_current_song_index].
    change (len_songs (set_current_song_index _ s)) with (len_songs s).
    rewrite Z.add_mod_idemp_l
      by (pose proof (len_songs_pos s Hne); lia).
    replace (current_song_index s + 1 + Z.of_nat (S k))
      with (current_song_index s + Z.of_nat (S (S k))) by lia.
    reflexivity.
Qed.

(** X23.  The circular advance goes round: with the index in range,
    [k] advances in a row set it to [(i + k) mod len(songs)] and change
    nothing else, so [len(songs)] of them bring back the state they
    started from. *)
Theorem advance_goes_round (s : state) :
  index_in_range s ->
  (forall k,
      times k advance s
      = Ok tt (set_current_song_index
                 ((current_song_index s + Z.of_nat k) mod len_songs s) s)) /\
  times (List.length (songs s)) advance s = Ok tt s.
Proof.
  intros Hr. pose proof (index_in_range_nonempty s Hr) as Hne.
  assert (Hk : forall k,
             times k advance s
             = Ok tt (set_current_song_index
                        ((current_song_index s + Z.of_nat k) mod len_songs s)
                        s)).
  { intros [|k]; [|exact (times_advance k s Hne)].
    cbn [times]. rewrite Z.add_0_r, Z.mod_small by exact Hr.
    destruct s; reflexivity. }
  split; [exact Hk|]. rewrite Hk.
  fold (len_songs s).
  replace (current_song_index s + len_songs s)
    with (current_song_index s + 1 * len_songs s) by lia.
  rewrite Z.mod_add by (unfold index_in_range in Hr; lia).
  rewrite Z.mod_small by exact Hr.
  destruct s; reflexivity.
Qed.

Lemma advance_goes_round_witness :
  index_in_range (playing answering 1) /\
  times 2 advance (playing answering 1) = Ok tt (playing answering 0) /\
  times 3 advance (playing answering 1) = Ok tt (playing answering 1).
Proof.
  assert (H : index_in_range (playing answering 1))
    by (unfold index_in_range, len_songs; cbn; lia).
  destruct (advance_goes_round (playing answering 1) H) as (Hk & Hn).
  split; [exact H|]. split; [exact (Hk 2%nat)|exact Hn].
Defined.

(* --------------------------------------------------------------------- *)
(** ** Changing the folder                                                 *)
(* --------------------------------------------------------------------- *)

Lemma play_song_keeps_folder : keeps current_folder play_song.
Proof.
  unfold play_song, poll_is_None, terminate, wait, kill, socket_exists,
    unlink, popen, sleep, emit.
  kp_auto.
Qed.

Lemma change_key_run (key : string) (s : state) :
  key_in key ["c"; "C"] = true ->
  on_key key s
  = ((select_folder ;;;
      get_songs ;;;
      modify (set_current_song_index 0) ;;;
      play_song) ;;;
     modify (set_needs_full_redraw true)) s.
Proof.
  intros H. apply key_in_two in H. destruct H as [->| ->]; reflexivity.
Qed.

(** X24.  After key 'c' has gone through, the new folder is in place: its
    name is not empty, the track list is that of the folder, non-empty,
    strictly ascending and with every track in the folder, the index is
    0, and a full redraw is requested. *)
Theorem change_folder_resets (key : string) (s s' : state) :
  key_in key ["c"; "C"] = true ->
  on_key key s = Ok tt s' ->
  current_folder s' <> EmptyString /\
  songs s' <> [] /\
  ascending (songs s') /\
  (forall p, In p (songs s') -> path_parent p = current_folder s') /\
  current_song_index s' = 0 /\
  needs_full_redraw s' = true.
Proof.
  intros Hk H. rewrite (change_key_run key s Hk) in H.
  apply bind_ok_inv in H. destruct H as ([] & s4 & H & Hr).
  injection Hr as <-.
  apply bind_ok_inv in H. destruct H as ([] & s1 & Hf & H).
  apply bind_ok_inv in H. destruct H as ([] & s2 & Hg & H).
  apply bind_ok_inv in H. destruct H as ([] & s3 & Hi & Hp).
  injection Hi as <-.
  pose proof (select_folder_nonempty s s1 Hf) as Nf.
  assert (G : s2 = set_songs
                     (sorted_set
                        (map (mkpath (current_folder s1))
                             (found_in (env s1) (current_folder s1)))) s1
              /\ songs s2 <> []).
  { split; [exact (get_songs_ok s1 s2 Hg)|].
    exact (get_songs_nonempty s1 s2 Hg). }
  destruct G as (G & Ns).
  pose proof (reach_tracks true _ _
                (fp_ok true false _ _ _ _ (play_song_fp false) Hp))
    as (Ks & Ki).
  pose proof (play_song_keeps_folder (set_current_song_index 0 s2)) as Kf.
  rewrite Hp in Kf. cbn [final_state current_folder set_current_song_index]
    in Kf.
  cbn [current_folder songs current_song_index needs_full_redraw
       set_needs_full_redraw set_current_song_index] in *.
  rewrite Ks, Ki, Kf.
  assert (F2 : current_folder s2 = current_folder s1)
    by (rewrite G; reflexivity).
  assert (S2 : songs s2
               = sorted_set
                   (map (mkpath (current_folder s1))
                        (found_in (env s1) (current_folder s1))))
    by (rewrite G; reflexivity).
  rewrite F2. split; [exact Nf|]. split; [exact Ns|].
  split; [rewrite S2; apply sorted_set_ascending|].
  split; [|split; reflexivity].
  intros p Hin. rewrite S2 in Hin.
  apply (proj1 (sorted_set_in _ _)) in Hin.
  apply (proj1 (in_map_iff _ _ _)) in Hin. destruct Hin as (name & <- & _). reflexivity.
Qed.

Lemma change_folder_resets_witness :
  on_key "c" picked_folder = Ok tt (final_state (on_key "c" picked_folder)) /\
  current_folder (final_state (on_key "c" picked_folder)) <> EmptyString /\
  songs (final_state (on_key "c" picked_folder)) <> [] /\
  current_song_index (final_state (on_key "c" picked_folder)) = 0.
Proof.
  assert (H : on_key "c" picked_folder
              = Ok tt (final_state (on_key "c" picked_folder)))
    by (vm_compute; reflexivity).
  destruct (change_folder_resets "c" picked_folder _ eq_refl H)
    as (F & N & _ & _ & I0 & _).
  split; [exact H|]. split; [exact F|]. split; [exact N|exact I0].
Defined.

(* --------------------------------------------------------------------- *)
(** ** Drawing changes nothing but the terminal                            *)
(* --------------------------------------------------------------------- *)

Section OnlyWrites.
Variable P : action -> Prop.

Lemma ow_ret {A} (a : A) : only_writes P (ret a).
Proof.
  intros s. exists []. split; [|constructor].
  rewrite app_nil_r. destruct s; reflexivity.
Qed.

Lemma ow_raise {A} (e : exn) : only_writes P (@raise A e).
Proof.
  intros s. exists []. split; [|constructor].
  rewrite app_nil_r. destruct s; reflexivity.
Qed.

Lemma ow_get {A} (f : state -> A) : only_writes P (get f).
Proof.
  intros s. exists []. split; [|constructor].
  rewrite app_nil_r. destruct s; reflexivity.
Qed.

Lemma ow_lift {A} (r : res A) : only_writes P (lift r).
Proof. destruct r; [apply ow_ret|apply ow_raise]. Qed.

Lemma ow_emit (a : action) : P a -> only_writes P (emit a).
Proof. intros H s. exists [a]. split; [reflexivity|auto]. Qed.

Lemma ow_bind {A B} (m : M A) (k : A -> M B) :
  only_writes P m -> (forall a, only_writes P (k a)) ->
  only_writes P (bind m k).
Proof.
  intros Hm Hk s. unfold bind. destruct (Hm s) as (t & Ht & Pt).
  destruct (m s) as [a s'|e s'|s']; cbn [final_state] in *; eauto.
  destruct (Hk a s') as (t' & Ht' & Pt').
  exists (t ++ t')%list. rewrite Ht', Ht. cbn [trace set_trace].
  rewrite app_assoc. split; [reflexivity|]. apply Forall_app. auto.
Qed.

End OnlyWrites.

Ltac ow_step :=
  first
    [ apply ow_ret | apply ow_raise | apply ow_get | apply ow_lift
    | apply ow_emit; solve [ exact I | reflexivity | simpl; auto ]
    | apply ow_bind; [|intros ?]
    | match goal with
      | |- only_writes _ (if ?b then _ else _) => destruct b
      | |- only_writes _ (match ?x with _ => _ end) => destruct x
      | |- only_writes _ (let '(_, _) := ?x in _) => destruct x
      end ].

Lemma emit_all_only_writes (l : list action) :
  Forall on_screen l -> only_writes on_screen (emit_all l).
Proof.
  induction 1 as [|a l Ha Hl IH]; simpl; [apply ow_ret|].
  apply ow_bind; [apply ow_emit; exact Ha|intros _; exact IH].
Qed.

(** X25.  Drawing changes nothing but the terminal.  However
    [draw_full_interface] and [update_progress_display] end, also when
    the current track does not exist, the probe fails or a value from the
    player cannot be parsed, the state they leave is the one they
    started from with terminal output added to the trace; the same holds
    for [hide_cursor] and [show_cursor]. *)
Theorem drawing_only_writes :
  only_writes on_screen draw_full_interface /\
  (forall percent current_pos total_duration,
      only_writes on_screen
        (update_progress_display percent current_pos total_duration)) /\
  only_writes on_screen hide_cursor /\
  only_writes on_screen show_cursor.
Proof.
  split; [|split; [|split]].
  - unfold draw_full_interface.
    repeat first [ apply emit_all_only_writes, song_rows_screen | ow_step ].
  - intros percent current_pos total_duration.
    unfold update_progress_display. repeat ow_step.
  - unfold hide_cursor. repeat ow_step.
  - unfold show_cursor. repeat ow_step.
Qed.
End PlayerFacts.
